(** * FFmalloc: a shallow embedding of [ffmalloc.c]

    The allocator is modelled as a sequential program over an explicit
    state: the process-wide globals ([isInit], [poolHighWater], the pool
    radix tree), the pool descriptors, the default arena, the calling
    thread's cache and the part of the operating system the allocator
    talks to (anonymous fixed mappings).  Every [size_t] and every
    address is a [Z] in [0, 2^64) and the wrap-around of the C arithmetic
    is written out.  Locks and atomics are single steps of the sequential
    model.  The build modelled is the Linux one without [FF_PROFILE],
    [MARK_SWEEP] and [FF_GROWLARGEREALLOC]; the alignment choice
    [FF_EIGHTBYTEALIGN] is a parameter. *)

From Stdlib Require Import ZArith Lia Bool String List.
From stdpp Require Import base option list gmap.

Local Open Scope Z_scope.

(** ** Machine words *)

Definition SIZE_MAX : Z := 2^64 - 1.

(** Reduction of an arithmetic result to 64 bits. *)
Definition wrap64 (x : Z) : Z := x mod 2^64.

(** [~x] on 64 bits. *)
Definition not64 (x : Z) : Z := SIZE_MAX - x.

(** [__builtin_popcountl]. *)
Fixpoint pos_popcount (p : positive) : Z :=
  match p with
  | xH => 1
  | xO p' => pos_popcount p'
  | xI p' => 1 + pos_popcount p'
  end.

Definition FFPOPCOUNT64 (x : Z) : Z :=
  match x with
  | Zpos p => pos_popcount p
  | _ => 0
  end.

(** [__builtin_clzl]; the C builtin is undefined at 0, where this model
    answers 63. *)
Definition FFCOUNTLEADINGZEROS64 (x : Z) : Z := 63 - Z.log2 x.

(** ** Compile-time constants *)

Definition POOL_SIZE_BITS : Z := 21.
Definition POOL_SIZE : Z := 2097152.
Definition PAGE_SIZE : Z := 4096.
Definition HALF_PAGE : Z := 2048.
Definition PAGES_PER_REFILL : Z := 128.
Definition MIN_PAGES_TO_FREE : Z := 1.
Definition MAX_LARGE_LISTS : Z := 8.
Definition MAX_POOLS_PER_LIST : Z := 16.
Definition ROOT_BITS : Z := 8.
Definition STEM_BITS : Z := 8.
Definition LEAF_BITS : Z := 48 - ROOT_BITS - STEM_BITS - POOL_SIZE_BITS.
Definition LEAVES_PER_STEM : Z := 256.
Definition POOLS_PER_LEAF : Z := 2048.

Definition EINVAL : Z := 22.
Definition ENOMEM : Z := 12.
Definition EEXIST : Z := 17.
Definition EPERM : Z := 1.

(** [ALIGN_TO(VALUE, ALIGNMENT)]. *)
Definition ALIGN_TO (VALUE ALIGNMENT : Z) : Z :=
  Z.land (wrap64 (VALUE + (ALIGNMENT - 1))) (not64 (ALIGNMENT - 1)).

(** ** The operating system

    Only what [mmap] with [MAP_PRIVATE | MAP_ANONYMOUS |
    MAP_FIXED_NOREPLACE] and [munmap] decide is kept: the mapped ranges
    [(start, end)] of the process, the program break read by [sbrk(0)]
    and the CPU reported by [sched_getcpu]. *)

Record OS := mkOS {
  mapped : list (Z * Z);
  brk : Z;
  cpu : Z
}.

Definition TASK_SIZE : Z := 2^47.
Definition MMAP_MIN_ADDR : Z := 65536.

Inductive mmap_result := MapOk | MapErr (e : Z).

Definition range_overlaps (a e : Z) (r : Z * Z) : bool :=
  (r.1 <? e) && (a <? r.2).

(** A fixed, no-replace mapping is placed at [addr] or fails: [EINVAL]
    for an empty or misaligned request, [ENOMEM] when the range leaves the
    user address space, [EPERM] below [vm.mmap_min_addr], [EEXIST] when it
    meets an existing mapping. *)
Definition mmap_fixed_noreplace (o : OS) (addr len : Z) : mmap_result * OS :=
  if (len =? 0) || negb (addr mod PAGE_SIZE =? 0) then (MapErr EINVAL, o)
  else if (TASK_SIZE <? len) || (TASK_SIZE - len <? addr) then (MapErr ENOMEM, o)
  else if addr <? MMAP_MIN_ADDR then (MapErr EPERM, o)
  else if existsb (range_overlaps addr (addr + len)) (mapped o) then (MapErr EEXIST, o)
  else (MapOk, mkOS ((addr, addr + len) :: mapped o) (brk o) (cpu o)).

Definition cut_range (a e : Z) (r : Z * Z) : list (Z * Z) :=
  (if r.1 <? Z.min a r.2 then [(r.1, Z.min a r.2)] else []) ++
  (if Z.max e r.1 <? r.2 then [(Z.max e r.1, r.2)] else []).

(** [munmap]: 0 on success, -1 (with [EINVAL]) otherwise. *)
Definition munmap (o : OS) (addr len : Z) : Z * OS :=
  if (len =? 0) || negb (addr mod PAGE_SIZE =? 0) then (-1, o)
  else (0, mkOS (concat (map (cut_range addr (addr + len)) (mapped o))) (brk o) (cpu o)).

(** ** Metadata structures *)

(** [union bitmap_t]: one 64-bit word, or an array of words when the page
    holds more than 64 slots. *)
Inductive bitmap_t :=
  | BmSingle (single : Z)
  | BmArray (array : list Z).

Record pagemap_t := mkPagemap {
  page_start : Z;
  page_allocSize : Z;
  page_bitmap : bitmap_t
}.

(** A page map as [ffpoolmetadata_alloc] leaves it after [memset]. *)
Definition zero_pagemap : pagemap_t := mkPagemap 0 0 (BmSingle 0).

(** [union tracking_t]. *)
Inductive tracking_t :=
  | PageMaps (pageMaps : list pagemap_t)
  | Allocations (allocations : list Z)
  | NoTracking.

Record pagepool_t := mkPool {
  pool_start : Z;
  pool_end : Z;
  nextFreePage : Z;
  tracking : tracking_t;
  nextFreeIndex : Z;
  startInUse : Z;
  endInUse : Z
}.

(** A pool descriptor fresh from the metadata heap. *)
Definition zero_pool : pagepool_t := mkPool 0 0 0 NoTracking 0 0 0.

(** A pointer to a page map: the pool that owns the array and the index
    in it. *)
Definition pagemap_ptr : Type := Z * Z.

Record bin_t := mkBin {
  nextAlloc : Z;
  bin_allocSize : Z;
  allocCount : Z;
  maxAlloc : Z;
  bin_page : option pagemap_ptr
}.

Definition zero_bin : bin_t := mkBin 0 0 0 0 None.

Record threadcache_t := mkTcache {
  bins : list bin_t;
  unusedPool : Z;
  nextUnusedPage : Z;
  endUnusedPage : Z
}.

Record radixleaf_t := mkLeaf {
  poolStart : gmap Z Z;
  poolEnd : gmap Z Z
}.

Definition empty_leaf : radixleaf_t := mkLeaf ∅ ∅.

Record arena_t := mkArena {
  smallPoolList : list Z;
  largePoolList : list (list Z);
  jumboPoolList : list Z
}.

(** ** Process state

    Pool descriptors live in the metadata heap; [pools] maps the handle
    of a descriptor to its contents and [nextHandle] is the next handle
    the metadata heap gives out. *)
Record State := mkState {
  isInit : Z;
  poolCount : Z;
  poolHighWater : Z;
  poolTree : gmap Z (gmap Z radixleaf_t);
  pools : gmap Z pagepool_t;
  nextHandle : Z;
  arena0 : arena_t;
  tcache0 : option threadcache_t;
  os : OS;
  errno : Z
}.

Definition set_isInit (v : Z) (s : State) : State :=
  mkState v (poolCount s) (poolHighWater s) (poolTree s) (pools s)
          (nextHandle s) (arena0 s) (tcache0 s) (os s) (errno s).
Definition set_poolCount (v : Z) (s : State) : State :=
  mkState (isInit s) v (poolHighWater s) (poolTree s) (pools s)
          (nextHandle s) (arena0 s) (tcache0 s) (os s) (errno s).
Definition set_poolHighWater (v : Z) (s : State) : State :=
  mkState (isInit s) (poolCount s) v (poolTree s) (pools s)
          (nextHandle s) (arena0 s) (tcache0 s) (os s) (errno s).
Definition set_poolTree (v : gmap Z (gmap Z radixleaf_t)) (s : State) : State :=
  mkState (isInit s) (poolCount s) (poolHighWater s) v (pools s)
          (nextHandle s) (arena0 s) (tcache0 s) (os s) (errno s).
Definition set_pools (v : gmap Z pagepool_t) (s : State) : State :=
  mkState (isInit s) (poolCount s) (poolHighWater s) (poolTree s) v
          (nextHandle s) (arena0 s) (tcache0 s) (os s) (errno s).
Definition set_nextHandle (v : Z) (s : State) : State :=
  mkState (isInit s) (poolCount s) (poolHighWater s) (poolTree s) (pools s)
          v (arena0 s) (tcache0 s) (os s) (errno s).
Definition set_arena0 (v : arena_t) (s : State) : State :=
  mkState (isInit s) (poolCount s) (poolHighWater s) (poolTree s) (pools s)
          (nextHandle s) v (tcache0 s) (os s) (errno s).
Definition set_tcache0 (v : option threadcache_t) (s : State) : State :=
  mkState (isInit s) (poolCount s) (poolHighWater s) (poolTree s) (pools s)
          (nextHandle s) (arena0 s) v (os s) (errno s).
Definition set_os (v : OS) (s : State) : State :=
  mkState (isInit s) (poolCount s) (poolHighWater s) (poolTree s) (pools s)
          (nextHandle s) (arena0 s) (tcache0 s) v (errno s).
Definition set_errno (v : Z) (s : State) : State :=
  mkState (isInit s) (poolCount s) (poolHighWater s) (poolTree s) (pools s)
          (nextHandle s) (arena0 s) (tcache0 s) (os s) v.

(** The descriptor behind a handle; a handle that was never given out
    reads as a zeroed descriptor. *)
Definition pool_of (s : State) (h : Z) : pagepool_t :=
  default zero_pool (pools s !! h).

Definition set_pool (h : Z) (p : pagepool_t) (s : State) : State :=
  set_pools (<[h := p]> (pools s)) s.

(** ** Outcomes

    A call returns a value and a new state, or ends the process:
    [abort()] after the diagnostic [msg] written to [stderr] (the empty
    string when the code aborts silently), or a hardware trap (an integer
    division by zero, a load through a null pointer).  [OutOfFuel] is the
    model giving up on the retry loop of [os_alloc_highwater]. *)
Inductive trap := DivideError | NullDeref.

Inductive result (A : Type) :=
  | Ok (a : A) (s : State)
  | Aborted (msg : string)
  | Trapped (t : trap)
  | OutOfFuel.
Arguments Ok {A} a s.
Arguments Aborted {A} msg.
Arguments Trapped {A} t.
Arguments OutOfFuel {A}.

Definition M (A : Type) : Type := State → result A.

Definition ret {A} (a : A) : M A := λ s, Ok a s.

Definition bind {A B} (m : M A) (k : A → M B) : M B :=
  λ s, match m s with
       | Ok a s' => k a s'
       | Aborted msg => Aborted msg
       | Trapped t => Trapped t
       | OutOfFuel => OutOfFuel
       end.

Definition abort {A} (msg : string) : M A := λ _, Aborted msg.
Definition trap_with {A} (t : trap) : M A := λ _, Trapped t.
Definition get : M State := λ s, Ok s s.
Definition modify (f : State → State) : M unit := λ s, Ok tt (f s).

Notation "'let*' x ':=' m 'in' k" := (bind m (λ x, k))
  (at level 10, x binder, m at level 200, k at level 200).

(** Array reads and writes at a [size_t] index.  Reads outside the
    modelled array give the zero default. *)
Definition zget (l : list Z) (i : Z) : Z :=
  if (0 <=? i) then nth (Z.to_nat i) l 0 else 0.
Definition zset (l : list Z) (i : Z) (v : Z) : list Z :=
  if (0 <=? i) then <[Z.to_nat i := v]> l else l.
Definition pmget (l : list pagemap_t) (i : Z) : pagemap_t :=
  if (0 <=? i) then nth (Z.to_nat i) l zero_pagemap else zero_pagemap.
Definition pmset (l : list pagemap_t) (i : Z) (v : pagemap_t) : list pagemap_t :=
  if (0 <=? i) then <[Z.to_nat i := v]> l else l.
Definition binget (l : list bin_t) (i : Z) : bin_t :=
  if (0 <=? i) then nth (Z.to_nat i) l zero_bin else zero_bin.
Definition binset (l : list bin_t) (i : Z) (v : bin_t) : list bin_t :=
  if (0 <=? i) then <[Z.to_nat i := v]> l else l.

Definition set_nextFreePage (v : Z) (p : pagepool_t) : pagepool_t :=
  mkPool (pool_start p) (pool_end p) v (tracking p) (nextFreeIndex p)
         (startInUse p) (endInUse p).
Definition set_tracking (v : tracking_t) (p : pagepool_t) : pagepool_t :=
  mkPool (pool_start p) (pool_end p) (nextFreePage p) v (nextFreeIndex p)
         (startInUse p) (endInUse p).
Definition set_nextFreeIndex (v : Z) (p : pagepool_t) : pagepool_t :=
  mkPool (pool_start p) (pool_end p) (nextFreePage p) (tracking p) v
         (startInUse p) (endInUse p).
Definition set_startInUse (v : Z) (p : pagepool_t) : pagepool_t :=
  mkPool (pool_start p) (pool_end p) (nextFreePage p) (tracking p)
         (nextFreeIndex p) v (endInUse p).
Definition set_endInUse (v : Z) (p : pagepool_t) : pagepool_t :=
  mkPool (pool_start p) (pool_end p) (nextFreePage p) (tracking p)
         (nextFreeIndex p) (startInUse p) v.

(** [pool->tracking.allocations] and [pool->tracking.pageMaps]. *)
Definition allocs (p : pagepool_t) : list Z :=
  match tracking p with Allocations l => l | _ => [] end.
Definition pagemaps (p : pagepool_t) : list pagemap_t :=
  match tracking p with PageMaps l => l | _ => [] end.

Definition get_page (s : State) (pp : pagemap_ptr) : pagemap_t :=
  pmget (pagemaps (pool_of s pp.1)) pp.2.

Definition set_page (pp : pagemap_ptr) (pm : pagemap_t) (s : State) : State :=
  let p := pool_of s pp.1 in
  set_pool pp.1 (set_tracking (PageMaps (pmset (pagemaps p) pp.2 pm)) p) s.

Definition set_allocs (h : Z) (l : list Z) (s : State) : State :=
  set_pool h (set_tracking (Allocations l) (pool_of s h)) s.

(** The metadata heap hands out descriptors; a fresh one reads as zero.
    Handles are not recycled in this model. *)
Definition ffmetadata_alloc_pool : M Z := λ s,
  let h := nextHandle s in
  Ok h (set_nextHandle (h + 1) (set_pool h zero_pool s)).

Definition ffmetadata_free_pool (h : Z) : M unit :=
  modify (λ s, set_pools (delete h (pools s)) s).

(** A bounded loop: [step] is run until it answers [inr], at most
    [2^k] times for a fuel of [k] binary digits. *)
Fixpoint repeat_until {S R : Type} (fuel : positive) (step : S → S + R) (s : S) : S + R :=
  match fuel with
  | xH => step s
  | xO f | xI f =>
      match repeat_until f step s with
      | inl s' => repeat_until f step s'
      | inr r => inr r
      end
  end.

Definition MMAP_FUEL : positive := 268435456.

(** ** OS compatibility functions *)

(** One turn of the [while (result == NULL)] loop of
    [os_alloc_highwater]: the mapping attempt at [localHigh], and on
    [EEXIST] the jump of the highwater mark by [POOL_SIZE]. *)
Definition mmap_attempt (size : Z) (sl : State * Z) : (State * Z) + (option Z * State) :=
  let st := sl.1 in
  let localHigh := sl.2 in
  match mmap_fixed_noreplace (os st) localHigh size with
  | (MapOk, o') => inr (Some localHigh, set_os o' st)
  | (MapErr e, _) =>
      if e =? EEXIST then
        inl (set_poolHighWater (wrap64 (poolHighWater st + POOL_SIZE)) (set_errno e st),
             poolHighWater st)
      else inr (None, set_errno e st)
  end.

(** [os_alloc_highwater]; [None] is [MAP_FAILED]. *)
Definition os_alloc_highwater (size : Z) : M (option Z) := λ st,
  let localHigh := poolHighWater st in
  match repeat_until MMAP_FUEL (mmap_attempt size)
          (set_poolHighWater (wrap64 (localHigh + size)) st, localHigh) with
  | inr (r, st') => Ok r st'
  | inl _ => OutOfFuel
  end.

Definition os_decommit (startAddress size : Z) : M Z := λ st,
  let '(r, o') := munmap (os st) startAddress size in
  Ok r (if r =? 0 then set_os o' st else set_errno EINVAL (set_os o' st)).

(** ** Radix tree *)

Definition stem_index (ptr : Z) : Z :=
  Z.shiftr ptr (POOL_SIZE_BITS + LEAF_BITS + STEM_BITS).
Definition leaf_index (ptr : Z) : Z :=
  Z.land (Z.shiftr ptr (POOL_SIZE_BITS + LEAF_BITS)) (LEAVES_PER_STEM - 1).
Definition pool_index (ptr : Z) : Z :=
  Z.land (Z.shiftr ptr POOL_SIZE_BITS) (POOLS_PER_LEAF - 1).

Definition leaf_at (t : gmap Z (gmap Z radixleaf_t)) (si li : Z) : option radixleaf_t :=
  t !! si ≫= λ stem, stem !! li.

Definition put_leaf (t : gmap Z (gmap Z radixleaf_t)) (si li : Z) (l : radixleaf_t)
  : gmap Z (gmap Z radixleaf_t) :=
  <[si := <[li := l]> (default ∅ (t !! si))]> t.

Definition find_pool_for_ptr (st : State) (ptr : Z) : option Z :=
  match leaf_at (poolTree st) (stem_index ptr) (leaf_index ptr) with
  | Some leaf =>
      let viaEnd :=
        match poolEnd leaf !! pool_index ptr with
        | Some h => if ptr <? pool_end (pool_of st h) then Some h else None
        | None => None
        end in
      match poolStart leaf !! pool_index ptr with
      | Some h => if pool_start (pool_of st h) <=? ptr then Some h else viaEnd
      | None => viaEnd
      end
  | None => None
  end.

(** The entry of the [poolStart] array, or of the [poolEnd] array, that
    the prefix of [ptr] selects; [None] is a NULL entry or a node that
    was never allocated. *)
Definition tree_start (t : gmap Z (gmap Z radixleaf_t)) (ptr : Z) : option Z :=
  leaf_at t (stem_index ptr) (leaf_index ptr) ≫= λ l, poolStart l !! pool_index ptr.
Definition tree_end (t : gmap Z (gmap Z radixleaf_t)) (ptr : Z) : option Z :=
  leaf_at t (stem_index ptr) (leaf_index ptr) ≫= λ l, poolEnd l !! pool_index ptr.

(** The store to that entry, allocating the nodes on the way. *)
Definition tree_set_start (t : gmap Z (gmap Z radixleaf_t)) (ptr : Z) (v : option Z)
  : gmap Z (gmap Z radixleaf_t) :=
  let l := default empty_leaf (leaf_at t (stem_index ptr) (leaf_index ptr)) in
  put_leaf t (stem_index ptr) (leaf_index ptr)
    (mkLeaf (partial_alter (λ _, v) (pool_index ptr) (poolStart l)) (poolEnd l)).
Definition tree_set_end (t : gmap Z (gmap Z radixleaf_t)) (ptr : Z) (v : option Z)
  : gmap Z (gmap Z radixleaf_t) :=
  let l := default empty_leaf (leaf_at t (stem_index ptr) (leaf_index ptr)) in
  put_leaf t (stem_index ptr) (leaf_index ptr)
    (mkLeaf (poolStart l) (partial_alter (λ _, v) (pool_index ptr) (poolEnd l))).

(** Inserts a newly created page pool into the radix tree. *)
Definition add_pool_to_tree (h : Z) : M unit := modify (λ st,
  let p := pool_of st h in
  set_poolCount (poolCount st + 1)
    (set_poolTree
       (tree_set_end (tree_set_start (poolTree st) (pool_start p) (Some h))
                     (pool_end p) (Some h)) st)).

(** Removes a page pool from the lookup tree. *)
Definition remove_pool_from_tree (h : Z) : M unit := modify (λ st,
  let p := pool_of st h in
  set_poolCount (poolCount st - 1)
    (set_poolTree
       (tree_set_end (tree_set_start (poolTree st) (pool_start p) None)
                     (pool_end p) None) st)).

(** [os_free]: unmaps the whole pool that [startAddress] belongs to. *)
Definition os_free (startAddress : Z) : M Z := λ st,
  match find_pool_for_ptr st startAddress with
  | Some h =>
      let p := pool_of st h in
      let '(r, o') := munmap (os st) (pool_start p) (wrap64 (pool_end p - pool_start p)) in
      Ok r (if r =? 0 then set_os o' st else set_errno EINVAL (set_os o' st))
  | None => Aborted ""
  end.

(** ** Pool creation *)

(** Entries of the tracking arrays [ffpoolmetadata_alloc] hands out:
    one page map per page, or [(POOL_SIZE >> 20) * PAGE_SIZE] bytes of
    boundary addresses. *)
Definition PAGEMAP_COUNT : Z := POOL_SIZE / PAGE_SIZE.
Definition BOUNDARY_COUNT : Z := (Z.shiftr POOL_SIZE 20 * PAGE_SIZE) / 8.

Definition create_pagepool (newPool : Z) : M Z :=
  let* poolReserve := os_alloc_highwater POOL_SIZE in
  match poolReserve with
  | None => ret (-1)
  | Some start =>
      let* _ := modify (λ st,
        set_pool newPool
          (mkPool start (wrap64 (start + POOL_SIZE)) start
                  (PageMaps (replicate (Z.to_nat PAGEMAP_COUNT) zero_pagemap))
                  SIZE_MAX start (wrap64 (start + POOL_SIZE))) st) in
      ret 0
  end.

Definition create_largepagepool (newPool : Z) : M Z :=
  let* storage := os_alloc_highwater POOL_SIZE in
  match storage with
  | None => ret (-1)
  | Some start =>
      let* _ := modify (λ st,
        set_pool newPool
          (mkPool start (wrap64 (start + POOL_SIZE)) start
                  (Allocations (zset (replicate (Z.to_nat BOUNDARY_COUNT) 0) 0 start))
                  (nextFreeIndex (pool_of st newPool)) start (wrap64 (start + POOL_SIZE))) st) in
      ret 0
  end.

Definition create_jumbopool (newPool : Z) (size : Z) : M Z :=
  let* _ := modify (λ st,
    set_pool newPool
      (set_nextFreeIndex (SIZE_MAX - 1) (set_tracking NoTracking (pool_of st newPool))) st) in
  let size := ALIGN_TO size PAGE_SIZE in
  let* storage := os_alloc_highwater size in
  match storage with
  | None => ret (-1)
  | Some start =>
      let* _ := modify (λ st,
        let p := pool_of st newPool in
        set_pool newPool
          (mkPool start (wrap64 (start + size)) (nextFreePage p) (tracking p)
                  (nextFreeIndex p) (startInUse p) (endInUse p)) st) in
      ret 0
  end.

(** ** The allocator proper, for either alignment build *)

Section Build.

(** [true] when the library is compiled with [FF_EIGHTBYTEALIGN]. *)
Variable FF_EIGHTBYTEALIGN : bool.

Definition MIN_ALIGNMENT : Z := if FF_EIGHTBYTEALIGN then 8 else 16.
Definition BIN_COUNT : Z := if FF_EIGHTBYTEALIGN then 45 else 32.
Definition BIN_INFLECTION : Z := if FF_EIGHTBYTEALIGN then 19 else 13.

Definition ALIGN_SIZE (SIZE : Z) : Z :=
  if FF_EIGHTBYTEALIGN then Z.land (wrap64 (SIZE + 7)) (not64 7)
  else if SIZE <=? 8 then 8 else Z.land (wrap64 (SIZE + 15)) (not64 15).

Definition GET_BIN (SIZE : Z) : Z :=
  if FF_EIGHTBYTEALIGN then
    (if SIZE <=? 208 then BIN_COUNT - Z.shiftr SIZE 3 else PAGE_SIZE / SIZE)
  else
    (if SIZE <=? 8 then 0
     else if SIZE <=? 304 then BIN_COUNT - Z.shiftr SIZE 4 else PAGE_SIZE / SIZE).

(** *** Thread cache *)

(** The bin headers [init_tcache] writes: the stride bins from the top
    of the array down, the max-packed bins from index 1 up, and the
    8-byte bin of the 16-byte build. *)
Definition init_bins : list bin_t :=
  let bins0 := replicate (Z.to_nat BIN_COUNT) zero_bin in
  let bins1 :=
    foldl (λ bs b,
             binset bs (BIN_COUNT - b)
               (mkBin 0 (b * MIN_ALIGNMENT) (PAGE_SIZE / (b * MIN_ALIGNMENT))
                      (PAGE_SIZE / (b * MIN_ALIGNMENT)) None))
          bins0 (seqZ 1 (BIN_COUNT - BIN_INFLECTION)) in
  let bins2 :=
    foldl (λ bs b,
             binset bs b
               (mkBin 0 (Z.land (PAGE_SIZE / b) (not64 (MIN_ALIGNMENT - 1))) b b None))
          bins1 (seqZ 1 (BIN_INFLECTION - 1)) in
  if FF_EIGHTBYTEALIGN then bins2
  else binset bins2 0 (mkBin 0 8 (PAGE_SIZE / 8) (PAGE_SIZE / 8) None).

Definition REFILL_BYTES : Z := PAGES_PER_REFILL * PAGE_SIZE.

(** [FFAtomicExchangeAdvancePtr(pool->nextFreePage, ...)]. *)
Definition advance_nextFreePage (h : Z) : M Z := λ st,
  let p := pool_of st h in
  Ok (nextFreePage p)
     (set_pool h (set_nextFreePage (wrap64 (nextFreePage p + REFILL_BYTES)) p) st).

(** The [while] loop of [assign_pages_to_tcache]: a pool without
    [PAGES_PER_REFILL] pages left is replaced at the head of the arena's
    small list by a new pool. *)
Fixpoint refill_pool (fuel : nat) (pool nextFreePage : Z) : M (Z * Z) :=
  let* st := get in
  if pool_end (pool_of st pool) <? nextFreePage + REFILL_BYTES then
    match fuel with
    | O => λ _, OutOfFuel
    | S fuel' =>
        let* newPool := ffmetadata_alloc_pool in
        let* r := create_pagepool newPool in
        if r =? -1 then
          let* _ := ffmetadata_free_pool newPool in
          abort ""
        else
          let* _ := add_pool_to_tree newPool in
          let* _ := modify (λ st,
            let a := arena0 st in
            set_arena0 (mkArena (newPool :: smallPoolList a) (largePoolList a)
                                (jumboPoolList a)) st) in
          let* next := advance_nextFreePage newPool in
          refill_pool fuel' newPool next
    end
  else ret (pool, nextFreePage).

(** The page maps of the refill: their [start] fields. *)
Definition stamp_pages (pms : list pagemap_t) (index nextFreePage : Z) : list pagemap_t :=
  foldl (λ l i,
           let pm := pmget l (index + i) in
           pmset l (index + i)
             (mkPagemap (wrap64 (nextFreePage + i * PAGE_SIZE)) (page_allocSize pm)
                        (page_bitmap pm)))
        pms (seqZ 0 PAGES_PER_REFILL).

Definition assign_pages_to_tcache (tbins : list bin_t) : M threadcache_t :=
  let* st := get in
  match smallPoolList (arena0 st) with
  | [] => trap_with NullDeref
  | pool :: _ =>
      let* nextFreePage := advance_nextFreePage pool in
      let* pn := refill_pool 2 pool nextFreePage in
      let pool := pn.1 in
      let nextFreePage := pn.2 in
      let* st := get in
      let index := (nextFreePage - pool_start (pool_of st pool)) / PAGE_SIZE in
      let* _ := modify (λ st,
        let p := pool_of st pool in
        set_pool pool
          (set_tracking (PageMaps (stamp_pages (pagemaps p) index nextFreePage)) p) st) in
      ret (mkTcache tbins pool index (index + PAGES_PER_REFILL))
  end.

(** [get_threadcache] for the calling thread and the default arena;
    the cache is built by [init_tcache] on first use. *)
Definition get_threadcache : M threadcache_t :=
  let* st := get in
  match tcache0 st with
  | Some tc => ret tc
  | None =>
      let* tc := assign_pages_to_tcache init_bins in
      let* _ := modify (set_tcache0 (Some tc)) in
      ret tc
  end.

(** *** Small allocations *)

Definition bitmap_words (maxAlloc : Z) : Z :=
  if Z.land maxAlloc 63 =? 0 then Z.shiftr maxAlloc 6 else Z.shiftr maxAlloc 6 + 1.

(** [FFAtomicOr] on the slot's bit. *)
Definition bitmap_set (maxAlloc index : Z) (b : bitmap_t) : bitmap_t :=
  if maxAlloc <=? 64 then
    match b with
    | BmSingle w => BmSingle (Z.lor w (Z.shiftl 1 index))
    | BmArray a => BmArray a
    end
  else
    match b with
    | BmArray a =>
        BmArray (zset a (Z.shiftr index 6)
                   (Z.lor (zget a (Z.shiftr index 6)) (Z.shiftl 1 (Z.land index 63))))
    | BmSingle w => BmSingle w
    end.

(** The first half of [ffmalloc_small], taken when the bin is full or
    was never used: the bin gets the next blank page of the cache, after
    a refill of the cache when it has none left. *)
Definition refill_bin (tcache : threadcache_t) (bin : bin_t) : M (threadcache_t * bin_t) :=
  let* tcache :=
    if endUnusedPage tcache <=? nextUnusedPage tcache
    then assign_pages_to_tcache (bins tcache)
    else ret tcache in
  let page := (unusedPool tcache, nextUnusedPage tcache) in
  let* _ := modify (λ st,
    let pm := get_page st page in
    set_page page
      (mkPagemap (page_start pm) (bin_allocSize bin)
         (if 64 <? maxAlloc bin
          then BmArray (replicate (Z.to_nat (bitmap_words (maxAlloc bin))) 0)
          else page_bitmap pm)) st) in
  let* st := get in
  ret (mkTcache (bins tcache) (unusedPool tcache) (nextUnusedPage tcache + 1)
                (endUnusedPage tcache),
       mkBin (page_start (get_page st page)) (bin_allocSize bin) 0 (maxAlloc bin)
             (Some page)).

(** The second half of [ffmalloc_small]: the next slot of the bin's
    page is marked in the bitmap and handed out. *)
Definition take_slot (b : Z) (tcache : threadcache_t) (bin : bin_t) : M Z :=
  match bin_page bin with
  | None => trap_with NullDeref
  | Some page =>
      (* Mark the next allocation on the page as in use on the bitmap *)
      let* _ := modify (λ st,
        let pm := get_page st page in
        set_page page
          (mkPagemap (page_start pm) (page_allocSize pm)
                     (bitmap_set (maxAlloc bin) (allocCount bin) (page_bitmap pm))) st) in
      let thisAlloc := nextAlloc bin in
      let bin := mkBin (wrap64 (nextAlloc bin + bin_allocSize bin)) (bin_allocSize bin)
                       (allocCount bin + 1) (maxAlloc bin) (bin_page bin) in
      (* Mark the page as full if so *)
      let* _ :=
        if allocCount bin =? maxAlloc bin then
          modify (λ st,
            let pm := get_page st page in
            set_page page
              (mkPagemap (page_start pm) (Z.lor (page_allocSize pm) 4) (page_bitmap pm)) st)
        else ret tt in
      let* _ := modify (set_tcache0
        (Some (mkTcache (binset (bins tcache) b bin) (unusedPool tcache)
                        (nextUnusedPage tcache) (endUnusedPage tcache)))) in
      ret thisAlloc
  end.

(** Actual implementation of malloc for small sizes. *)
Definition ffmalloc_small (size : Z) : M Z :=
  let* tcache := get_threadcache in
  let b := GET_BIN size in
  let bin := binget (bins tcache) b in
  (* If the bin is full or first allocation then get a new page *)
  let* tb :=
    if allocCount bin =? maxAlloc bin then refill_bin tcache bin
    else ret (tcache, bin) in
  take_slot b tb.1 tb.2.

(** *** Large allocations *)

(** A 64-bit value read as [ptrdiff_t]. *)
Definition to_signed (x : Z) : Z := if x <? 2^63 then x else x - 2^64.

(** Unsigned division and remainder; the divide instruction traps on a
    zero divisor. *)
Definition udiv (a b : Z) : M Z :=
  if b =? 0 then trap_with DivideError else ret (a / b).
Definition umod (a b : Z) : M Z :=
  if b =? 0 then trap_with DivideError else ret (a mod b).

Definition ffmalloc_large_from_pool (size alignment : Z) (h : Z) : M Z := λ st,
  let p := pool_of st h in
  let alignedNext := ALIGN_TO (nextFreePage p) alignment in
  let nextFree := wrap64 (alignedNext + size) in
  let arr := allocs p in
  let arr := if MIN_ALIGNMENT <? alignment
             then zset arr (nextFreeIndex p) alignedNext else arr in
  let index := wrap64 (nextFreeIndex p + 1) in
  let arr := zset arr index nextFree in
  (* the remaining space goes to this allocation when it is too small
     for another large one *)
  let slack := to_signed (wrap64 (pool_end p - nextFree)) <? HALF_PAGE + MIN_ALIGNMENT in
  let arr := if slack then zset arr index (pool_end p) else arr in
  let nextFree := if slack then pool_end p else nextFree in
  Ok alignedNext
     (set_pool h
        (mkPool (pool_start p) (pool_end p) nextFree (Allocations arr) index
                (startInUse p) (endInUse p)) st).

(** [munmap] as the free paths use it: [true] when the caller carries
    on, [false] when it returns early because the kernel ran out of VMAs;
    any other failure aborts. *)
Definition decommit_or_abort (msg : string) (startAddr size : Z) : M bool :=
  let* r := os_decommit startAddr size in
  if r =? -1 then
    let* st := get in
    if errno st =? ENOMEM then ret false else abort msg
  else ret true.

(** Destroys a page pool returning all memory to the OS.  The tracking
    arrays go back to the metadata heap; the descriptor itself stays. *)
Definition destroy_pool (h : Z) : M unit :=
  let* st := get in
  let* r := os_free (pool_start (pool_of st h)) in
  if negb (r =? 0) then abort ""
  else remove_pool_from_tree h.

Fixpoint scan_first_free (fuel : nat) (arr : list Z) (firstFreeIndex : Z) : Z :=
  match fuel with
  | O => firstFreeIndex
  | S fuel' =>
      if (0 <? firstFreeIndex) && (Z.land (zget arr (firstFreeIndex - 1)) 3 =? 1)
      then scan_first_free fuel' arr (firstFreeIndex - 1)
      else firstFreeIndex
  end.

Fixpoint scan_last_free (fuel : nat) (arr : list Z) (nfi lastFreeIndex : Z) : Z :=
  match fuel with
  | O => lastFreeIndex
  | S fuel' =>
      if (lastFreeIndex <? nfi) && (Z.land (zget arr (lastFreeIndex + 1)) 3 =? 1)
      then scan_last_free fuel' arr nfi (lastFreeIndex + 1)
      else lastFreeIndex
  end.

Fixpoint scan_cont_free (fuel : nat) (arr : list Z) (nfi contFreeIndex : Z) : Z :=
  match fuel with
  | O => contFreeIndex
  | S fuel' =>
      if (contFreeIndex <? nfi) && negb (Z.land (zget arr (contFreeIndex + 1)) 2 =? 0)
      then scan_cont_free fuel' arr nfi (contFreeIndex + 1)
      else contFreeIndex
  end.

(** [allocations[i] |= bits] for [i] from [first] to [last]. *)
Definition mark_range (arr : list Z) (first last bits : Z) : list Z :=
  foldl (λ l i, zset l i (Z.lor (zget l i) bits)) arr (seqZ first (last - first + 1)).

Definition free_large_pointer (h index size : Z) : M unit :=
  (* Mark the allocation as freed in the metadata *)
  let* _ := modify (λ st,
    let arr := allocs (pool_of st h) in
    set_allocs h (zset arr index (Z.lor (zget arr index) 1)) st) in
  let* st := get in
  let p := pool_of st h in
  let arr := allocs p in
  let nfi := nextFreeIndex p in
  let firstFreeIndex := scan_first_free (Z.to_nat index) arr index in
  let startFreeAddr := Z.land (zget arr firstFreeIndex) (not64 3) in
  let prevUnmapped := negb (Z.land (zget arr (firstFreeIndex - 1)) 2 =? 0) in
  let sl :=
    if negb (Z.land startFreeAddr (PAGE_SIZE - 1) =? 0) then
      if prevUnmapped then (Z.land startFreeAddr (not64 (PAGE_SIZE - 1)), 1)
      else (Z.land (wrap64 (startFreeAddr + PAGE_SIZE)) (not64 (PAGE_SIZE - 1)), 0)
    else if (firstFreeIndex =? 0) || prevUnmapped then (startFreeAddr, 1)
    else (startFreeAddr, 0) in
  let startFreeAddr := sl.1 in
  let leftIsFreed := sl.2 in
  let lastFreeIndex := scan_last_free (Z.to_nat (nfi - index)) arr nfi index in
  let endFreeAddr := Z.land (zget arr (lastFreeIndex + 1)) (not64 7) in
  if endFreeAddr =? 0 then abort "endFreeAddr == 0 test 1"
  else
    let nextUnmapped := negb (Z.land (zget arr (lastFreeIndex + 1)) 2 =? 0) in
    let offPage := negb (Z.land endFreeAddr (PAGE_SIZE - 1) =? 0) in
    let er :=
      if offPage then
        if nextUnmapped
        then (Z.land (wrap64 (endFreeAddr + PAGE_SIZE)) (not64 (PAGE_SIZE - 1)), 1)
        else (Z.land endFreeAddr (not64 (PAGE_SIZE - 1)), 0)
      else if (pool_end p <=? endFreeAddr) || nextUnmapped then (endFreeAddr, 1)
      else (endFreeAddr, 0) in
    let endFreeAddr := er.1 in
    let rightIsFreed := er.2 in
    (* the second test sits in the branch that rounds the end up *)
    if offPage && nextUnmapped && (endFreeAddr =? 0) then abort "endFreeAddr == 0 test 2"
    else
      let p :=
        if startFreeAddr <=? startInUse p then
          if endFreeAddr <? pool_end p then
            let contFreeIndex :=
              scan_cont_free (Z.to_nat (nfi - lastFreeIndex)) arr nfi lastFreeIndex in
            set_startInUse (Z.land (zget arr (contFreeIndex + 1)) (not64 7)) p
          else set_startInUse (pool_end p) p
        else p in
      let* _ := modify (set_pool h p) in
      if (endInUse p <=? startInUse p) && (wrap64 (pool_end p + 4) <=? zget arr nfi) then
        (* The whole pool is now empty, destroy it *)
        destroy_pool h
      else if startFreeAddr <? endFreeAddr then
        if (PAGE_SIZE * MIN_PAGES_TO_FREE <=? endFreeAddr - startFreeAddr)
           || (negb (leftIsFreed =? 0) && negb (rightIsFreed =? 0)) then
          let* go := decommit_or_abort "Large pool decommit fail: %d, %p size: %ld"
                       startFreeAddr (endFreeAddr - startFreeAddr) in
          if go then
            (* Lastly, mark all the pointers as unmapped *)
            modify (λ st,
              set_allocs h (mark_range (allocs (pool_of st h)) firstFreeIndex lastFreeIndex 3) st)
          else ret tt
        else ret tt
      else ret tt.

(** Release any remaining unallocated space in the pool when the pool is
    being removed from the active allocation list. *)
Definition trim_large_pool (h : Z) : M unit :=
  let* st := get in
  let p := pool_of st h in
  let arr := allocs p in
  let* _ :=
    if zget arr (nextFreeIndex p) <? pool_end p then
      let remainingSize := wrap64 (pool_end p - zget arr (nextFreeIndex p)) in
      let index := wrap64 (nextFreeIndex p + 1) in
      let* _ := modify (set_pool h
        (mkPool (pool_start p) (pool_end p) (pool_end p)
                (Allocations (zset arr index (pool_end p))) index
                (startInUse p) (endInUse p))) in
      free_large_pointer h (index - 1) remainingSize
    else ret tt in
  (* Mark the pool as no longer being allocated from *)
  let* _ := modify (λ st,
    let p := pool_of st h in
    let arr := allocs p in
    set_allocs h (zset arr (nextFreeIndex p) (Z.lor (zget arr (nextFreeIndex p)) 4)) st) in
  let* st := get in
  if endInUse (pool_of st h) <=? startInUse (pool_of st h) then destroy_pool h
  else ret tt.

Definition get_large_list_index : M Z := λ st,
  Ok (if cpu (os st) <? 0 then 0 else cpu (os st) mod MAX_LARGE_LISTS) st.

Definition pool_fits (st : State) (size alignment h : Z) : bool :=
  wrap64 (ALIGN_TO (nextFreePage (pool_of st h)) alignment + size)
    <=? pool_end (pool_of st h).

(** The walk over the pools of the list: the first pool with room, and
    the number of pools passed over. *)
Fixpoint large_scan (st : State) (size alignment : Z) (nodes : list Z) (loopCount : Z)
  : option Z * Z :=
  match nodes with
  | [] => (None, loopCount)
  | h :: rest =>
      if pool_fits st size alignment h then (Some h, loopCount)
      else large_scan st size alignment rest (loopCount + 1)
  end.

Definition large_list (st : State) (listId : Z) : list Z :=
  default [] (largePoolList (arena0 st) !! Z.to_nat listId).

Definition set_large_list (listId : Z) (l : list Z) (st : State) : State :=
  let a := arena0 st in
  set_arena0 (mkArena (smallPoolList a) (<[Z.to_nat listId := l]> (largePoolList a))
                      (jumboPoolList a)) st.

(** Finds a suitable large pool to allocate from, or creates a new pool
    if necessary.  In the sequential model the check under the pool lock
    repeats the check before it, and no pool appears while the list lock
    is awaited. *)
Definition ffmalloc_large (size alignment : Z) : M Z :=
  let* listId := get_large_list_index in
  let* st := get in
  match large_list st listId with
  | [] => trap_with NullDeref
  | nodes =>
      match large_scan st size alignment nodes 0 with
      | (Some h, _) => ffmalloc_large_from_pool size alignment h
      | (None, loopCount) =>
          let* pool := ffmetadata_alloc_pool in
          let* r := create_largepagepool pool in
          if r =? -1 then
            let* _ := ffmetadata_free_pool pool in
            ret 0
          else
            let* _ := add_pool_to_tree pool in
            let* allocation := ffmalloc_large_from_pool size alignment pool in
            let* _ := modify (λ st,
              set_large_list listId (large_list st listId ++ [pool]) st) in
            let* _ :=
              if MAX_POOLS_PER_LIST <=? loopCount then
                let* st := get in
                match large_list st listId with
                | [] => trap_with NullDeref
                | node :: rest =>
                    let* _ := modify (set_large_list listId rest) in
                    trim_large_pool node
                end
              else ret tt in
            ret allocation
      end
  end.

(** *** Jumbo allocations *)

Definition ffmalloc_jumbo (size : Z) : M Z :=
  let* jumboPool := ffmetadata_alloc_pool in
  let* r := create_jumbopool jumboPool size in
  if r =? -1 then
    let* _ := ffmetadata_free_pool jumboPool in
    let* _ := modify (set_errno ENOMEM) in
    ret 0
  else
    let* _ := add_pool_to_tree jumboPool in
    let* _ := modify (λ st,
      let a := arena0 st in
      set_arena0 (mkArena (smallPoolList a) (largePoolList a)
                          (jumboPool :: jumboPoolList a)) st) in
    let* st := get in
    ret (pool_start (pool_of st jumboPool)).

(** *** Search functions *)

Definition bm_single (b : bitmap_t) : Z :=
  match b with BmSingle w => w | BmArray _ => 0 end.
Definition bm_array (b : bitmap_t) : list Z :=
  match b with BmArray a => a | BmSingle _ => [] end.

(** [find_small_ptr]: the slot index (negative on failure) and the page
    map of the pointer. *)
Definition find_small_ptr (ptr pool : Z) : M (Z * pagemap_ptr) :=
  let* st := get in
  let p := pool_of st pool in
  let mapIndex := wrap64 (ptr - pool_start p) / PAGE_SIZE in
  let pageMap := (pool, mapIndex) in
  let page := get_page st pageMap in
  let* index := udiv (wrap64 (ptr - page_start page))
                     (Z.land (page_allocSize page) (not64 7)) in
  let* rest := umod (wrap64 (ptr - page_start page))
                    (Z.land (page_allocSize page) (not64 7)) in
  if negb (rest =? 0) then ret (-2, pageMap)
  else if page_allocSize page <? 64 then
    let array := Z.shiftr index 6 in
    let pos := index - Z.shiftl array 6 in
    if Z.land (zget (bm_array (page_bitmap page)) array) (Z.shiftl 1 pos) =? 0
    then ret (-1, pageMap)
    else ret (to_signed index, pageMap)
  else
    if Z.land (bm_single (page_bitmap page)) (Z.shiftl 1 index) =? 0
    then ret (-3, pageMap)
    else ret (to_signed index, pageMap).

(** The binary search of [find_large_ptr]; [None] when the fuel runs
    out before [left] meets [right]. *)
Fixpoint find_large_loop (fuel : nat) (arr : list Z) (nfi ptr left right current : Z)
  : option (Z * Z) :=
  match fuel with
  | O => None
  | S fuel' =>
      if left =? right then Some (0, 0)
      else if zget arr current =? ptr then
        if current =? nfi then Some (0, 0)
        else Some (wrap64 (Z.land (zget arr (current + 1)) (not64 7) - zget arr current),
                   current)
      else if ptr <? zget arr current then
        find_large_loop fuel' arr nfi ptr left current (left + (current - left) / 2)
      else
        find_large_loop fuel' arr nfi ptr (current + 1) right
                        (current + 1 + (right - (current + 1)) / 2)
  end.

(** [find_large_ptr]: the size of the allocation (0 when not found) and
    its index in the metadata array. *)
Definition find_large_ptr (ptr pool : Z) : M (Z * Z) := λ st,
  let p := pool_of st pool in
  match find_large_loop 65 (allocs p) (nextFreeIndex p) ptr 0 (nextFreeIndex p)
          ((nextFreeIndex p - 0) / 2) with
  | Some r => Ok r st
  | None => OutOfFuel
  end.

(** *** Free helper functions *)

Definition page_flags (pms : list pagemap_t) (i : Z) : Z :=
  Z.land (page_allocSize (pmget pms i)) 7.

Fixpoint scan_pages_left (fuel : nat) (pms : list pagemap_t) (poolStart : Z)
    (currentPage startAddress leftmostPage : Z) : Z * Z * Z :=
  match fuel with
  | O => (startAddress, leftmostPage, 0)
  | S fuel' =>
      if poolStart <? startAddress then
        if page_flags pms (currentPage - 1) =? 5 then
          scan_pages_left fuel' pms poolStart (currentPage - 1)
            (startAddress - PAGE_SIZE) (currentPage - 1)
        else if page_flags pms (currentPage - 1) =? 7 then (startAddress, leftmostPage, 1)
        else (startAddress, leftmostPage, 0)
      else (startAddress, leftmostPage, 0)
  end.

Fixpoint scan_pages_right (fuel : nat) (pms : list pagemap_t) (poolEnd : Z)
    (currentPage endAddress rightmostPage : Z) : Z * Z * Z :=
  match fuel with
  | O => (endAddress, rightmostPage, 0)
  | S fuel' =>
      if endAddress <? poolEnd then
        if page_flags pms (currentPage + 1) =? 5 then
          scan_pages_right fuel' pms poolEnd (currentPage + 1)
            (endAddress + PAGE_SIZE) (currentPage + 1)
        else if page_flags pms (currentPage + 1) =? 7 then (endAddress, rightmostPage, 1)
        else (endAddress, rightmostPage, 0)
      else (endAddress, rightmostPage, 0)
  end.

(** The two loops of [free_page] that move [startInUse] forward and
    [endInUse] backward over released pages. *)
Fixpoint skip_released_up (fuel : nat) (pms : list pagemap_t) (p : pagepool_t)
    (currentPage : Z) : Z :=
  match fuel with
  | O => currentPage
  | S fuel' =>
      let pm := pmget pms currentPage in
      if negb (Z.land (page_allocSize pm) 2 =? 0)
         && (page_start pm <? endInUse p)
         && (wrap64 (page_start pm + PAGE_SIZE) <? pool_end p)
      then skip_released_up fuel' pms p (currentPage + 1)
      else currentPage
  end.

Fixpoint skip_released_down (fuel : nat) (pms : list pagemap_t) (p : pagepool_t)
    (currentPage : Z) : Z :=
  match fuel with
  | O => currentPage
  | S fuel' =>
      let pm := pmget pms currentPage in
      if negb (Z.land (page_allocSize pm) 2 =? 0)
         && (startInUse p <=? page_start pm)
         && (pool_start p <? page_start pm)
      then
        if page_start (pmget pms (currentPage - 1)) =? 0 then currentPage - 1
        else skip_released_down fuel' pms p (currentPage - 1)
      else currentPage
  end.

Definition PAGE_FUEL : nat := Z.to_nat PAGEMAP_COUNT.

(** Helper function to return a small pool page back to the OS. *)
Definition free_page (pool : Z) (pageMap : Z) : M unit :=
  let* st := get in
  let p := pool_of st pool in
  let pms := pagemaps p in
  let startAddress := page_start (pmget pms pageMap) in
  let endAddress := wrap64 (startAddress + PAGE_SIZE) in
  let '(startAddress, leftmostPage, leftIsFreed) :=
    scan_pages_left PAGE_FUEL pms (pool_start p) pageMap startAddress pageMap in
  let leftIsFreed := if startAddress =? pool_start p then leftIsFreed + 1 else leftIsFreed in
  let '(endAddress, rightmostPage, rightIsFreed) :=
    scan_pages_right PAGE_FUEL pms (pool_end p) pageMap endAddress pageMap in
  let rightIsFreed := if endAddress =? pool_end p then rightIsFreed + 1 else rightIsFreed in
  if (PAGE_SIZE * MIN_PAGES_TO_FREE <=? to_signed (wrap64 (endAddress - startAddress)))
     || (negb (leftIsFreed =? 0) && negb (rightIsFreed =? 0)) then
    let* go := decommit_or_abort "Error: %d Couldn't unmap %p to %p"
                 startAddress (wrap64 (endAddress - startAddress)) in
    if go then
      (* Mark all of the pages as returned to the OS *)
      let pms :=
        foldl (λ l i,
                 let pm := pmget l i in
                 pmset l i (mkPagemap (page_start pm) (Z.lor (page_allocSize pm) 2)
                                      (page_bitmap pm)))
              pms (seqZ leftmostPage (rightmostPage - leftmostPage + 1)) in
      let p := set_tracking (PageMaps pms) p in
      let p :=
        if startAddress <=? startInUse p then
          let currentPage := skip_released_up PAGE_FUEL pms p rightmostPage in
          if pool_start p <? page_start (pmget pms currentPage)
          then set_startInUse (page_start (pmget pms currentPage)) p
          else p
        else p in
      let p :=
        if endInUse p <=? endAddress then
          let currentPage := skip_released_down PAGE_FUEL pms p leftmostPage in
          set_endInUse (wrap64 (page_start (pmget pms currentPage) + PAGE_SIZE)) p
        else p in
      let* _ := modify (set_pool pool p) in
      if endInUse p <=? startInUse p then destroy_pool pool else ret tt
    else ret tt
  else ret tt.

(** [FFAtomicAnd] on the slot's bit. *)
Definition bitmap_clear (allocSize index : Z) (b : bitmap_t) : bitmap_t :=
  if allocSize <? 64 then
    match b with
    | BmArray a =>
        let array := Z.shiftr index 6 in
        let pos := index - Z.shiftl array 6 in
        BmArray (zset a array (Z.land (zget a array) (not64 (Z.shiftl 1 pos))))
    | BmSingle w => BmSingle w
    end
  else
    match b with
    | BmSingle w => BmSingle (Z.land w (not64 (Z.shiftl 1 index)))
    | BmArray a => BmArray a
    end.

(** Helper function to mark a small allocation freed. *)
Definition free_small_ptr (pool : Z) (pageMap : pagemap_ptr) (index : Z) : M unit :=
  let* st := get in
  let pm := get_page st pageMap in
  let pm := mkPagemap (page_start pm) (page_allocSize pm)
                      (bitmap_clear (page_allocSize pm) index (page_bitmap pm)) in
  let* _ := modify (set_page pageMap pm) in
  (* Check if the page can be released to the OS *)
  if negb (Z.land (page_allocSize pm) 4 =? 0) then
    let* drained :=
      if page_allocSize pm <? 64 then
        let* perPage := udiv PAGE_SIZE (Z.land (page_allocSize pm) (not64 7)) in
        let bitmaps := bitmap_words perPage in
        ret (foldl Z.lor 0 (take (Z.to_nat bitmaps) (bm_array (page_bitmap pm))) =? 0)
      else ret (bm_single (page_bitmap pm) =? 0) in
    if drained then
      let* _ := modify (set_page pageMap
        (mkPagemap (page_start pm) (Z.lor (page_allocSize pm) 1) (page_bitmap pm))) in
      free_page pool pageMap.2
    else ret tt
  else ret tt.

(** Frees a jumbo allocation by deleting the associated pool. *)
Definition free_jumbo (pool : Z) : M unit := destroy_pool pool.

(** *** Initialization *)

(** Destroys each pool in a pool list. *)
Fixpoint destroy_pool_list (nodes : list Z) : M unit :=
  match nodes with
  | [] => ret tt
  | h :: rest =>
      let* _ := destroy_pool h in
      destroy_pool_list rest
  end.

(** The loop of [create_arena] that gives every large list its first
    pool; [false] when a pool cannot be created. *)
Fixpoint create_large_lists (n : nat) : M bool :=
  match n with
  | O => ret true
  | S n' =>
      let* pool := ffmetadata_alloc_pool in
      let* r := create_largepagepool pool in
      if r =? -1 then
        let* st := get in
        let* _ := destroy_pool_list (smallPoolList (arena0 st)) in
        ret false
      else
        let* _ := add_pool_to_tree pool in
        let* _ := modify (λ st,
          let a := arena0 st in
          set_arena0 (mkArena (smallPoolList a) (largePoolList a ++ [[pool]])
                              (jumboPoolList a)) st) in
        create_large_lists n'
  end.

(** [create_arena] for the default arena; [true] is [FFSUCCESS]. *)
Definition create_arena : M bool :=
  let* pool := ffmetadata_alloc_pool in
  let* r := create_pagepool pool in
  if negb (r =? 0) then
    let* _ := ffmetadata_free_pool pool in
    ret false
  else
    let* _ := add_pool_to_tree pool in
    let* _ := modify (set_arena0 (mkArena [pool] [] [])) in
    create_large_lists (Z.to_nat MAX_LARGE_LISTS).

(** Performs one-time setup of metadata structures. *)
Definition initialize : M unit :=
  let* _ := modify (set_isInit 2) in
  let* _ := modify (λ st, set_poolHighWater (wrap64 (brk (os st) + 1073741824)) st) in
  let* ok := create_arena in
  if ok then modify (set_isInit 1) else abort "".

(** The prologue of [ffmalloc] and [ffcalloc]. *)
Definition ensure_init : M unit :=
  let* st := get in
  if isInit st =? 2 then abort ""
  else if isInit st =? 0 then initialize
  else ret tt.

(** *** Public API functions *)

(** Replacement for malloc. *)
Definition ffmalloc (size : Z) : M Z :=
  let* _ := ensure_init in
  let size := if size =? 0 then 8 else size in
  if SIZE_MAX - MIN_ALIGNMENT <? size then
    let* _ := modify (set_errno ENOMEM) in
    ret 0
  else
    let size := ALIGN_SIZE size in
    let* allocation :=
      if size <=? HALF_PAGE then ffmalloc_small size
      else if size <? POOL_SIZE - HALF_PAGE then ffmalloc_large size MIN_ALIGNMENT
      else ffmalloc_jumbo size in
    let* _ := if allocation =? 0 then modify (set_errno ENOMEM) else ret tt in
    ret allocation.

(** Replacement for free. *)
Definition fffree (ptr : Z) : M unit :=
  if ptr =? 0 then ret tt
  else
    let* st := get in
    match find_pool_for_ptr st ptr with
    | None => abort "Attempt to free %p but no matching pool"
    | Some pool =>
        if nextFreeIndex (pool_of st pool) <? SIZE_MAX - 1 then
          (* Large allocation *)
          let* si := find_large_ptr ptr pool in
          if si.1 =? 0 then abort "free bad large ptr: %p"
          else free_large_pointer pool si.2 si.1
        else if nextFreeIndex (pool_of st pool) =? SIZE_MAX - 1 then
          (* Jumbo allocation *)
          free_jumbo pool
        else
          (* Small allocation *)
          let* ip := find_small_ptr ptr pool in
          if ip.1 <? 0 then abort "free bad ptr: %p"
          else free_small_ptr pool ip.2 ip.1
    end.

(** [memcpy(dst, src, n)]: the contents of client memory are not
    modelled, a copy to the null page is. *)
Definition memcpy (dst n : Z) : M unit :=
  if (dst =? 0) && (0 <? n) then trap_with NullDeref else ret tt.

(** Replacement for realloc. *)
Definition ffrealloc (ptr size : Z) : M Z :=
  if ptr =? 0 then ffmalloc size
  else if size =? 0 then
    let* _ := fffree ptr in
    ret 0
  else
    let size := ALIGN_SIZE size in
    let* st := get in
    match find_pool_for_ptr st ptr with
    | None => abort "Attempt to realloc %p but no matching pool"
    | Some pool =>
        if nextFreeIndex (pool_of st pool) <? SIZE_MAX - 1 then
          (* Large allocation *)
          let* si := find_large_ptr ptr pool in
          let oldSize := si.1 in
          if oldSize =? 0 then abort "realloc bad large ptr: %p"
          else if size <=? oldSize then ret ptr
          else
            let* temp := ffmalloc size in
            let* _ := memcpy temp oldSize in
            let* _ := free_large_pointer pool si.2 oldSize in
            ret temp
        else if nextFreeIndex (pool_of st pool) =? SIZE_MAX - 1 then
          (* Jumbo allocation - the pool is the allocation *)
          let jumboSize := wrap64 (pool_end (pool_of st pool) - pool_start (pool_of st pool)) in
          if size <=? jumboSize then ret (pool_start (pool_of st pool))
          else
            let* newJumbo := ffmalloc size in
            if newJumbo =? 0 then
              let* _ := modify (set_errno ENOMEM) in
              ret 0
            else
              let* _ := memcpy newJumbo jumboSize in
              let* _ := free_jumbo pool in
              ret newJumbo
        else
          (* Small allocation *)
          let* ip := find_small_ptr ptr pool in
          if ip.1 <? 0 then abort "realloc bad small ptr: %p"
          else
            let* st := get in
            let cls := Z.land (page_allocSize (get_page st ip.2)) (not64 7) in
            if size <=? cls then ret ptr
            else
              let* temp := ffmalloc size in
              let* _ := memcpy temp cls in
              let* _ := free_small_ptr pool ip.2 ip.1 in
              ret temp
    end.

(** Replacement for reallocarray. *)
Definition ffreallocarray (ptr nmemb size : Z) : M Z :=
  let* overflow :=
    if nmemb =? 0 then ret false
    else
      let* q := udiv SIZE_MAX nmemb in
      ret (q <? size) in
  if overflow then
    let* _ := modify (set_errno ENOMEM) in
    ret 0
  else ffrealloc ptr (wrap64 (nmemb * size)).

(** Replacement for calloc. *)
Definition ffcalloc (nmemb size : Z) : M Z :=
  (* Ensure multiplication won't overflow *)
  let* q := udiv SIZE_MAX nmemb in
  if q <? size then ret 0
  else
    let* _ := ensure_init in
    ffmalloc (wrap64 (nmemb * size)).

Definition ffmemalign_internal (alignment size : Z) : M Z :=
  if (size <=? HALF_PAGE) && (alignment <=? HALF_PAGE) then
    if size <=? alignment then ffmalloc_small alignment
    else ffmalloc_small (wrap64 (Z.shiftl 1 (64 - FFCOUNTLEADINGZEROS64 (size - 1))))
  else
    let size := ALIGN_SIZE size in
    if POOL_SIZE <=? size then ffmalloc_jumbo size
    else ffmalloc_large size alignment.


(** Replacement for memalign. *)
Definition ffmemalign (alignment size : Z) : M Z :=
  if (size =? 0) || (SIZE_MAX - PAGE_SIZE <=? size) then ret 0
  else if negb (FFPOPCOUNT64 alignment =? 1) then
    let* _ := modify (set_errno EINVAL) in
    ret 0
  else if alignment <=? 8 then ffmalloc size
  else if (POOL_SIZE <=? wrap64 (size + PAGE_SIZE)) && (PAGE_SIZE <? alignment) then
    let* _ := modify (set_errno EINVAL) in
    ret 0
  else ffmemalign_internal alignment size.

(** Replacement for aligned_alloc. *)
Definition ffaligned_alloc (alignment size : Z) : M Z :=
  if (size =? 0) || (SIZE_MAX - PAGE_SIZE <=? size) then ret 0
  else if (alignment <? 8) || negb (FFPOPCOUNT64 alignment =? 1) then
    let* _ := modify (set_errno EINVAL) in
    ret 0
  else if (size <? alignment) || negb (size mod alignment =? 0) then
    let* _ := modify (set_errno EINVAL) in
    ret 0
  else if (POOL_SIZE <=? wrap64 (size + PAGE_SIZE)) && (PAGE_SIZE <? alignment) then
    let* _ := modify (set_errno EINVAL) in
    ret 0
  else if POOL_SIZE <=? size then ffmalloc_jumbo size
  else if (size <=? HALF_PAGE) && (alignment <=? HALF_PAGE) then
    ffmalloc_small (wrap64 (Z.shiftl 1 (64 - FFCOUNTLEADINGZEROS64 (size - 1))))
  else ffmalloc_large size alignment.

(** Replacement for malloc_usable_size. *)
Definition ffmalloc_usable_size (ptr : Z) : M Z :=
  if ptr =? 0 then ret 0
  else
    let* st := get in
    match find_pool_for_ptr st ptr with
    | None => ret 0
    | Some pool =>
        if nextFreeIndex (pool_of st pool) <? SIZE_MAX - 1 then
          let* si := find_large_ptr ptr pool in
          ret si.1
        else if nextFreeIndex (pool_of st pool) =? SIZE_MAX - 1 then
          ret (wrap64 (pool_end (pool_of st pool) - pool_start (pool_of st pool)))
        else
          let* ip := find_small_ptr ptr pool in
          if ip.1 <? 0 then ret 0
          else
            let* st := get in
            ret (Z.land (page_allocSize (get_page st ip.2)) (not64 7))
    end.

(** *** Deprecated malloc API *)

(** Allocates [size] bytes at a page boundary. *)
Definition valloc (size : Z) : M Z := ffmemalign PAGE_SIZE size.

(** Rounds [size] up to a multiple of [PAGE_SIZE]; the address returned
    is at a page boundary. *)
Definition pvalloc (size : Z) : M Z :=
  if SIZE_MAX - PAGE_SIZE <=? size then ret 0
  else ffmemalign PAGE_SIZE (ALIGN_TO size PAGE_SIZE).

End Build.

(** Gets the number of pools currently active. *)
Definition ffget_pool_count : M Z := λ st, Ok (poolCount st) st.

(** ** Reference states and specification-level notions *)

(** A process before the library is initialised: nothing mapped, the
    program break at [0x555555601000], the thread running on CPU 0. *)
Definition boot : State :=
  mkState 0 0 0 ∅ ∅ 1 (mkArena [] [] []) None (mkOS [] 93824992940032 0) 0.

Definition state_of {A} (r : result A) : State :=
  match r with Ok _ s => s | _ => boot end.

Definition value_of {A} (d : A) (r : result A) : A :=
  match r with Ok a _ => a | _ => d end.

(** The state [initialize] leaves behind in that process. *)
Definition st_init : State := state_of (initialize boot).

(** An entry of a large pool's boundary array without its status bits. *)
Definition boundary (e : Z) : Z := Z.land e (not64 7).

Fixpoint strictly_increasing (l : list Z) : bool :=
  match l with
  | a :: t =>
      match t with
      | b :: _ => (a <? b) && strictly_increasing t
      | [] => true
      end
  | [] => true
  end.

(** Sorted large metadata: [arr[0] < arr[1] < ... < arr[nextFreeIndex]]
    modulo status-bit masking. *)
Definition large_sorted (p : pagepool_t) : bool :=
  strictly_increasing
    (map boundary (take (S (Z.to_nat (nextFreeIndex p))) (allocs p))).

(** * Notions of the specification *)

(** The operations of the monad, unfolded. *)
Ltac munfold :=
  unfold udiv, umod, memcpy in *;
  unfold bind, ret, get, modify, abort, trap_with in *;
  cbv beta in *.

(** ** The highwater loop *)

(** What a call of [os_alloc_highwater] leaves alone. *)
Definition os_frame (st st' : State) : Prop :=
  isInit st' = isInit st ∧ poolCount st' = poolCount st ∧
  poolTree st' = poolTree st ∧ pools st' = pools st ∧
  nextHandle st' = nextHandle st ∧ arena0 st' = arena0 st ∧
  tcache0 st' = tcache0 st ∧ brk (os st') = brk (os st) ∧ cpu (os st') = cpu (os st).

(** The loop of [os_alloc_highwater] after [k] collisions, and at its
    exit. *)
Definition hw_loop_inv (size : Z) (st : State) (sl : State * Z) : Prop :=
  os_frame st sl.1 ∧
  ∃ k, 0 ≤ k ∧ poolHighWater sl.1 = wrap64 (poolHighWater st + size + k * POOL_SIZE).

Definition hw_loop_post (size : Z) (st : State) (rs : option Z * State) : Prop :=
  os_frame st rs.2 ∧
  (∃ k, 0 ≤ k ∧ poolHighWater rs.2 = wrap64 (poolHighWater st + size + k * POOL_SIZE)) ∧
  (∀ a, rs.1 = Some a →
     a mod PAGE_SIZE = 0 ∧ MMAP_MIN_ADDR ≤ a ∧ a + size ≤ TASK_SIZE ∧ size ≠ 0).

(** ** Live allocations *)

(** An entry of a boundary array is live when its status bits are
    clear; a pointer matches it when it is the address the entry
    stores. *)
Definition live_boundary (ptr e : Z) : bool :=
  (Z.land e 7 =? 0) && (e =? ptr).

(** Some entry below [nextFreeIndex] is live and stores [ptr]. *)
Definition matches_live_entry (p : pagepool_t) (ptr : Z) : bool :=
  existsb (live_boundary ptr) (take (Z.to_nat (nextFreeIndex p)) (allocs p)).

(** The three kinds of pool. *)
Inductive pool_kind := SmallPool | LargePool | JumboPool.

(** The kind of a pool, as [fffree], [ffrealloc] and
    [ffmalloc_usable_size] read it off [nextFreeIndex]. *)
Definition kind_of (p : pagepool_t) : pool_kind :=
  if nextFreeIndex p <? SIZE_MAX - 1 then LargePool
  else if nextFreeIndex p =? SIZE_MAX - 1 then JumboPool
  else SmallPool.

(** The bit of slot [index] in the bitmap of a page. *)
Definition slot_bit (pm : pagemap_t) (index : Z) : bool :=
  if page_allocSize pm <? 64
  then Z.testbit (zget (bm_array (page_bitmap pm)) (index / 64)) (index mod 64)
  else Z.testbit (bm_single (page_bitmap pm)) index.

(** The page map a pointer into small pool [h] falls on. *)
Definition page_of (st : State) (h ptr : Z) : pagemap_t :=
  get_page st (h, wrap64 (ptr - pool_start (pool_of st h)) / PAGE_SIZE).

(** [ptr] is a slot of class size [cls] on its page. *)
Definition small_slot (st : State) (h ptr cls : Z) : Prop :=
  kind_of (pool_of st h) = SmallPool ∧
  cls = Z.land (page_allocSize (page_of st h ptr)) (not64 7) ∧
  cls ≠ 0 ∧
  wrap64 (ptr - page_start (page_of st h ptr)) mod cls = 0.

(** The index of the slot on its page. *)
Definition slot_index (st : State) (h ptr cls : Z) : Z :=
  wrap64 (ptr - page_start (page_of st h ptr)) / cls.

(** A live small allocation: a slot whose bit is set. *)
Definition live_small (st : State) (h ptr cls : Z) : Prop :=
  small_slot st h ptr cls ∧
  slot_bit (page_of st h ptr) (slot_index st h ptr cls) = true.

(** The boundary array of a large pool is in order and inside its
    metadata block. *)
Definition words_ok (l : list Z) : bool :=
  forallb (λ e, (0 <=? e) && (e <? 2^64)) l.

Definition large_wf (p : pagepool_t) : Prop :=
  kind_of p = LargePool ∧
  0 ≤ nextFreeIndex p < Z.of_nat (length (allocs p)) ∧
  words_ok (allocs p) = true ∧
  large_sorted p = true.

(** A live large allocation: entry [i] stores [ptr] with clear status
    bits; its size is the difference to the next boundary. *)
Definition live_large (st : State) (h ptr cur : Z) : Prop :=
  let p := pool_of st h in
  large_wf p ∧
  ∃ i, 0 ≤ i < nextFreeIndex p ∧
       live_boundary ptr (zget (allocs p) i) = true ∧
       cur = wrap64 (boundary (zget (allocs p) (i + 1)) - ptr) ∧
       cur ≠ 0.

(** A live jumbo allocation is the start of its pool. *)
Definition live_jumbo (st : State) (h ptr cur : Z) : Prop :=
  let p := pool_of st h in
  kind_of p = JumboPool ∧ ptr = pool_start p ∧
  cur = wrap64 (pool_end p - pool_start p).

(** [ptr] is a live allocation whose current class, slot or pool size
    is [cur]. *)
Definition live_allocation (st : State) (ptr cur : Z) : Prop :=
  ∃ h, find_pool_for_ptr st ptr = Some h ∧
       (live_small st h ptr cur ∨ live_large st h ptr cur ∨ live_jumbo st h ptr cur).

(** ** The registry *)

(** Two addresses select the same leaf slot of the radix tree. *)
Definition same_prefix (q ptr : Z) : Prop :=
  stem_index q = stem_index ptr ∧ leaf_index q = leaf_index ptr ∧
  pool_index q = pool_index ptr.

#[local] Instance same_prefix_dec q ptr : Decision (same_prefix q ptr).
Proof. unfold same_prefix. apply _. Defined.

(** Projections of a state or a descriptor out of a store to it. *)
Ltac st_simpl :=
  cbn [isInit poolCount poolHighWater poolTree pools nextHandle arena0 tcache0 os errno
       set_isInit set_poolCount set_poolHighWater set_poolTree set_pools set_nextHandle
       set_arena0 set_tcache0 set_os set_errno set_pool
       smallPoolList largePoolList jumboPoolList
       pool_start pool_end nextFreePage tracking nextFreeIndex startInUse endInUse
       set_nextFreePage set_tracking set_nextFreeIndex set_startInUse set_endInUse
       zero_pool fst snd] in *.

(** ** Entry points *)

(** The epilogue of [ffmalloc]: [errno] is set when the helper
    returned NULL. *)
Definition with_enomem (m : M Z) : M Z :=
  let* allocation := m in
  let* _ := if allocation =? 0 then modify (set_errno ENOMEM) else ret tt in
  ret allocation.

(** The argument checks of [ffaligned_alloc] all pass. *)
Definition aligned_alloc_args_ok (alignment size : Z) : bool :=
  negb ((size =? 0) || (SIZE_MAX - PAGE_SIZE <=? size))
  && negb ((alignment <? 8) || negb (FFPOPCOUNT64 alignment =? 1))
  && negb ((size <? alignment) || negb (size mod alignment =? 0))
  && negb ((POOL_SIZE <=? wrap64 (size + PAGE_SIZE)) && (PAGE_SIZE <? alignment)).

(** ** Where the highwater loop maps *)

(** The address the loop tries next is not below the mark it started
    from, and the mark is the size, or [POOL_SIZE], above it. *)
Definition hw_above_inv (size hw0 : Z) (sl : State * Z) : Prop :=
  hw0 ≤ sl.2 ∧
  (poolHighWater sl.1 = wrap64 (sl.2 + size) ∨
   poolHighWater sl.1 = wrap64 (sl.2 + POOL_SIZE)).

Definition hw_above_post (size hw0 : Z) (rs : option Z * State) : Prop :=
  ∀ a, rs.1 = Some a →
    hw0 ≤ a ∧ (poolHighWater rs.2 = a + size ∨ poolHighWater rs.2 = a + POOL_SIZE).

(** ** The state the small path relies on *)

(** The bitmap of a page with [maxAlloc] slots: one word up to 64
    slots, an array of words above. *)
Definition bitmap_shape (maxAlloc : Z) (bm : bitmap_t) : Prop :=
  match bm with
  | BmSingle _ => maxAlloc ≤ 64
  | BmArray a => 64 < maxAlloc ∧ bitmap_words maxAlloc ≤ Z.of_nat (length a)
  end.

(** What the bin headers of [init_tcache] satisfy: the class size is a
    multiple of 8, the slots of a page fit the page, and the class is
    below 64 bytes exactly when the page has more than 64 slots. *)
Definition class_ok (cls maxAlloc : Z) : bool :=
  (8 <=? cls) && (cls mod 8 =? 0) && (0 <? maxAlloc) && (maxAlloc * cls <=? PAGE_SIZE)
  && Bool.eqb (64 <? maxAlloc) (cls <? 64).

(** Every address of the pool resolves to the pool. *)
Definition registered (st : State) (h : Z) : Prop :=
  ∀ ptr, pool_start (pool_of st h) ≤ ptr < pool_end (pool_of st h) →
         find_pool_for_ptr st ptr = Some h.

(** A small pool: [POOL_SIZE] bytes from a page boundary, one page map
    per page, known to the registry. *)
Definition small_pool_ok (st : State) (h : Z) : Prop :=
  let p := pool_of st h in
  kind_of p = SmallPool ∧
  length (pagemaps p) = Z.to_nat PAGEMAP_COUNT ∧
  0 < pool_start p ∧ pool_start p mod PAGE_SIZE = 0 ∧
  pool_end p = pool_start p + POOL_SIZE ∧ pool_end p < 2^64 ∧
  registered st h.

(** A bin with a page in use: the page is page [i] of a small pool,
    carries the class of the bin, and [nextAlloc] is its next slot. *)
Definition bin_ready (st : State) (bin : bin_t) : Prop :=
  ∃ h i, bin_page bin = Some (h, i) ∧ small_pool_ok st h ∧ 0 ≤ i < PAGEMAP_COUNT ∧
    page_start (get_page st (h, i)) = pool_start (pool_of st h) + i * PAGE_SIZE ∧
    page_allocSize (get_page st (h, i)) = bin_allocSize bin ∧
    bitmap_shape (maxAlloc bin) (page_bitmap (get_page st (h, i))) ∧
    0 ≤ allocCount bin < maxAlloc bin ∧
    nextAlloc bin
    = page_start (get_page st (h, i)) + allocCount bin * bin_allocSize bin.

(** The address is slot [k] of a page-aligned page of class [cls]. *)
Definition slot_address (p cls maxAlloc : Z) : Prop :=
  ∃ ps k, p = ps + k * cls ∧ ps mod PAGE_SIZE = 0 ∧ 0 ≤ k < maxAlloc.

(** The pages of pool [h] from index [j] on were never handed to a bin. *)
Definition fresh_from (st : State) (h j : Z) : Prop :=
  ∀ i, j ≤ i < PAGEMAP_COUNT → ∃ w, page_bitmap (get_page st (h, i)) = BmSingle w.

(** The head of the arena's small list is a small pool whose
    [nextFreePage] is one of its page boundaries. *)
Definition head_ok (st : State) : Prop :=
  ∃ h rest j, smallPoolList (arena0 st) = h :: rest ∧ small_pool_ok st h ∧
    0 ≤ j ≤ PAGEMAP_COUNT ∧
    nextFreePage (pool_of st h) = pool_start (pool_of st h) + j * PAGE_SIZE ∧
    fresh_from st h j.

(** The blank pages a thread cache holds in reserve are stamped with
    their addresses. *)
Definition reserve_ok (st : State) (tc : threadcache_t) : Prop :=
  nextUnusedPage tc < endUnusedPage tc →
  small_pool_ok st (unusedPool tc) ∧
  0 ≤ nextUnusedPage tc ∧ endUnusedPage tc ≤ PAGEMAP_COUNT ∧
  ∀ i, nextUnusedPage tc ≤ i < endUnusedPage tc →
    page_start (get_page st (unusedPool tc, i))
    = pool_start (pool_of st (unusedPool tc)) + i * PAGE_SIZE ∧
    ∃ w, page_bitmap (get_page st (unusedPool tc, i)) = BmSingle w.

(** Every [poolStart] entry of the radix tree sits at the prefix of the
    start of its pool, and that start is below the highwater mark. *)
Definition tree_ok (st : State) : Prop :=
  ∀ q h, tree_start (poolTree st) q = Some h →
    same_prefix (pool_start (pool_of st h)) q ∧
    pool_start (pool_of st h) < poolHighWater st.

(** The page map of page [j] of a refill once its address is written. *)
Definition stamp (nextFreePage j : Z) (pm : pagemap_t) : pagemap_t :=
  mkPagemap (wrap64 (nextFreePage + j * PAGE_SIZE)) (page_allocSize pm) (page_bitmap pm).

(** The class size and the slots per page of bin [idx], as
    [init_tcache] sets them. *)
Definition class_of (b : bool) (idx : Z) : Z := bin_allocSize (binget (init_bins b) idx).
Definition slots_of (b : bool) (idx : Z) : Z := maxAlloc (binget (init_bins b) idx).

(** A thread cache in order: the bins carry the classes of
    [init_tcache], a bin that is not full has a page in use, and the
    reserve is stamped. *)
Definition tcache_ok (b : bool) (st : State) (tc : threadcache_t) : Prop :=
  (∀ idx, 0 ≤ idx < BIN_COUNT b →
     bin_allocSize (binget (bins tc) idx) = class_of b idx ∧
     maxAlloc (binget (bins tc) idx) = slots_of b idx ∧
     (allocCount (binget (bins tc) idx) = maxAlloc (binget (bins tc) idx) ∨
      bin_ready st (binget (bins tc) idx))) ∧
  reserve_ok st tc.

(** The state of an initialised allocator, as far as the small path
    reads it. *)
Definition small_inv (b : bool) (st : State) : Prop :=
  isInit st = 1 ∧ 0 ≤ poolHighWater st ∧ head_ok st ∧ tree_ok st ∧
  match tcache0 st with
  | Some tc => tcache_ok b st tc
  | None => True
  end.

(** The bin of size [8 * k] is a bin of the table with a class in
    order. *)
Definition small_class_check (b : bool) (k : Z) : bool :=
  (0 <=? GET_BIN b (8 * k)) && (GET_BIN b (8 * k) <? BIN_COUNT b) &&
  class_ok (class_of b (GET_BIN b (8 * k))) (slots_of b (GET_BIN b (8 * k))).

(** The check of [tree_ok] over the entries of the tree. *)
Definition start_entry_ok (st : State) (si li pi h : Z) : bool :=
  let s := pool_start (pool_of st h) in
  (stem_index s =? si) && (leaf_index s =? li) && (pool_index s =? pi) &&
  (s <? poolHighWater st).

(** [start_entry_ok] at every entry of the [poolStart] arrays. *)
Definition tree_check (st : State) : bool :=
  forallb (λ e1 : Z * gmap Z radixleaf_t,
    forallb (λ e2 : Z * radixleaf_t,
      forallb (λ e3 : Z * Z, start_entry_ok st e1.1 e2.1 e3.1 e3.2)
              (map_to_list (poolStart e2.2)))
            (map_to_list e1.2))
          (map_to_list (poolTree st)).

(** The bitmap is the single word of a page never given a class. *)
Definition is_single (bm : bitmap_t) : bool :=
  match bm with BmSingle _ => true | BmArray _ => false end.


(** The number of turns a fuel allows. *)
Fixpoint turns (fuel : positive) : Z :=
  match fuel with
  | xH => 1
  | xO f | xI f => 2 * turns f
  end.

(** The call returns or aborts: it neither traps nor runs out of fuel. *)
Definition runs {A} (m : M A) (st : State) : Prop :=
  (∃ a st', m st = Ok a st') ∨ (∃ msg, m st = Aborted msg).

(** The addresses the highwater loop has left to try. *)
Definition hw_turns_left (sl : State * Z) : Z :=
  if sl.2 <=? TASK_SIZE then (TASK_SIZE - sl.2) / POOL_SIZE + 1 else 0.

(** [small_pool_ok], [bin_ready], [head_ok], [reserve_ok] and
    [tcache_ok] as checks that a concrete state can be run through. *)
Definition same_handle (o : option Z) (h : Z) : bool :=
  match o with Some h' => h' =? h | None => false end.

Definition small_pool_check (st : State) (h : Z) : bool :=
  let p := pool_of st h in
  match kind_of p with SmallPool => true | _ => false end
  && (Z.of_nat (length (pagemaps p)) =? PAGEMAP_COUNT)
  && (0 <? pool_start p) && (pool_start p mod PAGE_SIZE =? 0)
  && (pool_end p =? pool_start p + POOL_SIZE) && (pool_end p <? 2^64)
  && same_handle (tree_start (poolTree st) (pool_start p)) h
  && same_handle (tree_end (poolTree st) (pool_start p + POOL_SIZE)) h
  && match tree_start (poolTree st) (pool_start p + POOL_SIZE) with
     | Some h2 => (h2 =? h) || (pool_start p + POOL_SIZE <=? pool_start (pool_of st h2))
     | None => true
     end.

Definition bitmap_shape_check (maxAlloc : Z) (bm : bitmap_t) : bool :=
  match bm with
  | BmSingle _ => maxAlloc <=? 64
  | BmArray a => (64 <? maxAlloc) && (bitmap_words maxAlloc <=? Z.of_nat (length a))
  end.

Definition bin_ready_check (st : State) (bin : bin_t) : bool :=
  match bin_page bin with
  | Some (h, i) =>
      let pm := get_page st (h, i) in
      small_pool_check st h && (0 <=? i) && (i <? PAGEMAP_COUNT)
      && (page_start pm =? pool_start (pool_of st h) + i * PAGE_SIZE)
      && (page_allocSize pm =? bin_allocSize bin)
      && bitmap_shape_check (maxAlloc bin) (page_bitmap pm)
      && (0 <=? allocCount bin) && (allocCount bin <? maxAlloc bin)
      && (nextAlloc bin =? page_start pm + allocCount bin * bin_allocSize bin)
  | None => false
  end.

Definition head_check (st : State) : bool :=
  match smallPoolList (arena0 st) with
  | h :: _ =>
      let p := pool_of st h in
      let j := (nextFreePage p - pool_start p) / PAGE_SIZE in
      small_pool_check st h && (0 <=? j) && (j <=? PAGEMAP_COUNT)
      && (nextFreePage p =? pool_start p + j * PAGE_SIZE)
      && forallb (λ i, is_single (page_bitmap (get_page st (h, i))))
                 (seqZ j (PAGEMAP_COUNT - j))
  | [] => false
  end.

Definition reserve_check (st : State) (tc : threadcache_t) : bool :=
  if nextUnusedPage tc <? endUnusedPage tc then
    small_pool_check st (unusedPool tc)
    && (0 <=? nextUnusedPage tc) && (endUnusedPage tc <=? PAGEMAP_COUNT)
    && forallb (λ i, (page_start (get_page st (unusedPool tc, i))
                      =? pool_start (pool_of st (unusedPool tc)) + i * PAGE_SIZE)
                     && is_single (page_bitmap (get_page st (unusedPool tc, i))))
               (seqZ (nextUnusedPage tc) (endUnusedPage tc - nextUnusedPage tc))
  else true.

Definition tcache_check (b : bool) (st : State) (tc : threadcache_t) : bool :=
  forallb (λ idx,
             (bin_allocSize (binget (bins tc) idx) =? class_of b idx)
             && (maxAlloc (binget (bins tc) idx) =? slots_of b idx)
             && ((allocCount (binget (bins tc) idx) =? maxAlloc (binget (bins tc) idx))
                 || bin_ready_check st (binget (bins tc) idx)))
          (seqZ 0 (BIN_COUNT b))
  && reserve_check st tc.

Definition small_inv_check (b : bool) (st : State) : bool :=
  (isInit st =? 1) && (0 <=? poolHighWater st) && head_check st && tree_check st
  && match tcache0 st with
     | Some tc => tcache_check b st tc
     | None => true
     end.

(** [n] calls of [ffmalloc(size)] in a row. *)
Fixpoint malloc_many (b : bool) (n : nat) (size : Z) (st : State) : State :=
  match n with
  | O => st
  | S n' => malloc_many b n' size (state_of (ffmalloc b size st))
  end.

(** The mappings of the process while the loop of [os_alloc_highwater]
    runs, and at its exit. *)
Definition hw_map_inv (st : State) (sl : State * Z) : Prop :=
  mapped (os sl.1) = mapped (os st).

Definition hw_map_post (size : Z) (st : State) (rs : option Z * State) : Prop :=
  match rs.1 with
  | Some a =>
      mapped (os rs.2) = (a, a + size) :: mapped (os st) ∧
      existsb (range_overlaps a (a + size)) (mapped (os st)) = false
  | None => mapped (os rs.2) = mapped (os st) ∧ errno rs.2 ≠ EEXIST
  end.

(** Every [poolEnd] entry of the radix tree names a descriptor the
    metadata heap has handed out, of a pool that ends at or below the
    highwater mark. *)
Definition ends_ok (st : State) : Prop :=
  ∀ q h, tree_end (poolTree st) q = Some h →
    h < nextHandle st ∧ pool_end (pool_of st h) ≤ poolHighWater st.

(** No mapping of the process is empty. *)
Definition ranges_ok (o : OS) : Prop := Forall (λ r : Z * Z, r.1 < r.2) (mapped o).

(** [ends_ok] and [ranges_ok] as checks on a concrete state. *)
Definition end_entry_ok (st : State) (h : Z) : bool :=
  (h <? nextHandle st) && (pool_end (pool_of st h) <=? poolHighWater st).

Definition ends_check (st : State) : bool :=
  forallb (λ e1 : Z * gmap Z radixleaf_t,
    forallb (λ e2 : Z * radixleaf_t,
      forallb (λ e3 : Z * Z, end_entry_ok st e3.2) (map_to_list (poolEnd e2.2)))
            (map_to_list e1.2))
          (map_to_list (poolTree st)).

Definition ranges_check (o : OS) : bool := forallb (λ r : Z * Z, r.1 <? r.2) (mapped o).

(** The page map of a slot with its bit cleared, as [free_small_ptr]
    stores it. *)
Definition cleared (pm : pagemap_t) (index : Z) : pagemap_t :=
  mkPagemap (page_start pm) (page_allocSize pm)
            (bitmap_clear (page_allocSize pm) index (page_bitmap pm)).

(** A large pool the arena allocates from: its boundary array is in
    order with room for two more entries, the last boundary is the next
    free byte, and the registry resolves every address of the pool. *)
Definition large_pool_ready (st : State) (h : Z) : Prop :=
  let p := pool_of st h in
  large_wf p ∧ registered st h ∧
  nextFreeIndex p + 1 < Z.of_nat (length (allocs p)) ≤ BOUNDARY_COUNT ∧
  zget (allocs p) (nextFreeIndex p) = nextFreePage p ∧
  0 < pool_start p ≤ nextFreePage p ∧ nextFreePage p ≤ pool_end p ∧
  pool_end p ≤ TASK_SIZE ∧
  nextFreePage p mod 8 = 0 ∧ pool_end p mod 8 = 0.

(** [large_pool_ready] as a check on a concrete state. *)
Definition large_pool_check (st : State) (h : Z) : bool :=
  let p := pool_of st h in
  match kind_of p with LargePool => true | _ => false end
  && (0 <=? nextFreeIndex p)
  && (nextFreeIndex p + 1 <? Z.of_nat (length (allocs p)))
  && (Z.of_nat (length (allocs p)) <=? BOUNDARY_COUNT)
  && words_ok (allocs p) && large_sorted p
  && (pool_end p =? pool_start p + POOL_SIZE)
  && same_handle (tree_start (poolTree st) (pool_start p)) h
  && same_handle (tree_end (poolTree st) (pool_start p + POOL_SIZE)) h
  && match tree_start (poolTree st) (pool_start p + POOL_SIZE) with
     | Some h2 => (h2 =? h) || (pool_start p + POOL_SIZE <=? pool_start (pool_of st h2))
     | None => true
     end
  && (zget (allocs p) (nextFreeIndex p) =? nextFreePage p)
  && (0 <? pool_start p) && (pool_start p <=? nextFreePage p)
  && (nextFreePage p <=? pool_end p) && (pool_end p <=? TASK_SIZE)
  && (nextFreePage p mod 8 =? 0) && (pool_end p mod 8 =? 0).

(** The list of large pools of the CPU the thread runs on. *)
Definition cpu_large_list (st : State) : list Z :=
  large_list st (if cpu (os st) <? 0 then 0 else cpu (os st) mod MAX_LARGE_LISTS).




(** * Properties *)

(** ** The overflow guards of [ffcalloc] and [ffreallocarray] *)

Lemma div_lt_iff_mul_gt (n s : Z) :
  0 < n → (SIZE_MAX / n <? s) = (SIZE_MAX <? n * s).
Proof.
  intros Hn.
  destruct (Z.ltb_spec (SIZE_MAX / n) s) as [Hlt | Hge];
    destruct (Z.ltb_spec SIZE_MAX (n * s)) as [Hm | Hm]; try reflexivity; exfalso.
  - assert (SIZE_MAX < n * (SIZE_MAX / n + 1)).
    { pose proof (Z.mul_succ_div_gt SIZE_MAX n Hn). lia. }
    nia.
  - pose proof (Z.mul_div_le SIZE_MAX n Hn). nia.
Qed.

(** C10.  [ffcalloc] divides [SIZE_MAX] by [nmemb] before anything else:
    with [nmemb = 0] the call ends in a divide error, for every size and
    in every state. *)
Theorem ffcalloc_zero_nmemb_traps (b : bool) (size : Z) (st : State) :
  ffcalloc b 0 size st = Trapped DivideError.
Proof. reflexivity. Qed.

(** [ffreallocarray] tests [nmemb] first and never divides by zero. *)
Lemma ffreallocarray_zero_nmemb (b : bool) (ptr size : Z) (st : State) :
  ffreallocarray b ptr 0 size st = ffrealloc b ptr 0 st.
Proof. reflexivity. Qed.

(** C3, as the code has it.  For a nonzero count, a product that does
    not fit 64 bits makes [ffcalloc] return NULL in an unchanged state;
    a product that fits is handed to [ffmalloc]. *)
Theorem ffcalloc_overflow_check (b : bool) (nmemb size : Z) (st : State) :
  0 < nmemb →
  (SIZE_MAX < nmemb * size → ffcalloc b nmemb size st = Ok 0 st) ∧
  (0 ≤ nmemb * size ≤ SIZE_MAX →
   ffcalloc b nmemb size st
   = (let* _ := ensure_init in ffmalloc b (nmemb * size)) st).
Proof.
  intros Hn. unfold ffcalloc. munfold.
  destruct (Z.eqb_spec nmemb 0) as [-> | _]; [lia |]. cbv beta iota.
  rewrite (div_lt_iff_mul_gt nmemb size Hn).
  split; intros H.
  - apply Z.ltb_lt in H. rewrite H. reflexivity.
  - destruct (Z.ltb_spec SIZE_MAX (nmemb * size)); [lia |].
    unfold wrap64. rewrite Z.mod_small; [reflexivity | unfold SIZE_MAX in *; lia].
Qed.

(** The guard at work on the reference state. *)
Lemma ffcalloc_overflow_check_witness :
  ffcalloc false (2^32) (2^32) st_init = Ok 0 st_init.
Proof.
  apply (proj1 (ffcalloc_overflow_check false (2^32) (2^32) st_init ltac:(lia))).
  vm_compute. reflexivity.
Defined.

(** C3, the scenario of the specification.  [2^30 * 2^30 = 2^60] fits a
    64-bit [size_t]: the guard lets the call through to [ffmalloc], whose
    jumbo path advances [poolHighWater] by [2^60] before the mapping is
    refused. *)
Lemma ffcalloc_2p30_counterexample :
  2^30 * 2^30 ≤ SIZE_MAX ∧
  ffcalloc false (2^30) (2^30) st_init = ffmalloc false (2^60) st_init ∧
  value_of 1 (ffcalloc false (2^30) (2^30) st_init) = 0 ∧
  poolHighWater (state_of (ffcalloc false (2^30) (2^30) st_init))
  = poolHighWater st_init + 2^60 ∧
  ffcalloc false (2^30) (2^30) st_init ≠ Ok 0 st_init.
Proof.
  split; [vm_compute; discriminate |].
  split; [vm_compute; reflexivity |].
  split; [vm_compute; reflexivity |].
  split; [vm_compute; reflexivity |].
  intros H. apply (f_equal (λ r, poolHighWater (state_of r))) in H.
  vm_compute in H. discriminate.
Qed.

(** ** The highwater mark *)

Lemma repeat_until_inv {S R : Type} (I : S → Prop) (Q : R → Prop) (step : S → S + R) :
  (∀ s, I s → match step s with inl s' => I s' | inr r => Q r end) →
  ∀ fuel s, I s →
    match repeat_until fuel step s with inl s' => I s' | inr r => Q r end.
Proof.
  intros Hstep. induction fuel as [f IH | f IH |]; intros s Hs; simpl.
  - pose proof (IH s Hs) as H1.
    destruct (repeat_until f step s) as [s' | r]; [apply IH, H1 | exact H1].
  - pose proof (IH s Hs) as H1.
    destruct (repeat_until f step s) as [s' | r]; [apply IH, H1 | exact H1].
  - apply Hstep, Hs.
Qed.

Lemma os_frame_refl st : os_frame st st.
Proof. repeat split. Qed.

Lemma os_frame_trans a b c : os_frame a b → os_frame b c → os_frame a c.
Proof. unfold os_frame. intros; destruct_and!; repeat split; congruence. Qed.

Lemma wrap64_add_l (x y : Z) : wrap64 (wrap64 x + y) = wrap64 (x + y).
Proof. unfold wrap64. apply Zplus_mod_idemp_l. Qed.

Lemma mmap_ok_inv (o o' : OS) (addr len : Z) :
  mmap_fixed_noreplace o addr len = (MapOk, o') →
  addr mod PAGE_SIZE = 0 ∧ MMAP_MIN_ADDR ≤ addr ∧ addr + len ≤ TASK_SIZE ∧ 0 ≠ len ∧
  brk o' = brk o ∧ cpu o' = cpu o.
Proof.
  unfold mmap_fixed_noreplace.
  destruct (Z.eqb_spec len 0); simpl; [discriminate |].
  destruct (Z.eqb_spec (addr mod PAGE_SIZE) 0); simpl; [| discriminate].
  destruct (Z.ltb_spec TASK_SIZE len); simpl; [discriminate |].
  destruct (Z.ltb_spec (TASK_SIZE - len) addr); simpl; [discriminate |].
  destruct (Z.ltb_spec addr MMAP_MIN_ADDR); [discriminate |].
  destruct (existsb _ _); [discriminate |].
  intros [= <-]. simpl. repeat split; try lia; auto.
Qed.

Lemma mmap_attempt_step (size : Z) (st : State) (sl : State * Z) :
  hw_loop_inv size st sl →
  match mmap_attempt size sl with
  | inl sl' => hw_loop_inv size st sl'
  | inr rs => hw_loop_post size st rs
  end.
Proof.
  destruct sl as [s lh]. intros [Hf (k & Hk & Hhw)]. simpl in Hf, Hhw.
  unfold mmap_attempt. simpl.
  destruct (mmap_fixed_noreplace (os s) lh size) as [[| e] o'] eqn:Hm.
  - apply mmap_ok_inv in Hm. destruct Hm as (Ha & Hmin & Htop & Hlen & Hbrk & Hcpu).
    unfold hw_loop_post, os_frame in *. simpl. destruct_and!.
    split; [repeat split; congruence |].
    split; [exists k; auto |].
    intros a [= <-]. repeat split; auto.
  - destruct (e =? EEXIST).
    + unfold hw_loop_inv, os_frame in *. simpl. destruct_and!.
      split; [repeat split; congruence |].
      exists (k + 1). split; [lia |].
      rewrite Hhw, wrap64_add_l. f_equal. lia.
    + unfold hw_loop_post, os_frame in *. simpl. destruct_and!.
      split; [repeat split; congruence |].
      split; [exists k; auto | intros a; discriminate].
Qed.

(** Every change [os_alloc_highwater] makes to [poolHighWater] is an
    addition modulo [2^64]: of the mapping size, and of [POOL_SIZE] once
    per address collision.  A mapping it returns is page aligned and lies
    in the user address space. *)
Lemma os_alloc_highwater_spec (size : Z) (st st' : State) (r : option Z) :
  os_alloc_highwater size st = Ok r st' →
  os_frame st st' ∧
  (∃ k, 0 ≤ k ∧ poolHighWater st' = wrap64 (poolHighWater st + size + k * POOL_SIZE)) ∧
  (∀ a, r = Some a →
     a mod PAGE_SIZE = 0 ∧ MMAP_MIN_ADDR ≤ a ∧ a + size ≤ TASK_SIZE ∧ size ≠ 0).
Proof.
  unfold os_alloc_highwater. intros Hrun.
  pose proof (repeat_until_inv (hw_loop_inv size st) (hw_loop_post size st)
                (mmap_attempt size) (mmap_attempt_step size st) MMAP_FUEL
                (set_poolHighWater (wrap64 (poolHighWater st + size)) st, poolHighWater st))
    as Hinv.
  destruct (repeat_until _ _ _) as [sl | [r0 s0]]; [discriminate |].
  injection Hrun as <- <-.
  apply Hinv. split; [repeat split |].
  exists 0. split; [lia |]. simpl. f_equal. lia.
Qed.

(** Without wrap-around an advance does not lower the mark. *)
Lemma os_alloc_highwater_monotone (size : Z) (st st' : State) (r : option Z) :
  os_alloc_highwater size st = Ok r st' →
  0 ≤ size → 0 ≤ poolHighWater st →
  (∀ k, 0 ≤ k → poolHighWater st + size + k * POOL_SIZE < 2^64 ∨
                poolHighWater st' ≠ wrap64 (poolHighWater st + size + k * POOL_SIZE)) →
  poolHighWater st ≤ poolHighWater st'.
Proof.
  intros Hrun Hs Hh Hno.
  destruct (os_alloc_highwater_spec _ _ _ _ Hrun) as (_ & (k & Hk & Hhw) & _).
  destruct (Hno k Hk) as [Hlt | Hne]; [| contradiction].
  rewrite Hhw. unfold wrap64. rewrite Z.mod_small; unfold POOL_SIZE in *; lia.
Qed.

(** C2.  A request close to [SIZE_MAX] reaches [os_alloc_highwater]
    through the jumbo path; the fetch-and-add wraps around [2^64] and the
    mark ends 8192 bytes lower than it was.  After two jumbo allocations
    and a free of the first, such a request moves the mark back below
    both, and the next mapping is placed at the address of the first
    one, below the reservation point of the second. *)
Theorem highwater_lowered_by_wraparound :
  let r := ffmalloc false (2^64 - 8192) st_init in
  value_of 1 r = 0 ∧
  poolHighWater (state_of r) = poolHighWater st_init - 8192 ∧
  let r1 := ffmalloc false 4194304 st_init in
  let r2 := ffmalloc false 4194304 (state_of r1) in
  let r3 := fffree (value_of 0 r1) (state_of r2) in
  let r4 := ffmalloc false (2^64 - 8388608) (state_of r3) in
  let r5 := ffmalloc false 4194304 (state_of r4) in
  value_of 0 r1 = poolHighWater st_init ∧
  value_of 0 r2 = poolHighWater st_init + 4194304 ∧
  value_of 1 r4 = 0 ∧
  poolHighWater (state_of r4) < poolHighWater (state_of r3) ∧
  value_of 0 r5 = value_of 0 r1 ∧
  value_of 0 r5 < value_of 0 r2.
Proof. vm_compute. repeat split; congruence. Qed.

(** ** Evaluations on the reference state *)

(** C9.  [ffmemalign(4 MiB, 4096)] finds no room in the list's pool and
    creates pool 10; [ffmalloc_large_from_pool] is then called on the new
    pool without the fit test the other two call sites make.  The aligned
    address lies beyond the end of the pool, the slack rule stores
    [pool->end] after it, and the boundary array is no longer
    increasing. *)
Theorem large_metadata_unsorted_by_unchecked_fit :
  let r := ffmemalign false 4194304 4096 st_init in
  let p := pool_of (state_of r) 10 in
  forallb (λ h, large_sorted (pool_of st_init h)) [2; 3; 4; 5; 6; 7; 8; 9] = true ∧
  large_list (state_of r) 0 = [2; 10] ∧
  nextFreeIndex p = 1 ∧
  take 2 (allocs p) = [value_of 0 r; pool_end p] ∧
  pool_end p < value_of 0 r ∧
  large_sorted p = false.
Proof. vm_compute. repeat split; congruence. Qed.

(** C6.  For the stored word of a freed large allocation, and for a
    pointer into the middle of a jumbo allocation, [ffmalloc_usable_size]
    answers a size, not 0; for a pointer into a page of a small pool
    that no bin was given yet, the class size it divides by is 0. *)
Theorem usable_size_of_dead_pointers :
  let r := ffmalloc false 4194304 st_init in
  let p := value_of 0 r in
  let r' := ffmalloc false 5000 st_init in
  let q := value_of 0 r' in
  let s' := state_of (fffree q (state_of r')) in
  value_of 0 (ffmalloc_usable_size q (state_of r')) = 5008 ∧
  value_of 1 (ffmalloc_usable_size q s') = 0 ∧
  matches_live_entry (pool_of s' 2) (q + 3) = false ∧
  value_of 0 (ffmalloc_usable_size (q + 3) s') = 5005 ∧
  value_of 0 (ffmalloc_usable_size p (state_of r)) = 4194304 ∧
  p + 8 ≠ pool_start (pool_of (state_of r) 10) ∧
  value_of 0 (ffmalloc_usable_size (p + 8) (state_of r)) = 4194304 ∧
  find_pool_for_ptr st_init (pool_start (pool_of st_init 1) + 200 * PAGE_SIZE) = Some 1 ∧
  ffmalloc_usable_size (pool_start (pool_of st_init 1) + 200 * PAGE_SIZE) st_init
  = Trapped DivideError.
Proof. vm_compute. repeat split; congruence. Qed.

(** C4.  After [fffree(q)] of a large allocation the entry of [q] holds
    [q | 3].  A second [fffree(q)] aborts, but [fffree(q + 3)] and
    [ffrealloc(q + 3, 100)] find that word by the raw comparison of
    [find_large_ptr] and carry on, although no live entry has the
    address [q + 3]. *)
Theorem stale_large_pointer_not_rejected :
  let r := ffmalloc false 5000 st_init in
  let q := value_of 0 r in
  let s' := state_of (fffree q (state_of r)) in
  q ≠ 0 ∧
  fffree q s' = Aborted "free bad large ptr: %p" ∧
  find_pool_for_ptr s' (q + 3) = Some 2 ∧
  (nextFreeIndex (pool_of s' 2) <? SIZE_MAX - 1) = true ∧
  matches_live_entry (pool_of s' 2) (q + 3) = false ∧
  (∃ s'', fffree (q + 3) s' = Ok tt s'') ∧
  ffrealloc false (q + 3) 100 s' = Ok (q + 3) s'.
Proof.
  vm_compute. repeat split; try congruence. eexists. reflexivity.
Qed.

(** C1, the aligned entry points.  A request of [POOL_SIZE - 2048] bytes
    has an aligned size of [POOL_SIZE - HALF_PAGE], yet
    [ffmemalign_internal] serves it from large pool 2, as
    [ffaligned_alloc] does for [POOL_SIZE - 8] bytes: no jumbo pool is
    created. *)
Lemma aligned_entry_points_jumbo_counterexample :
  let r := ffmemalign_internal false 4096 (POOL_SIZE - 2048) st_init in
  let r' := ffaligned_alloc false 8 (POOL_SIZE - 8) st_init in
  POOL_SIZE - HALF_PAGE ≤ ALIGN_SIZE false (POOL_SIZE - 2048) ∧
  POOL_SIZE - HALF_PAGE ≤ ALIGN_SIZE false (POOL_SIZE - 8) ∧
  jumboPoolList (arena0 (state_of r)) = [] ∧
  find_pool_for_ptr (state_of r) (value_of 0 r) = Some 2 ∧
  nextFreeIndex (pool_of (state_of r) 2) = 1 ∧
  jumboPoolList (arena0 (state_of r')) = [] ∧
  find_pool_for_ptr (state_of r') (value_of 0 r') = Some 2 ∧
  nextFreeIndex (pool_of (state_of r') 2) = 1.
Proof. vm_compute. repeat split; congruence. Qed.


(** C5.  A live allocation that the metadata does not record.  In the
    16-byte build [ffaligned_alloc(8, 2056)] passes the size to
    [ffmalloc_large] as it is, where [ffmemalign_internal] rounds it with
    [ALIGN_SIZE], and leaves the next free byte of large pool 2 at 8
    modulo 16.  [ffmalloc(5000)] then returns the next multiple of 16,
    but [ffmalloc_large_from_pool] stores the aligned address only for
    an alignment above [MIN_ALIGNMENT]: the boundary array keeps the
    address 8 bytes lower.  The block is live and holds 5008 bytes, yet
    [ffrealloc] to 100 bytes does not return it: it aborts, as
    [ffrealloc(p, 0)] and [fffree(p)] do. *)
Theorem ffrealloc_aborts_on_unrecorded_block :
  let r1 := ffaligned_alloc false 8 2056 st_init in
  let r2 := ffmalloc false 5000 (state_of r1) in
  let p := value_of 0 r2 in
  let st := state_of r2 in
  value_of 0 r1 ≠ 0 ∧
  nextFreePage (pool_of (state_of r1) 2) mod 16 = 8 ∧
  p ≠ 0 ∧ p mod 16 = 0 ∧ errno st = 0 ∧
  find_pool_for_ptr st p = Some 2 ∧
  nextFreeIndex (pool_of st 2) = 2 ∧
  take 3 (allocs (pool_of st 2)) = [value_of 0 r1; p - 8; p + 5008] ∧
  matches_live_entry (pool_of st 2) p = false ∧
  ALIGN_SIZE false 100 ≤ 5008 ∧
  ffrealloc false p 100 st = Aborted "realloc bad large ptr: %p" ∧
  ffrealloc false p 0 st = Aborted "free bad large ptr: %p" ∧
  fffree p st = Aborted "free bad large ptr: %p".
Proof. vm_compute. repeat split; congruence. Qed.

(** C8, the 16-byte build.  [ffmalloc(0)] returns a slot of the 8-byte
    bin: its usable size is 8, not [MIN_ALIGNMENT = 16]. *)
Lemma ffmalloc_zero_usable_size_counterexample :
  let r := ffmalloc false 0 st_init in
  MIN_ALIGNMENT false = 16 ∧
  value_of 0 r ≠ 0 ∧
  ffmalloc_usable_size (value_of 0 r) (state_of r) = Ok 8 (state_of r).
Proof. vm_compute. repeat split; congruence. Qed.

(** ** Live allocations *)

(** *** Bit tests *)

Lemma land_pow2_testbit (w pos : Z) :
  0 ≤ pos → (Z.land w (Z.shiftl 1 pos) =? 0) = negb (Z.testbit w pos).
Proof.
  intros Hpos. rewrite Z.shiftl_1_l.
  destruct (Z.testbit w pos) eqn:Hb; simpl.
  - apply Z.eqb_neq. intros H0.
    apply (f_equal (λ z, Z.testbit z pos)) in H0.
    rewrite Z.land_spec, Hb, Z.pow2_bits_true, Z.bits_0 in H0 by lia. discriminate.
  - apply Z.eqb_eq. apply Z.bits_inj'. intros n Hn.
    rewrite Z.land_spec, Z.bits_0, Z.pow2_bits_eqb by lia.
    destruct (Z.eqb_spec pos n) as [<- | _]; [rewrite Hb; reflexivity |].
    apply andb_false_r.
Qed.

Lemma land_mask_mod (x k : Z) :
  0 ≤ k ≤ 64 → Z.land x (not64 (2^k - 1)) mod 2^k = 0.
Proof.
  intros Hk. rewrite <- Z.land_ones by lia.
  rewrite <- Z.land_assoc.
  replace (Z.land (not64 (2 ^ k - 1)) (Z.ones k)) with 0; [apply Z.land_0_r |].
  symmetry. rewrite Z.land_ones by lia.
  unfold not64, SIZE_MAX.
  replace (2 ^ 64 - 1 - (2 ^ k - 1)) with ((2 ^ (64 - k) - 1) * 2 ^ k).
  - apply Z.mod_mul. apply Z.pow_nonzero; lia.
  - rewrite Z.mul_sub_distr_r, <- Z.pow_add_r by lia.
    replace (64 - k + k) with 64 by lia. lia.
Qed.

Lemma class_size_bounds (a : Z) :
  Z.land a (not64 7) ≠ 0 → 8 ≤ Z.land a (not64 7).
Proof.
  intros Hne.
  pose proof (land_mask_mod a 3 ltac:(lia)) as Hmod.
  change (2 ^ 3 - 1) with 7 in Hmod. change (2 ^ 3) with 8 in Hmod.
  assert (0 ≤ Z.land a (not64 7)).
  { apply Z.land_nonneg. right. vm_compute. discriminate. }
  apply Z.mod_divide in Hmod; [| lia]. destruct Hmod as [q Hq]. lia.
Qed.

Lemma wrap64_range (x : Z) : 0 ≤ wrap64 x < 2^64.
Proof. unfold wrap64. apply Z.mod_pos_bound. lia. Qed.

Lemma to_signed_small (x : Z) : 0 ≤ x < 2^63 → to_signed x = x.
Proof.
  intros H. unfold to_signed. destruct (Z.ltb_spec x (2^63)); lia.
Qed.

Lemma not64_ones (k : Z) :
  0 ≤ k ≤ 64 → not64 (2^k - 1) = Z.ldiff (Z.ones 64) (Z.ones k).
Proof.
  intros Hk. rewrite <- Z.sub_nocarry_ldiff.
  - rewrite !Z.ones_equiv. unfold not64, SIZE_MAX. lia.
  - apply Z.bits_inj'. intros n Hn.
    rewrite Z.ldiff_spec, Z.bits_0, !Z.testbit_ones_nonneg by lia.
    destruct (Z.ltb_spec n k), (Z.ltb_spec n 64); simpl; auto; lia.
Qed.

Lemma land_mask_eq (x k : Z) :
  0 ≤ x < 2^64 → 0 ≤ k ≤ 64 → Z.land x (not64 (2^k - 1)) = x - x mod 2^k.
Proof.
  intros Hx Hk. rewrite not64_ones by lia.
  transitivity (Z.ldiff x (Z.ones k)).
  - apply Z.bits_inj'. intros n Hn.
    rewrite Z.land_spec, !Z.ldiff_spec.
    destruct (Z.ltb_spec n 64) as [Hlt | Hge].
    + rewrite (Z.ones_spec_low 64 n) by lia. reflexivity.
    + replace (Z.testbit x n) with false; [reflexivity |].
      symmetry. destruct (Z.eq_dec x 0) as [-> | Hx0]; [apply Z.bits_0 |].
      apply Z.bits_above_log2; [lia |].
      apply Z.log2_lt_pow2; [lia |].
      apply Z.lt_le_trans with (2 ^ 64); [lia |].
      apply Z.pow_le_mono_r; lia.
  - rewrite Z.ldiff_ones_r, Z.shiftl_mul_pow2, Z.shiftr_div_pow2 by lia.
    pose proof (Z.div_mod x (2^k) ltac:(apply Z.pow_nonzero; lia)). lia.
Qed.

Lemma boundary_bounds (e : Z) :
  0 ≤ e < 2^64 → boundary e ≤ e < boundary e + 8 ∧ boundary e mod 8 = 0.
Proof.
  intros He. unfold boundary.
  pose proof (land_mask_eq e 3 He ltac:(lia)) as H.
  change (2 ^ 3 - 1) with 7 in H. change (2 ^ 3) with 8 in H. rewrite H.
  pose proof (Z.mod_pos_bound e 8 ltac:(lia)).
  split; [lia |].
  rewrite Zminus_mod, Z.mod_mod, Z.sub_diag by lia. reflexivity.
Qed.

(** *** Sorted boundaries and the binary search *)

Lemma strictly_increasing_adjacent (l : list Z) :
  strictly_increasing l = true →
  ∀ a : nat, (S a < length l)%nat → nth a l 0 < nth (S a) l 0.
Proof.
  induction l as [| x l IH]; intros Hs a Ha; simpl in Ha; [lia |].
  destruct l as [| y l]; simpl in Ha; [lia |].
  simpl in Hs. apply andb_prop in Hs as [Hxy Hs].
  destruct a as [| a].
  - simpl. apply Z.ltb_lt, Hxy.
  - apply (IH Hs a). simpl. lia.
Qed.

Lemma strictly_increasing_nth (l : list Z) :
  strictly_increasing l = true →
  ∀ a b : nat, (a < b < length l)%nat → nth a l 0 < nth b l 0.
Proof.
  intros Hs a b [Hab Hb]. induction b as [| b IH]; [lia |].
  destruct (Nat.eq_dec a b) as [-> | Hne].
  - apply strictly_increasing_adjacent; auto.
  - transitivity (nth b l 0).
    + apply IH; lia.
    + apply strictly_increasing_adjacent; auto.
Qed.

Lemma zget_nth (l : list Z) (i : Z) : 0 ≤ i → zget l i = nth (Z.to_nat i) l 0.
Proof. intros H. unfold zget. destruct (Z.leb_spec 0 i); [reflexivity | lia]. Qed.

Lemma zget_words_ok (l : list Z) (i : Z) : words_ok l = true → 0 ≤ zget l i < 2^64.
Proof.
  intros Hw. unfold zget. destruct (Z.leb_spec 0 i); [| lia].
  destruct (nth_in_or_default (Z.to_nat i) l 0) as [Hin | ->]; [| lia].
  unfold words_ok in Hw. rewrite forallb_forall in Hw.
  specialize (Hw _ Hin). apply andb_prop in Hw as [H1 H2].
  apply Z.leb_le in H1. apply Z.ltb_lt in H2. lia.
Qed.

(** In a well-formed large pool the stored words themselves increase
    with the index. *)
Lemma large_sorted_raw (p : pagepool_t) :
  large_sorted p = true → words_ok (allocs p) = true →
  0 ≤ nextFreeIndex p < Z.of_nat (length (allocs p)) →
  ∀ a b, 0 ≤ a < b → b ≤ nextFreeIndex p →
    boundary (zget (allocs p) a) < boundary (zget (allocs p) b) ∧
    zget (allocs p) a < zget (allocs p) b.
Proof.
  intros Hs Hw Hn a b Hab Hbn. unfold large_sorted in Hs.
  set (l := map boundary (take (S (Z.to_nat (nextFreeIndex p))) (allocs p))) in *.
  assert (Hlen : length l = S (Z.to_nat (nextFreeIndex p))).
  { unfold l. rewrite length_map, length_take. lia. }
  assert (Hnth : ∀ i, 0 ≤ i ≤ nextFreeIndex p →
            nth (Z.to_nat i) l 0 = boundary (zget (allocs p) i)).
  { intros i Hi. unfold l. rewrite zget_nth by lia.
    change 0 with (boundary 0) at 1. rewrite map_nth. f_equal.
    rewrite !nth_lookup, lookup_take_lt by lia. reflexivity. }
  assert (Hlt : boundary (zget (allocs p) a) < boundary (zget (allocs p) b)).
  { rewrite <- !Hnth by lia. apply strictly_increasing_nth; [exact Hs | lia]. }
  split; [exact Hlt |].
  pose proof (boundary_bounds _ (zget_words_ok (allocs p) a Hw)) as [Ha Ha8].
  pose proof (boundary_bounds _ (zget_words_ok (allocs p) b Hw)) as [Hb Hb8].
  apply Z.mod_divide in Ha8; [| lia]. apply Z.mod_divide in Hb8; [| lia].
  destruct Ha8 as [qa Hqa]. destruct Hb8 as [qb Hqb]. lia.
Qed.

(** The binary search terminates within its fuel. *)
Lemma find_large_loop_fuel (fuel : nat) (arr : list Z) (nfi ptr left right : Z) :
  0 ≤ left ≤ right → right - left < 2 ^ Z.of_nat fuel →
  is_Some (find_large_loop (S fuel) arr nfi ptr left right (left + (right - left) / 2)).
Proof.
  revert left right. induction fuel as [| fuel IH]; intros left right Hlr Hf.
  - simpl. change (2 ^ Z.of_nat 0) with 1 in Hf.
    assert (left = right) as -> by lia. rewrite Z.eqb_refl. eauto.
  - cbn [find_large_loop].
    destruct (Z.eqb_spec left right); [eauto |].
    destruct (_ =? ptr); [destruct (_ =? nfi); eauto |].
    rewrite Nat2Z.inj_succ, Z.pow_succ_r in Hf by lia.
    assert (Hd : 0 ≤ (right - left) / 2 ∧ 2 * ((right - left) / 2) ≤ right - left
                 ∧ right - left < 2 * ((right - left) / 2) + 2).
    { pose proof (Z.div_mod (right - left) 2 ltac:(lia)).
      pose proof (Z.mod_pos_bound (right - left) 2 ltac:(lia)).
      split; [apply Z.div_pos; lia | lia]. }
    destruct (ptr <? _).
    + replace (left + (right - left) / 2 - left) with ((right - left) / 2) by lia.
      pose proof (IH left (left + (right - left) / 2) ltac:(lia)) as H.
      replace (left + (right - left) / 2 - left) with ((right - left) / 2) in H by lia.
      apply H. lia.
    + apply (IH (left + (right - left) / 2 + 1) right); lia.
Qed.

(** The binary search returns 0 unless a stored word below
    [nextFreeIndex] is the pointer itself. *)
Lemma find_large_loop_miss (fuel : nat) (arr : list Z) (nfi ptr left right : Z) :
  0 ≤ left ≤ right → right ≤ nfi →
  (∀ i, 0 ≤ i < nfi → zget arr i ≠ ptr) →
  ∀ r, find_large_loop fuel arr nfi ptr left right (left + (right - left) / 2) = Some r →
       r = (0, 0).
Proof.
  revert left right. induction fuel as [| fuel IH]; intros left right Hlr Hrn Hno r;
    [discriminate |].
  cbn [find_large_loop].
  assert (Hd : 0 ≤ (right - left) / 2 ∧ 2 * ((right - left) / 2) ≤ right - left).
  { pose proof (Z.div_mod (right - left) 2 ltac:(lia)).
    pose proof (Z.mod_pos_bound (right - left) 2 ltac:(lia)).
    split; [apply Z.div_pos; lia | lia]. }
  destruct (Z.eqb_spec left right); [congruence |].
  destruct (Z.eqb_spec (zget arr (left + (right - left) / 2)) ptr) as [Heq | _].
  { exfalso. apply (Hno (left + (right - left) / 2)); [lia | exact Heq]. }
  destruct (ptr <? _).
  - replace (left + (right - left) / 2 - left) with ((right - left) / 2) by lia.
    pose proof (IH left (left + (right - left) / 2) ltac:(lia) ltac:(lia) Hno r) as H.
    replace (left + (right - left) / 2 - left) with ((right - left) / 2) in H by lia.
    exact H.
  - apply (IH (left + (right - left) / 2 + 1) right); [lia | lia | exact Hno].
Qed.

(** On increasing words the binary search finds the entry that stores
    the pointer. *)
Lemma find_large_loop_hit (fuel : nat) (arr : list Z) (nfi ptr left right i : Z) :
  (∀ a b, 0 ≤ a < b → b ≤ nfi → zget arr a < zget arr b) →
  0 ≤ left ≤ i → i < right → right ≤ nfi → zget arr i = ptr →
  ∀ r, find_large_loop fuel arr nfi ptr left right (left + (right - left) / 2) = Some r →
       r = (wrap64 (Z.land (zget arr (i + 1)) (not64 7) - ptr), i).
Proof.
  intros Hmono. revert left right.
  induction fuel as [| fuel IH]; intros left right Hl Hr Hrn Hi r; [discriminate |].
  cbn [find_large_loop].
  assert (Hd : 0 ≤ (right - left) / 2 ∧ 2 * ((right - left) / 2) ≤ right - left
               ∧ right - left < 2 * ((right - left) / 2) + 2).
  { pose proof (Z.div_mod (right - left) 2 ltac:(lia)).
    pose proof (Z.mod_pos_bound (right - left) 2 ltac:(lia)).
    split; [apply Z.div_pos; lia | lia]. }
  destruct (Z.eqb_spec left right); [lia |].
  set (current := left + (right - left) / 2) in *.
  assert (Hc : left ≤ current < right) by (unfold current; lia).
  destruct (Z.eqb_spec (zget arr current) ptr) as [Heq | Hne].
  - assert (current = i) as ->.
    { destruct (Z.lt_trichotomy current i) as [Hlt | [-> | Hgt]]; [| reflexivity |].
      - pose proof (Hmono current i ltac:(lia) ltac:(lia)). lia.
      - pose proof (Hmono i current ltac:(lia) ltac:(lia)). lia. }
    destruct (Z.eqb_spec i nfi); [lia |]. rewrite Heq. congruence.
  - destruct (Z.ltb_spec ptr (zget arr current)) as [Hlt | Hge].
    + assert (i < current).
      { destruct (Z.lt_trichotomy current i) as [Hc' | [-> | Hgt]]; [| congruence | lia].
        pose proof (Hmono current i ltac:(lia) ltac:(lia)). lia. }
      apply (IH left current); auto; lia.
    + assert (current < i).
      { destruct (Z.lt_trichotomy current i) as [Hc' | [-> | Hgt]]; [lia | congruence |].
        pose proof (Hmono i current ltac:(lia) ltac:(lia)). lia. }
      apply (IH (current + 1) right); auto; lia.
Qed.

(** *** What the search functions answer for live allocations *)

Lemma kind_large (p : pagepool_t) :
  kind_of p = LargePool → (nextFreeIndex p <? SIZE_MAX - 1) = true.
Proof.
  unfold kind_of. destruct (nextFreeIndex p <? SIZE_MAX - 1); [reflexivity |].
  destruct (nextFreeIndex p =? SIZE_MAX - 1); discriminate.
Qed.

Lemma kind_jumbo (p : pagepool_t) :
  kind_of p = JumboPool →
  (nextFreeIndex p <? SIZE_MAX - 1) = false ∧ (nextFreeIndex p =? SIZE_MAX - 1) = true.
Proof.
  unfold kind_of. destruct (nextFreeIndex p <? SIZE_MAX - 1); [discriminate |].
  destruct (nextFreeIndex p =? SIZE_MAX - 1); [auto | discriminate].
Qed.

Lemma kind_small (p : pagepool_t) :
  kind_of p = SmallPool →
  (nextFreeIndex p <? SIZE_MAX - 1) = false ∧ (nextFreeIndex p =? SIZE_MAX - 1) = false.
Proof.
  unfold kind_of. destruct (nextFreeIndex p <? SIZE_MAX - 1); [discriminate |].
  destruct (nextFreeIndex p =? SIZE_MAX - 1); [discriminate | auto].
Qed.

Lemma live_boundary_true (ptr e : Z) :
  live_boundary ptr e = true → e = ptr ∧ Z.land ptr 7 = 0.
Proof.
  unfold live_boundary. intros H. apply andb_prop in H as [H7 He].
  apply Z.eqb_eq in H7, He. subst. auto.
Qed.

Lemma find_large_ptr_live (st : State) (h ptr cur : Z) :
  live_large st h ptr cur →
  ∃ i, find_large_ptr ptr h st = Ok (cur, i) st.
Proof.
  intros [(Hk & Hn & Hw & Hs) (i & Hi & Hlive & -> & Hnz)].
  apply live_boundary_true in Hlive as [Hptr _].
  exists i. unfold find_large_ptr.
  apply kind_large, Z.ltb_lt in Hk.
  replace ((nextFreeIndex (pool_of st h) - 0) / 2)
    with (0 + (nextFreeIndex (pool_of st h) - 0) / 2) by lia.
  destruct (find_large_loop_fuel 64 (allocs (pool_of st h)) (nextFreeIndex (pool_of st h))
              ptr 0 (nextFreeIndex (pool_of st h)) ltac:(lia)
              ltac:(unfold SIZE_MAX in Hk; change (2 ^ Z.of_nat 64) with (2 ^ 64); lia))
    as [r Hr].
  rewrite Hr. f_equal.
  apply (find_large_loop_hit _ _ _ ptr 0 _ i) in Hr; auto; try lia.
  intros a b Hab Hb. apply large_sorted_raw; auto.
Qed.

Lemma find_large_ptr_miss (st : State) (h ptr : Z) :
  0 ≤ nextFreeIndex (pool_of st h) < 2^64 →
  (∀ i, 0 ≤ i < nextFreeIndex (pool_of st h) → zget (allocs (pool_of st h)) i ≠ ptr) →
  find_large_ptr ptr h st = Ok (0, 0) st.
Proof.
  intros Hn Hno. unfold find_large_ptr.
  replace ((nextFreeIndex (pool_of st h) - 0) / 2)
    with (0 + (nextFreeIndex (pool_of st h) - 0) / 2) by lia.
  destruct (find_large_loop_fuel 64 (allocs (pool_of st h)) (nextFreeIndex (pool_of st h))
              ptr 0 (nextFreeIndex (pool_of st h)) ltac:(lia)
              ltac:(change (2 ^ Z.of_nat 64) with (2 ^ 64); lia))
    as [r Hr].
  rewrite Hr. f_equal.
  apply (find_large_loop_miss _ _ _ ptr 0 _) in Hr; auto; lia.
Qed.

Lemma slot_index_bounds (st : State) (h ptr cls : Z) :
  small_slot st h ptr cls → 0 ≤ slot_index st h ptr cls < 2^61.
Proof.
  intros (_ & Hcls & Hnz & _). unfold slot_index.
  assert (8 ≤ cls) by (subst cls; apply class_size_bounds; congruence).
  pose proof (wrap64_range (ptr - page_start (page_of st h ptr))) as Hr.
  split; [apply Z.div_pos; lia |].
  apply Z.div_lt_upper_bound; [lia |].
  change (2 ^ 64) with (8 * 2 ^ 61) in Hr. nia.
Qed.

(** [find_small_ptr] on a slot: the index when the bit is set, -1 or
    -3 when it is clear. *)
Lemma find_small_ptr_slot (st : State) (h ptr cls : Z) :
  small_slot st h ptr cls →
  find_small_ptr ptr h st
  = Ok (if slot_bit (page_of st h ptr) (slot_index st h ptr cls)
        then slot_index st h ptr cls
        else if page_allocSize (page_of st h ptr) <? 64 then -1 else -3,
        (h, wrap64 (ptr - pool_start (pool_of st h)) / PAGE_SIZE)) st.
Proof.
  intros Hslot. pose proof (slot_index_bounds _ _ _ _ Hslot) as Hidx.
  destruct Hslot as (Hk & Hcls & Hnz & Hmod).
  unfold find_small_ptr. munfold. fold (page_of st h ptr).
  rewrite <- Hcls. destruct (Z.eqb_spec cls 0) as [| _]; [contradiction |].
  rewrite Hmod. simpl negb. cbv iota.
  fold (slot_index st h ptr cls). unfold slot_bit.
  set (index := slot_index st h ptr cls) in *.
  destruct (page_allocSize (page_of st h ptr) <? 64).
  - rewrite (Z.shiftr_div_pow2 index 6), (Z.shiftl_mul_pow2 (index / 2 ^ 6) 6) by lia.
    change (2 ^ 6) with 64.
    replace (index - index / 64 * 64) with (index mod 64)
      by (pose proof (Z.div_mod index 64 ltac:(lia)); lia).
    rewrite land_pow2_testbit by (apply Z.mod_pos_bound; lia).
    destruct (Z.testbit _ _); simpl; [| reflexivity].
    rewrite to_signed_small; [reflexivity | lia].
  - rewrite land_pow2_testbit by lia.
    destruct (Z.testbit _ _); simpl; [| reflexivity].
    rewrite to_signed_small; [reflexivity | lia].
Qed.

(** ** [ffrealloc] *)

(** The contract of [ffrealloc] on the allocations the metadata
    records.  [ffrealloc(NULL, size)] is [ffmalloc(size)];
    [ffrealloc(ptr, 0)] runs [fffree(ptr)] and returns NULL; and when
    the aligned new size fits the current class, slot or pool size of an
    allocation that a set bitmap bit, a live boundary entry or a jumbo
    pool records, the call returns the same pointer and leaves the state
    as it was. *)
Theorem ffrealloc_contract (b : bool) (st : State) :
  (∀ size, ffrealloc b 0 size st = ffmalloc b size st) ∧
  (∀ ptr, ptr ≠ 0 →
     ffrealloc b ptr 0 st = (let* _ := fffree ptr in ret 0) st) ∧
  (∀ ptr size cur,
     ptr ≠ 0 → size ≠ 0 → live_allocation st ptr cur → ALIGN_SIZE b size ≤ cur →
     ffrealloc b ptr size st = Ok ptr st).
Proof.
  split; [reflexivity |]. split.
  - intros ptr Hptr. unfold ffrealloc.
    destruct (Z.eqb_spec ptr 0); [contradiction | reflexivity].
  - intros ptr size cur Hptr Hsize (h & Hfind & Hlive) Hfit.
    unfold ffrealloc.
    destruct (Z.eqb_spec ptr 0); [contradiction |].
    destruct (Z.eqb_spec size 0); [contradiction |].
    munfold. rewrite Hfind.
    apply Z.leb_le in Hfit.
    destruct Hlive as [[Hslot Hbit] | [Hlarge | (Hk & Hstart & Hcur)]].
    + pose proof (slot_index_bounds _ _ _ _ Hslot) as Hidx.
      pose proof Hslot as (Hk & Hcls & _).
      apply kind_small in Hk as [-> ->].
      rewrite (find_small_ptr_slot _ _ _ _ Hslot), Hbit. cbn [fst snd].
      destruct (Z.ltb_spec (slot_index st h ptr cur) 0); [lia |].
      fold (page_of st h ptr). rewrite <- Hcls, Hfit. reflexivity.
    + pose proof Hlarge as [(Hk & _) (i & _ & _ & _ & Hnz)].
      apply kind_large in Hk. rewrite Hk.
      destruct (find_large_ptr_live _ _ _ _ Hlarge) as [j ->]. cbn [fst snd].
      destruct (Z.eqb_spec cur 0); [contradiction |].
      rewrite Hfit. reflexivity.
    + apply kind_jumbo in Hk as [-> ->].
      rewrite <- Hcur, Hfit, <- Hstart. reflexivity.
Qed.

(** A large allocation of 5000 bytes keeps its address when it is
    resized to 3000 bytes. *)
Lemma ffrealloc_contract_witness :
  let r := ffmalloc false 5000 st_init in
  ffrealloc false (value_of 0 r) 3000 (state_of r) = Ok (value_of 0 r) (state_of r).
Proof.
  apply (proj2 (proj2 (ffrealloc_contract false (state_of (ffmalloc false 5000 st_init))))
           (value_of 0 (ffmalloc false 5000 st_init)) 3000 5008).
  - vm_compute. discriminate.
  - discriminate.
  - exists 2. split; [vm_compute; reflexivity |].
    right; left. split.
    + repeat split; vm_compute; congruence.
    + exists 0. repeat split; vm_compute; congruence.
  - vm_compute. discriminate.
Defined.

(** ** Pointers the allocator rejects, sizes it reports *)



(** [ffmalloc_usable_size] answers the class size of a live small
    allocation, the boundary difference of a live large one and the pool
    size of a live jumbo one; it answers 0 for NULL and for a pointer the
    registry does not resolve. *)
Lemma usable_size_of_live (st : State) (ptr cur : Z) :
  (ptr ≠ 0 → live_allocation st ptr cur → ffmalloc_usable_size ptr st = Ok cur st) ∧
  ffmalloc_usable_size 0 st = Ok 0 st ∧
  (find_pool_for_ptr st ptr = None → ffmalloc_usable_size ptr st = Ok 0 st).
Proof.
  split; [| split].
  - intros Hptr (h & Hfind & Hlive). unfold ffmalloc_usable_size.
    destruct (Z.eqb_spec ptr 0); [contradiction |]. munfold. rewrite Hfind.
    destruct Hlive as [[Hslot Hbit] | [Hlarge | (Hk & Hstart & Hcur)]].
    + pose proof (slot_index_bounds _ _ _ _ Hslot) as Hidx.
      pose proof Hslot as (Hk & Hcls & _).
      apply kind_small in Hk as [-> ->].
      rewrite (find_small_ptr_slot _ _ _ _ Hslot), Hbit. cbn [fst snd].
      destruct (Z.ltb_spec (slot_index st h ptr cur) 0); [lia |].
      fold (page_of st h ptr). rewrite <- Hcls. reflexivity.
    + pose proof Hlarge as [(Hk & _) _].
      apply kind_large in Hk. rewrite Hk.
      destruct (find_large_ptr_live _ _ _ _ Hlarge) as [j ->]. reflexivity.
    + apply kind_jumbo in Hk as [-> ->]. rewrite <- Hcur. reflexivity.
  - reflexivity.
  - intros Hfind. unfold ffmalloc_usable_size.
    destruct (ptr =? 0); [reflexivity |]. munfold. rewrite Hfind. reflexivity.
Qed.

(** Whatever pointer resolves to a jumbo pool gets the size of the
    pool: [ffmalloc_usable_size] never compares it with [pool->start]. *)
Lemma usable_size_in_jumbo_pool (st : State) (ptr h : Z) :
  ptr ≠ 0 → find_pool_for_ptr st ptr = Some h → kind_of (pool_of st h) = JumboPool →
  ffmalloc_usable_size ptr st
  = Ok (wrap64 (pool_end (pool_of st h) - pool_start (pool_of st h))) st.
Proof.
  intros Hptr Hfind Hk. unfold ffmalloc_usable_size.
  destruct (Z.eqb_spec ptr 0); [contradiction |]. munfold. rewrite Hfind.
  apply kind_jumbo in Hk as [-> ->]. reflexivity.
Qed.

(** ** Pool descriptors and the registry *)

Lemma pool_of_set_pool_eq (h : Z) (p : pagepool_t) (st : State) :
  pool_of (set_pool h p st) h = p.
Proof. unfold pool_of, set_pool, set_pools. cbn [pools]. rewrite lookup_insert_eq. reflexivity. Qed.

Lemma pool_of_set_pool_ne (h h' : Z) (p : pagepool_t) (st : State) :
  h ≠ h' → pool_of (set_pool h p st) h' = pool_of st h'.
Proof.
  intros Hne. unfold pool_of, set_pool, set_pools. cbn [pools].
  rewrite lookup_insert_ne by exact Hne. reflexivity.
Qed.

Lemma leaf_at_put_leaf (t : gmap Z (gmap Z radixleaf_t)) (si li si' li' : Z)
    (l : radixleaf_t) :
  leaf_at (put_leaf t si li l) si' li'
  = if decide (si = si' ∧ li = li') then Some l else leaf_at t si' li'.
Proof.
  unfold leaf_at, put_leaf.
  destruct (decide (si = si')) as [<- | Hs].
  - rewrite lookup_insert_eq. cbn [mbind option_bind].
    destruct (decide (li = li')) as [<- | Hl].
    + rewrite lookup_insert_eq. rewrite decide_True by auto. reflexivity.
    + rewrite lookup_insert_ne by exact Hl.
      rewrite decide_False by (intros [_ ?]; contradiction).
      destruct (t !! si); reflexivity.
  - rewrite lookup_insert_ne by exact Hs.
    rewrite decide_False by (intros [? _]; contradiction). reflexivity.
Qed.

Lemma tree_start_set_start (t : gmap Z (gmap Z radixleaf_t)) (q ptr : Z) (v : option Z) :
  tree_start (tree_set_start t q v) ptr
  = if decide (same_prefix q ptr) then v else tree_start t ptr.
Proof.
  unfold tree_start, tree_set_start. rewrite leaf_at_put_leaf.
  destruct (decide (stem_index q = stem_index ptr ∧ leaf_index q = leaf_index ptr))
    as [[Hs Hl] | Hne].
  - cbn [mbind option_bind poolStart].
    destruct (decide (pool_index q = pool_index ptr)) as [Hp | Hp].
    + rewrite decide_True by (repeat split; auto).
      rewrite Hp. apply lookup_partial_alter_eq.
    + rewrite decide_False by (intros (_ & _ & ?); contradiction).
      rewrite lookup_partial_alter_ne by exact Hp.
      rewrite Hs, Hl. destruct (leaf_at t (stem_index ptr) (leaf_index ptr)); reflexivity.
  - rewrite decide_False by (intros (? & ? & _); apply Hne; auto). reflexivity.
Qed.

Lemma tree_end_set_start (t : gmap Z (gmap Z radixleaf_t)) (q ptr : Z) (v : option Z) :
  tree_end (tree_set_start t q v) ptr = tree_end t ptr.
Proof.
  unfold tree_end, tree_set_start. rewrite leaf_at_put_leaf.
  destruct (decide (stem_index q = stem_index ptr ∧ leaf_index q = leaf_index ptr))
    as [[Hs Hl] | Hne]; [| reflexivity].
  cbn [mbind option_bind poolEnd]. rewrite Hs, Hl.
  destruct (leaf_at t (stem_index ptr) (leaf_index ptr)); reflexivity.
Qed.

Lemma tree_end_set_end (t : gmap Z (gmap Z radixleaf_t)) (q ptr : Z) (v : option Z) :
  tree_end (tree_set_end t q v) ptr
  = if decide (same_prefix q ptr) then v else tree_end t ptr.
Proof.
  unfold tree_end, tree_set_end. rewrite leaf_at_put_leaf.
  destruct (decide (stem_index q = stem_index ptr ∧ leaf_index q = leaf_index ptr))
    as [[Hs Hl] | Hne].
  - cbn [mbind option_bind poolEnd].
    destruct (decide (pool_index q = pool_index ptr)) as [Hp | Hp].
    + rewrite decide_True by (repeat split; auto).
      rewrite Hp. apply lookup_partial_alter_eq.
    + rewrite decide_False by (intros (_ & _ & ?); contradiction).
      rewrite lookup_partial_alter_ne by exact Hp.
      rewrite Hs, Hl. destruct (leaf_at t (stem_index ptr) (leaf_index ptr)); reflexivity.
  - rewrite decide_False by (intros (? & ? & _); apply Hne; auto). reflexivity.
Qed.

Lemma tree_start_set_end (t : gmap Z (gmap Z radixleaf_t)) (q ptr : Z) (v : option Z) :
  tree_start (tree_set_end t q v) ptr = tree_start t ptr.
Proof.
  unfold tree_start, tree_set_end. rewrite leaf_at_put_leaf.
  destruct (decide (stem_index q = stem_index ptr ∧ leaf_index q = leaf_index ptr))
    as [[Hs Hl] | Hne]; [| reflexivity].
  cbn [mbind option_bind poolStart]. rewrite Hs, Hl.
  destruct (leaf_at t (stem_index ptr) (leaf_index ptr)); reflexivity.
Qed.

(** [find_pool_for_ptr] through the two entries of the pointer's prefix. *)
Lemma find_pool_for_ptr_entries (st : State) (ptr : Z) :
  find_pool_for_ptr st ptr
  = let viaEnd :=
      match tree_end (poolTree st) ptr with
      | Some h => if ptr <? pool_end (pool_of st h) then Some h else None
      | None => None
      end in
    match tree_start (poolTree st) ptr with
    | Some h => if pool_start (pool_of st h) <=? ptr then Some h else viaEnd
    | None => viaEnd
    end.
Proof.
  unfold find_pool_for_ptr, tree_start, tree_end.
  destruct (leaf_at (poolTree st) (stem_index ptr) (leaf_index ptr)); reflexivity.
Qed.

(** A pointer whose prefix has the pool in its [poolStart] entry and
    that is not below the start of the pool resolves to the pool. *)
Lemma find_pool_by_start (st : State) (ptr h : Z) :
  tree_start (poolTree st) ptr = Some h → pool_start (pool_of st h) ≤ ptr →
  find_pool_for_ptr st ptr = Some h.
Proof.
  intros Ht Hs. rewrite find_pool_for_ptr_entries, Ht. cbv zeta.
  apply Z.leb_le in Hs. rewrite Hs. reflexivity.
Qed.

(** ** Jumbo pools *)

Lemma align_to_page (size : Z) :
  0 ≤ size ≤ 2^64 - PAGE_SIZE →
  size ≤ ALIGN_TO size PAGE_SIZE < size + PAGE_SIZE ∧ ALIGN_TO size PAGE_SIZE mod PAGE_SIZE = 0.
Proof.
  intros Hs. unfold ALIGN_TO, PAGE_SIZE in *.
  change (4096 - 1) with (2 ^ 12 - 1).
  split; [| change 4096 with (2 ^ 12); apply land_mask_mod; lia].
  unfold wrap64. rewrite Z.mod_small by lia.
  rewrite land_mask_eq by lia. change (2 ^ 12 - 1) with 4095. change (2 ^ 12) with 4096.
  pose proof (Z.mod_pos_bound (size + 4095) 4096 ltac:(lia)).
  pose proof (Z.div_mod (size + 4095) 4096 ltac:(lia)).
  assert ((size + 4095 - (size + 4095) mod 4096) mod 4096 = 0).
  { rewrite Zminus_mod, Z.mod_mod, Z.sub_diag by lia. reflexivity. }
  lia.
Qed.

(** What [ffmalloc_jumbo] leaves behind when it returns an address:
    the descriptor [nextHandle st] is a jumbo pool of its own at the head
    of the arena's jumbo list; it starts at the returned address, spans
    the request rounded up by [ALIGN_TO(size, PAGE_SIZE)] and is found by
    the registry. *)
Lemma ffmalloc_jumbo_spec (size : Z) (st st' : State) (p : Z) :
  ffmalloc_jumbo size st = Ok p st' → p ≠ 0 →
  let h := nextHandle st in
  jumboPoolList (arena0 st') = h :: jumboPoolList (arena0 st) ∧
  smallPoolList (arena0 st') = smallPoolList (arena0 st) ∧
  largePoolList (arena0 st') = largePoolList (arena0 st) ∧
  nextFreeIndex (pool_of st' h) = SIZE_MAX - 1 ∧
  pool_start (pool_of st' h) = p ∧
  pool_end (pool_of st' h) = p + ALIGN_TO size PAGE_SIZE ∧
  p mod PAGE_SIZE = 0 ∧
  find_pool_for_ptr st' p = Some h ∧
  (∀ h', h' ≠ h → pool_of st' h' = pool_of st h').
Proof.
  unfold ffmalloc_jumbo, ffmetadata_alloc_pool, create_jumbopool, add_pool_to_tree.
  munfold.
  set (h := nextHandle st).
  set (st1 := set_pool h _ (set_nextHandle _ (set_pool h zero_pool st))).
  destruct (os_alloc_highwater (ALIGN_TO size PAGE_SIZE) st1) as [r st2 | | |] eqn:Hos;
    try discriminate.
  destruct (os_alloc_highwater_spec _ _ _ _ Hos)
    as ((_ & _ & Htree & Hpools & _ & Harena & _) & _ & Hmap).
  destruct r as [start |]; cbn [Z.eqb Z.opp Pos.eqb].
  2: { intros [= <- _] Hp. contradiction. }
  destruct (Hmap start eq_refl) as (Hal & Hmin & Htop & Hnz).
  assert (Hp2 : pool_of st2 h
                = set_nextFreeIndex (SIZE_MAX - 1) (set_tracking NoTracking zero_pool)).
  { unfold pool_of. rewrite Hpools. fold (pool_of st1 h). unfold st1.
    rewrite pool_of_set_pool_eq. f_equal. f_equal.
    unfold pool_of. st_simpl. rewrite lookup_insert_eq. reflexivity. }
  assert (Hend : wrap64 (start + ALIGN_TO size PAGE_SIZE) = start + ALIGN_TO size PAGE_SIZE).
  { unfold wrap64. apply Z.mod_small.
    assert (0 ≤ ALIGN_TO size PAGE_SIZE).
    { unfold ALIGN_TO. apply Z.land_nonneg. right. vm_compute. discriminate. }
    unfold MMAP_MIN_ADDR, TASK_SIZE in *. lia. }
  rewrite Hp2, Hend. st_simpl.
  unfold pool_of. st_simpl. rewrite !lookup_insert_eq. cbn [default from_option id]. st_simpl.
  intros [= <- <-] Hp. cbv zeta. st_simpl. rewrite !lookup_insert_eq.
  cbn [default from_option id]. st_simpl.
  assert (Ha : arena0 st2 = arena0 st) by (rewrite Harena; reflexivity).
  rewrite Ha.
  repeat split; auto.
  - apply find_pool_by_start.
    + st_simpl. rewrite tree_start_set_end, tree_start_set_start.
      rewrite decide_True by (repeat split). reflexivity.
    + unfold pool_of. st_simpl. rewrite lookup_insert_eq.
      cbn [default from_option id]. st_simpl. lia.
  - intros h' Hne. rewrite lookup_insert_ne by congruence. rewrite Hpools.
    unfold st1. st_simpl. rewrite !lookup_insert_ne by congruence. reflexivity.
Qed.

(** ** Dispatch by size *)

(** C1, as the code has it.  [ffmalloc] sends an aligned size of at
    least [POOL_SIZE - HALF_PAGE] to the jumbo allocator and an aligned
    size between [HALF_PAGE] and that threshold to the large allocator.
    The aligned entry points draw the line at [POOL_SIZE]:
    [ffmemalign_internal] on the aligned size, [ffaligned_alloc] on the
    size as given.  A jumbo allocation that succeeds has a pool of its
    own, with [nextFreeIndex = SIZE_MAX - 1], that starts at the returned
    address and spans the request rounded up to [PAGE_SIZE]. *)
Theorem jumbo_dispatch (b : bool) (st : State) :
  (∀ size,
     isInit st = 1 →
     (if size =? 0 then 8 else size) ≤ SIZE_MAX - MIN_ALIGNMENT b →
     let a := ALIGN_SIZE b (if size =? 0 then 8 else size) in
     (POOL_SIZE - HALF_PAGE ≤ a →
      ffmalloc b size st = with_enomem (ffmalloc_jumbo a) st) ∧
     (HALF_PAGE < a < POOL_SIZE - HALF_PAGE →
      ffmalloc b size st = with_enomem (ffmalloc_large b a (MIN_ALIGNMENT b)) st)) ∧
  (∀ alignment size,
     HALF_PAGE < size ∨ HALF_PAGE < alignment →
     let a := ALIGN_SIZE b size in
     (POOL_SIZE ≤ a → ffmemalign_internal b alignment size st = ffmalloc_jumbo a st) ∧
     (a < POOL_SIZE →
      ffmemalign_internal b alignment size st = ffmalloc_large b a alignment st)) ∧
  (∀ alignment size,
     aligned_alloc_args_ok alignment size = true →
     (POOL_SIZE ≤ size → ffaligned_alloc b alignment size st = ffmalloc_jumbo size st) ∧
     (size < POOL_SIZE → HALF_PAGE < size ∨ HALF_PAGE < alignment →
      ffaligned_alloc b alignment size st = ffmalloc_large b size alignment st)) ∧
  (∀ size p st',
     ffmalloc_jumbo size st = Ok p st' → p ≠ 0 →
     let pool := pool_of st' (nextHandle st) in
     jumboPoolList (arena0 st') = nextHandle st :: jumboPoolList (arena0 st) ∧
     kind_of pool = JumboPool ∧
     nextFreeIndex pool = SIZE_MAX - 1 ∧
     pool_start pool = p ∧
     pool_end pool - pool_start pool = ALIGN_TO size PAGE_SIZE ∧
     find_pool_for_ptr st' p = Some (nextHandle st) ∧
     (0 ≤ size ≤ 2^64 - PAGE_SIZE →
      size ≤ pool_end pool - pool_start pool < size + PAGE_SIZE ∧
      (pool_end pool - pool_start pool) mod PAGE_SIZE = 0)).
Proof.
  split; [| split; [| split]].
  - intros size Hinit Hmax a. subst a.
    assert (Hm : ffmalloc b size st
                 = (if (ALIGN_SIZE b (if size =? 0 then 8 else size)) <=? HALF_PAGE
                    then with_enomem (ffmalloc_small b (ALIGN_SIZE b (if size =? 0 then 8 else size))) st
                    else if (ALIGN_SIZE b (if size =? 0 then 8 else size)) <? POOL_SIZE - HALF_PAGE
                    then with_enomem (ffmalloc_large b (ALIGN_SIZE b (if size =? 0 then 8 else size))
                                        (MIN_ALIGNMENT b)) st
                    else with_enomem (ffmalloc_jumbo (ALIGN_SIZE b (if size =? 0 then 8 else size))) st)).
    { unfold ffmalloc, with_enomem, ensure_init. munfold.
      rewrite Hinit. cbn [Z.eqb Pos.eqb].
      destruct (Z.ltb_spec (SIZE_MAX - MIN_ALIGNMENT b) (if size =? 0 then 8 else size));
        [lia |].
      destruct (_ <=? HALF_PAGE); [reflexivity |].
      destruct (_ <? POOL_SIZE - HALF_PAGE); reflexivity. }
    rewrite Hm. unfold POOL_SIZE, HALF_PAGE. split; intros Ha.
    + destruct (Z.leb_spec (ALIGN_SIZE b (if size =? 0 then 8 else size)) 2048); [lia |].
      destruct (Z.ltb_spec (ALIGN_SIZE b (if size =? 0 then 8 else size)) (2097152 - 2048));
        [lia | reflexivity].
    + destruct (Z.leb_spec (ALIGN_SIZE b (if size =? 0 then 8 else size)) 2048); [lia |].
      destruct (Z.ltb_spec (ALIGN_SIZE b (if size =? 0 then 8 else size)) (2097152 - 2048));
        [reflexivity | lia].
  - intros alignment size Hbig a. subst a. unfold ffmemalign_internal.
    replace ((size <=? HALF_PAGE) && (alignment <=? HALF_PAGE)) with false.
    2: { symmetry. apply andb_false_iff. rewrite !Z.leb_gt. exact Hbig. }
    split; intros Ha.
    + destruct (Z.leb_spec POOL_SIZE (ALIGN_SIZE b size)); [reflexivity | lia].
    + destruct (Z.leb_spec POOL_SIZE (ALIGN_SIZE b size)); [lia | reflexivity].
  - intros alignment size Hok. unfold aligned_alloc_args_ok in Hok.
    apply andb_prop in Hok as [Hok H4]. apply andb_prop in Hok as [Hok H3].
    apply andb_prop in Hok as [H1 H2].
    apply negb_true_iff in H1, H2, H3, H4.
    unfold ffaligned_alloc. rewrite H1, H2, H3, H4.
    split.
    + intros Ha. destruct (Z.leb_spec POOL_SIZE size); [reflexivity | lia].
    + intros Ha Hbig. destruct (Z.leb_spec POOL_SIZE size); [lia |].
      replace ((size <=? HALF_PAGE) && (alignment <=? HALF_PAGE)) with false; [reflexivity |].
      symmetry. apply andb_false_iff. rewrite !Z.leb_gt. exact Hbig.
  - intros size p st' Hj Hp pool. subst pool.
    destruct (ffmalloc_jumbo_spec _ _ _ _ Hj Hp)
      as (Hlist & _ & _ & Hn & Hs & He & _ & Hfind & _).
    split; [exact Hlist |]. split; [unfold kind_of; rewrite Hn; reflexivity |].
    split; [exact Hn |]. split; [exact Hs |].
    assert (Hd : pool_end (pool_of st' (nextHandle st)) - pool_start (pool_of st' (nextHandle st))
                 = ALIGN_TO size PAGE_SIZE) by (rewrite He, Hs; lia).
    split; [exact Hd |]. split; [exact Hfind |].
    intros Hsz. rewrite Hd. apply (align_to_page size Hsz).
Qed.

(** A request of 4 MiB on the reference state goes to the jumbo
    allocator. *)
Lemma jumbo_dispatch_witness :
  ffmalloc false 4194304 st_init = with_enomem (ffmalloc_jumbo 4194304) st_init.
Proof.
  apply (proj1 (proj1 (jumbo_dispatch false st_init) 4194304
                  ltac:(vm_compute; reflexivity) ltac:(vm_compute; discriminate))).
  vm_compute. discriminate.
Defined.

(** ** Runs of the state monad *)

Lemma bind_ok {A B} (m : M A) (k : A → M B) (st st' : State) (v : B) :
  bind m k st = Ok v st' → ∃ a st1, m st = Ok a st1 ∧ k a st1 = Ok v st'.
Proof.
  unfold bind. destruct (m st) as [a st1 | | |]; try discriminate.
  intros H. exists a, st1. auto.
Qed.

Lemma ret_ok {A} (a v : A) (st st' : State) : ret a st = Ok v st' → v = a ∧ st' = st.
Proof. unfold ret. intros [= <- <-]. auto. Qed.

Lemma modify_ok (f : State → State) (st st' : State) (v : unit) :
  modify f st = Ok v st' → st' = f st.
Proof. unfold modify. intros [= _ <-]. reflexivity. Qed.

Lemma get_ok (st st' v : State) : get st = Ok v st' → v = st ∧ st' = st.
Proof. unfold get. intros [= <- <-]. auto. Qed.

(** ** Where the highwater loop places a mapping *)

Lemma mmap_exist_inv (o o' : OS) (addr len e : Z) :
  mmap_fixed_noreplace o addr len = (MapErr e, o') → e = EEXIST →
  MMAP_MIN_ADDR ≤ addr ∧ addr + len ≤ TASK_SIZE ∧ len ≤ TASK_SIZE.
Proof.
  unfold mmap_fixed_noreplace.
  destruct (Z.eqb_spec len 0); simpl; [intros [= <- _]; discriminate |].
  destruct (Z.eqb_spec (addr mod PAGE_SIZE) 0); simpl; [| intros [= <- _]; discriminate].
  destruct (Z.ltb_spec TASK_SIZE len); simpl; [intros [= <- _]; discriminate |].
  destruct (Z.ltb_spec (TASK_SIZE - len) addr); simpl; [intros [= <- _]; discriminate |].
  destruct (Z.ltb_spec addr MMAP_MIN_ADDR); [intros [= <- _]; discriminate |].
  destruct (existsb _ _); [| discriminate].
  intros _ _. lia.
Qed.

Lemma mmap_attempt_above (size hw0 : Z) (sl : State * Z) :
  0 < size → hw_above_inv size hw0 sl →
  match mmap_attempt size sl with
  | inl sl' => hw_above_inv size hw0 sl'
  | inr rs => hw_above_post size hw0 rs
  end.
Proof.
  destruct sl as [s lh]. intros Hsz [Hlo Hhw]. cbn [fst snd] in Hlo, Hhw.
  unfold mmap_attempt. cbn [fst snd].
  destruct (mmap_fixed_noreplace (os s) lh size) as [[| e] o'] eqn:Hm.
  - apply mmap_ok_inv in Hm. destruct Hm as (_ & Hmin & Htop & _).
    intros a [= <-]. cbn [fst snd poolHighWater set_os]. split; [exact Hlo |].
    unfold wrap64, MMAP_MIN_ADDR, TASK_SIZE, POOL_SIZE in *.
    rewrite !Z.mod_small in Hhw by lia. exact Hhw.
  - destruct (Z.eqb_spec e EEXIST) as [He | _]; [| intros a; discriminate].
    destruct (mmap_exist_inv _ _ _ _ _ Hm He) as (Hmin & Htop & _).
    unfold hw_above_inv. cbn [fst snd poolHighWater set_poolHighWater set_errno].
    unfold wrap64, MMAP_MIN_ADDR, TASK_SIZE, POOL_SIZE in *.
    rewrite !Z.mod_small in Hhw by lia.
    split; [lia |]. right. reflexivity.
Qed.

(** A successful [os_alloc_highwater] maps at or above the mark it
    found, and leaves the mark at the end of the mapping or, after a
    collision, [POOL_SIZE] above its start. *)
Lemma os_alloc_highwater_above (size : Z) (st st' : State) (a : Z) :
  0 < size → os_alloc_highwater size st = Ok (Some a) st' →
  poolHighWater st ≤ a ∧
  (poolHighWater st' = a + size ∨ poolHighWater st' = a + POOL_SIZE).
Proof.
  unfold os_alloc_highwater. intros Hsz Hrun.
  pose proof (repeat_until_inv (hw_above_inv size (poolHighWater st))
                (hw_above_post size (poolHighWater st))
                (mmap_attempt size) (λ sl, mmap_attempt_above size _ sl Hsz) MMAP_FUEL
                (set_poolHighWater (wrap64 (poolHighWater st + size)) st, poolHighWater st))
    as Hinv.
  destruct (repeat_until _ _ _) as [sl | [r0 s0]]; [discriminate |].
  injection Hrun as -> <-.
  apply Hinv; [| reflexivity].
  split; [cbn [snd]; lia | left; reflexivity].
Qed.

(** ** Prefixes of the radix tree *)

Lemma same_prefix_iff (q ptr : Z) :
  same_prefix q ptr ↔ q / POOL_SIZE = ptr / POOL_SIZE.
Proof.
  assert (Hidx : ∀ x, stem_index x = x / POOL_SIZE / 2^19 ∧
                      leaf_index x = (x / POOL_SIZE / 2^11) mod 2^8 ∧
                      pool_index x = (x / POOL_SIZE) mod 2^11).
  { intros x. unfold stem_index, leaf_index, pool_index, LEAVES_PER_STEM, POOLS_PER_LEAF,
      POOL_SIZE_BITS, LEAF_BITS, STEM_BITS, ROOT_BITS, POOL_SIZE.
    unfold POOL_SIZE_BITS.
    change (21 + (48 - 8 - 8 - 21) + 8) with 40. change (21 + (48 - 8 - 8 - 21)) with 32.
    change (256 - 1) with (Z.ones 8). change (2048 - 1) with (Z.ones 11).
    rewrite !Z.land_ones by lia. rewrite !Z.shiftr_div_pow2 by lia.
    change 2097152 with (2^21).
    rewrite !Zdiv.Zdiv_Zdiv by lia. repeat split. }
  unfold same_prefix.
  destruct (Hidx q) as (-> & -> & ->). destruct (Hidx ptr) as (-> & -> & ->).
  set (x := q / POOL_SIZE). set (y := ptr / POOL_SIZE).
  split.
  - intros (Hs & Hl & Hp).
    pose proof (Z.div_mod x (2^11) ltac:(lia)).
    pose proof (Z.div_mod y (2^11) ltac:(lia)).
    pose proof (Z.div_mod (x / 2^11) (2^8) ltac:(lia)).
    pose proof (Z.div_mod (y / 2^11) (2^8) ltac:(lia)).
    rewrite !Zdiv.Zdiv_Zdiv in * by lia. change (2^11 * 2^8) with (2^19) in *.
    lia.
  - intros ->. auto.
Qed.

Lemma tree_start_prefix (t : gmap Z (gmap Z radixleaf_t)) (q ptr : Z) :
  same_prefix q ptr → tree_start t ptr = tree_start t q.
Proof. intros (Hs & Hl & Hp). unfold tree_start. rewrite Hs, Hl, Hp. reflexivity. Qed.

Lemma tree_end_prefix (t : gmap Z (gmap Z radixleaf_t)) (q ptr : Z) :
  same_prefix q ptr → tree_end t ptr = tree_end t q.
Proof. intros (Hs & Hl & Hp). unfold tree_end. rewrite Hs, Hl, Hp. reflexivity. Qed.

(** An address of a pool of [POOL_SIZE] bytes has the prefix of the
    pool's start or that of its end. *)
Lemma pool_prefixes (s ptr : Z) :
  s ≤ ptr < s + POOL_SIZE →
  (same_prefix s ptr ∨ same_prefix (s + POOL_SIZE) ptr) ∧
  (same_prefix (s + POOL_SIZE) ptr → ¬ same_prefix s ptr).
Proof.
  intros Hr. rewrite !same_prefix_iff.
  replace ((s + POOL_SIZE) / POOL_SIZE) with (s / POOL_SIZE + 1)
    by (rewrite <- (Z.div_add s 1 POOL_SIZE) by (unfold POOL_SIZE; lia); f_equal; lia).
  pose proof (Z.div_mod s POOL_SIZE ltac:(unfold POOL_SIZE; lia)).
  pose proof (Z.div_mod ptr POOL_SIZE ltac:(unfold POOL_SIZE; lia)).
  pose proof (Z.mod_pos_bound s POOL_SIZE ltac:(unfold POOL_SIZE; lia)).
  pose proof (Z.mod_pos_bound ptr POOL_SIZE ltac:(unfold POOL_SIZE; lia)).
  unfold POOL_SIZE in *. split; [nia | lia].
Qed.

(** ** Page maps *)

Lemma pmget_pmset_eq (l : list pagemap_t) (i : Z) (pm : pagemap_t) :
  0 ≤ i < Z.of_nat (length l) → pmget (pmset l i pm) i = pm.
Proof.
  intros Hi. unfold pmget, pmset. destruct (Z.leb_spec 0 i); [| lia].
  rewrite nth_lookup, list_lookup_insert_eq by lia. reflexivity.
Qed.

Lemma pmget_pmset_ne (l : list pagemap_t) (i j : Z) (pm : pagemap_t) :
  i ≠ j → pmget (pmset l i pm) j = pmget l j.
Proof.
  intros Hne. unfold pmget, pmset.
  destruct (Z.leb_spec 0 i); [| reflexivity].
  destruct (Z.leb_spec 0 j); [| reflexivity].
  rewrite !nth_lookup, list_lookup_insert_ne by lia. reflexivity.
Qed.

Lemma length_pmset (l : list pagemap_t) (i : Z) (pm : pagemap_t) :
  length (pmset l i pm) = length l.
Proof. unfold pmset. destruct (0 <=? i); [apply length_insert | reflexivity]. Qed.

Lemma zget_zset_eq (l : list Z) (i v : Z) :
  0 ≤ i < Z.of_nat (length l) → zget (zset l i v) i = v.
Proof.
  intros Hi. unfold zget, zset. destruct (Z.leb_spec 0 i); [| lia].
  rewrite nth_lookup, list_lookup_insert_eq by lia. reflexivity.
Qed.

Lemma get_page_set_page_eq (st : State) (h i : Z) (pm : pagemap_t) :
  0 ≤ i < Z.of_nat (length (pagemaps (pool_of st h))) →
  get_page (set_page (h, i) pm st) (h, i) = pm.
Proof.
  intros Hi. unfold get_page, set_page. cbn [fst snd].
  rewrite pool_of_set_pool_eq. unfold pagemaps at 1. cbn [tracking set_tracking].
  apply pmget_pmset_eq, Hi.
Qed.

(** A store to a page map leaves the bounds and the kind of every pool,
    the length of every page-map array and the registry alone. *)
Lemma pool_of_set_page (st : State) (pp : pagemap_ptr) (pm : pagemap_t) (h : Z) :
  let p := pool_of st h in
  let p' := pool_of (set_page pp pm st) h in
  pool_start p' = pool_start p ∧ pool_end p' = pool_end p ∧
  nextFreeIndex p' = nextFreeIndex p ∧ nextFreePage p' = nextFreePage p ∧
  length (pagemaps p') = length (pagemaps p).
Proof.
  cbv zeta. unfold set_page.
  destruct (decide (pp.1 = h)) as [<- | Hne].
  - rewrite pool_of_set_pool_eq.
    cbn [set_tracking pool_start pool_end nextFreeIndex nextFreePage].
    repeat split. unfold pagemaps at 1. cbn [tracking]. apply length_pmset.
  - rewrite pool_of_set_pool_ne by exact Hne. auto.
Qed.

Lemma find_pool_for_ptr_ext (st st' : State) (ptr : Z) :
  poolTree st' = poolTree st →
  (∀ h, pool_start (pool_of st' h) = pool_start (pool_of st h) ∧
        pool_end (pool_of st' h) = pool_end (pool_of st h)) →
  find_pool_for_ptr st' ptr = find_pool_for_ptr st ptr.
Proof.
  intros Ht Hb. rewrite !find_pool_for_ptr_entries, Ht. cbv zeta.
  destruct (tree_end (poolTree st) ptr) as [he |];
    destruct (tree_start (poolTree st) ptr) as [hs |];
    repeat match goal with
           | |- context [pool_of st' ?h] =>
               let H1 := fresh in let H2 := fresh in
               destruct (Hb h) as [H1 H2]; rewrite ?H1, ?H2; clear H1 H2
           end; reflexivity.
Qed.

Lemma find_pool_for_ptr_set_page (st : State) (pp : pagemap_ptr) (pm : pagemap_t) (ptr : Z) :
  find_pool_for_ptr (set_page pp pm st) ptr = find_pool_for_ptr st ptr.
Proof.
  apply find_pool_for_ptr_ext.
  - unfold set_page, set_pool, set_pools. reflexivity.
  - intros h. destruct (pool_of_set_page st pp pm h) as (H1 & H2 & _). auto.
Qed.

Lemma kind_of_set_page (st : State) (pp : pagemap_ptr) (pm : pagemap_t) (h : Z) :
  kind_of (pool_of (set_page pp pm st) h) = kind_of (pool_of st h).
Proof.
  destruct (pool_of_set_page st pp pm h) as (_ & _ & H & _).
  unfold kind_of. rewrite H. reflexivity.
Qed.

(** ** The small path *)

Lemma class_ok_inv (cls maxAlloc : Z) :
  class_ok cls maxAlloc = true →
  8 ≤ cls ∧ cls mod 8 = 0 ∧ 0 < maxAlloc ∧ maxAlloc * cls ≤ PAGE_SIZE ∧
  (64 <? maxAlloc) = (cls <? 64).
Proof.
  unfold class_ok. rewrite !andb_true_iff.
  intros ((((H1 & H2) & H3) & H4) & H5).
  apply Z.leb_le in H1. apply Z.eqb_eq in H2. apply Z.ltb_lt in H3.
  apply Z.leb_le in H4. apply eqb_prop in H5. auto.
Qed.

Lemma land_flags_class (cls f : Z) :
  0 ≤ cls < 2^64 → cls mod 8 = 0 → 0 ≤ f < 8 →
  Z.land (Z.lor cls f) (not64 7) = cls ∧ (Z.lor cls f <? 64) = (cls <? 64).
Proof.
  intros Hc Hm Hf.
  assert (Hl : Z.lor cls f = cls + f).
  { rewrite <- Z.add_nocarry_lor; [reflexivity |].
    apply Z.bits_inj'. intros n Hn. rewrite Z.land_spec, Z.bits_0.
    destruct (Z.ltb_spec n 3).
    - replace (Z.testbit cls n) with false; [reflexivity |].
      symmetry. rewrite <- (Z.mod_pow2_bits_low cls 3 n) by lia.
      change (2^3) with 8. rewrite Hm. apply Z.bits_0.
    - replace (Z.testbit f n) with false; [apply andb_false_r |].
      symmetry. destruct (Z.eq_dec f 0) as [-> | Hnz]; [apply Z.bits_0 |].
      apply Z.bits_above_log2; [lia |].
      apply Z.log2_lt_pow2; [lia |].
      apply Z.lt_le_trans with (2^3); [lia |]. apply Z.pow_le_mono_r; lia. }
  rewrite Hl. change 7 with (2^3 - 1).
  pose proof (Z.div_mod cls 8 ltac:(lia)).
  rewrite land_mask_eq by lia. change (2^3) with 8.
  assert ((cls + f) mod 8 = f).
  { rewrite Zplus_mod, Hm, Z.add_0_l, Z.mod_mod by lia. apply Z.mod_small. lia. }
  split; [lia |].
  destruct (Z.ltb_spec (cls + f) 64), (Z.ltb_spec cls 64); try reflexivity; lia.
Qed.

Lemma bitmap_set_bit (maxAlloc k : Z) (bm : bitmap_t) :
  bitmap_shape maxAlloc bm → 0 ≤ k < maxAlloc →
  let bm' := bitmap_set maxAlloc k bm in
  (if 64 <? maxAlloc
   then Z.testbit (zget (bm_array bm') (k / 64)) (k mod 64)
   else Z.testbit (bm_single bm') k) = true.
Proof.
  intros Hshape Hk. cbv zeta. unfold bitmap_set.
  destruct bm as [w | a]; cbn [bitmap_shape] in Hshape.
  - destruct (Z.leb_spec maxAlloc 64); [| lia].
    destruct (Z.ltb_spec 64 maxAlloc); [lia |].
    cbn [bm_single]. rewrite Z.lor_spec, Z.shiftl_1_l, Z.pow2_bits_true by lia.
    apply orb_true_r.
  - destruct Hshape as [Hm Hlen].
    destruct (Z.leb_spec maxAlloc 64); [lia |].
    destruct (Z.ltb_spec 64 maxAlloc); [| lia].
    cbn [bm_array].
    rewrite Z.shiftr_div_pow2 by lia. change (2^6) with 64.
    change 63 with (Z.ones 6). rewrite Z.land_ones by lia. change (2^6) with 64.
    assert (0 ≤ k / 64 < Z.of_nat (length a)).
    { split; [apply Z.div_pos; lia |].
      apply Z.lt_le_trans with (bitmap_words maxAlloc); [| exact Hlen].
      unfold bitmap_words. change 63 with (Z.ones 6).
      rewrite Z.land_ones, Z.shiftr_div_pow2 by lia. change (2^6) with 64.
      pose proof (Z.div_mod maxAlloc 64 ltac:(lia)).
      pose proof (Z.div_mod k 64 ltac:(lia)).
      pose proof (Z.mod_pos_bound maxAlloc 64 ltac:(lia)).
      pose proof (Z.mod_pos_bound k 64 ltac:(lia)).
      destruct (Z.eqb_spec (maxAlloc mod 64) 0); lia. }
    rewrite zget_zset_eq by assumption.
    pose proof (Z.mod_pos_bound k 64 ltac:(lia)).
    rewrite Z.lor_spec, Z.shiftl_1_l, Z.pow2_bits_true by lia.
    apply orb_true_r.
Qed.

(** A page of a small pool after [take_slot] has marked slot [k]. *)
Lemma marked_slot_live (st : State) (h i k cls maxAlloc : Z) :
  class_ok cls maxAlloc = true →
  small_pool_ok st h → 0 ≤ i < PAGEMAP_COUNT → 0 ≤ k < maxAlloc →
  page_start (get_page st (h, i)) = pool_start (pool_of st h) + i * PAGE_SIZE →
  Z.land (page_allocSize (get_page st (h, i))) (not64 7) = cls →
  (page_allocSize (get_page st (h, i)) <? 64) = (cls <? 64) →
  (if 64 <? maxAlloc
   then Z.testbit (zget (bm_array (page_bitmap (get_page st (h, i)))) (k / 64)) (k mod 64)
   else Z.testbit (bm_single (page_bitmap (get_page st (h, i)))) k) = true →
  let p := page_start (get_page st (h, i)) + k * cls in
  find_pool_for_ptr st p = Some h ∧ live_small st h p cls ∧ p ≠ 0 ∧
  slot_address p cls maxAlloc.
Proof.
  intros Hc (Hkind & Hlen & Hpos & Hal & Hend & Htop & Hreg) Hi Hk Hps Hcls Hlt Hbit.
  apply class_ok_inv in Hc. destruct Hc as (Hc8 & Hcm & Hm0 & Hfit & Harr).
  cbv zeta. set (pm := get_page st (h, i)) in *.
  set (s := pool_start (pool_of st h)) in *.
  unfold PAGEMAP_COUNT, POOL_SIZE, PAGE_SIZE in *.
  change (2097152 / 4096) with 512 in *.
  assert (Hkc : 0 ≤ k * cls < 4096) by nia.
  assert (Hpage : page_of st h (page_start pm + k * cls) = pm).
  { unfold page_of. fold s.
    replace (wrap64 (page_start pm + k * cls - s) / PAGE_SIZE) with i; [reflexivity |].
    rewrite Hps. unfold wrap64. rewrite Z.mod_small by lia.
    replace (s + i * 4096 + k * cls - s) with (k * cls + i * 4096) by lia.
    unfold PAGE_SIZE. rewrite Z.div_add by lia. rewrite Z.div_small by lia. lia. }
  assert (Hoff : wrap64 (page_start pm + k * cls - page_start pm) = k * cls).
  { unfold wrap64. rewrite Z.mod_small by lia. lia. }
  assert (Hslot : small_slot st h (page_start pm + k * cls) cls).
  { unfold small_slot. rewrite Hpage, Hoff. repeat split; auto; try lia.
    apply Z.mod_mul. lia. }
  split; [apply Hreg; fold s; lia |].
  split; [split; [exact Hslot |] |].
  - unfold slot_index, slot_bit. rewrite Hpage, Hoff, Z.div_mul by lia.
    rewrite Hlt, <- Harr. exact Hbit.
  - split; [lia |]. exists (page_start pm), k. repeat split; try lia.
    rewrite Hps. unfold PAGE_SIZE. rewrite Z.mod_add by lia. exact Hal.
Qed.

Lemma take_slot_spec (idx : Z) (tc : threadcache_t) (bin : bin_t) (st : State) :
  class_ok (bin_allocSize bin) (maxAlloc bin) = true → bin_ready st bin →
  ∃ st' h, take_slot idx tc bin st = Ok (nextAlloc bin) st' ∧
    find_pool_for_ptr st' (nextAlloc bin) = Some h ∧
    live_small st' h (nextAlloc bin) (bin_allocSize bin) ∧
    nextAlloc bin ≠ 0 ∧
    slot_address (nextAlloc bin) (bin_allocSize bin) (maxAlloc bin).
Proof.
  intros Hc (h & i & Hpg & Hpool & Hi & Hps & Hsz & Hshape & Hk & Hnext).
  pose proof (class_ok_inv _ _ Hc) as (Hc8 & Hcm & Hm0 & Hfit & Harr).
  unfold take_slot. rewrite Hpg. munfold.
  set (pm := get_page st (h, i)) in *.
  set (pm1 := mkPagemap (page_start pm) (page_allocSize pm)
                (bitmap_set (maxAlloc bin) (allocCount bin) (page_bitmap pm))).
  set (st1 := set_page (h, i) pm1 st).
  cbn [allocCount maxAlloc].
  assert (Hlen : 0 ≤ i < Z.of_nat (length (pagemaps (pool_of st h)))).
  { destruct Hpool as (_ & -> & _). unfold PAGEMAP_COUNT, POOL_SIZE, PAGE_SIZE in *.
    change (2097152 / 4096) with 512 in *. lia. }
  assert (Hp1 : get_page st1 (h, i) = pm1) by (apply get_page_set_page_eq, Hlen).
  assert (Hpool1 : ∀ pmx, small_pool_ok (set_page (h, i) pmx st) h).
  { intros pmx. destruct Hpool as (Hkind & Hl & Hpos & Hal & Hend & Htop & Hreg).
    destruct (pool_of_set_page st (h, i) pmx h) as (Hs' & He' & _ & _ & Hl').
    unfold small_pool_ok. rewrite kind_of_set_page, Hs', He', Hl'.
    repeat split; auto.
    intros ptr. rewrite Hs', He', find_pool_for_ptr_set_page. apply Hreg. }
  assert (Hfin : ∀ stf tcf,
             (stf = set_tcache0 tcf st1 ∨
              stf = set_tcache0 tcf
                      (set_page (h, i)
                         (mkPagemap (page_start pm1) (Z.lor (page_allocSize pm1) 4)
                                    (page_bitmap pm1)) st1)) →
             find_pool_for_ptr stf (nextAlloc bin) = Some h ∧
             live_small stf h (nextAlloc bin) (bin_allocSize bin) ∧
             nextAlloc bin ≠ 0 ∧
             slot_address (nextAlloc bin) (bin_allocSize bin) (maxAlloc bin)).
  { intros stf tcf Hstf.
    assert (Hgoal : ∀ st2, (st2 = st1 ∨ st2 = set_page (h, i)
                         (mkPagemap (page_start pm1) (Z.lor (page_allocSize pm1) 4)
                                    (page_bitmap pm1)) st1) →
             find_pool_for_ptr st2 (nextAlloc bin) = Some h ∧
             live_small st2 h (nextAlloc bin) (bin_allocSize bin) ∧
             nextAlloc bin ≠ 0 ∧
             slot_address (nextAlloc bin) (bin_allocSize bin) (maxAlloc bin)).
    { intros st2 Hst2.
      assert (Hlen1 : 0 ≤ i < Z.of_nat (length (pagemaps (pool_of st1 h)))).
      { destruct (pool_of_set_page st (h, i) pm1 h) as (_ & _ & _ & _ & Hl').
        unfold st1. rewrite Hl'. exact Hlen. }
      assert (Hpool2 : small_pool_ok st2 h ∧
                ∃ f, 0 ≤ f < 8 ∧
                  get_page st2 (h, i)
                  = mkPagemap (page_start pm) (Z.lor (bin_allocSize bin) f)
                              (bitmap_set (maxAlloc bin) (allocCount bin) (page_bitmap pm))).
      { destruct Hst2 as [-> | ->].
        - split; [apply Hpool1 |]. exists 0. split; [lia |].
          rewrite Hp1. unfold pm1. rewrite Z.lor_0_r, Hsz. reflexivity.
        - split.
          + destruct (Hpool1 pm1) as (Hkind & Hl & Hpos & Hal & Hend & Htop & Hreg).
            fold st1 in Hkind, Hl, Hpos, Hal, Hend, Htop, Hreg.
            destruct (pool_of_set_page st1 (h, i)
                        (mkPagemap (page_start pm1) (Z.lor (page_allocSize pm1) 4)
                                   (page_bitmap pm1)) h) as (Hs' & He' & _ & _ & Hl').
            unfold small_pool_ok. rewrite kind_of_set_page, Hs', He', Hl'.
            repeat split; auto.
            intros ptr. rewrite Hs', He', find_pool_for_ptr_set_page. apply Hreg.
          + exists 4. split; [lia |].
            rewrite get_page_set_page_eq by exact Hlen1.
            unfold pm1. cbn [page_start page_allocSize page_bitmap]. rewrite Hsz.
            reflexivity. }
      destruct Hpool2 as (Hpool2 & f & Hf & Hpm2).
      assert (Hs2 : pool_start (pool_of st2 h) = pool_start (pool_of st h)).
      { destruct Hst2 as [-> | ->]; unfold st1.
        - apply pool_of_set_page.
        - etransitivity; [apply pool_of_set_page |]. apply pool_of_set_page. }
      destruct (land_flags_class (bin_allocSize bin) f) as [Hland Hflt]; try lia.
      { unfold PAGE_SIZE in Hfit. nia. }
      rewrite Hnext.
      replace (page_start pm) with (page_start (get_page st2 (h, i)))
        by (rewrite Hpm2; reflexivity).
      apply (marked_slot_live st2 h i (allocCount bin) (bin_allocSize bin) (maxAlloc bin));
        auto; rewrite Hpm2; cbn [page_start page_allocSize page_bitmap]; auto.
      - rewrite Hs2. exact Hps.
      - apply bitmap_set_bit; auto. }
    destruct Hstf as [-> | ->].
    - apply (Hgoal st1). left. reflexivity.
    - apply (Hgoal (set_page (h, i) _ st1)). right. reflexivity. }
  destruct (Z.eqb_spec (allocCount bin + 1) (maxAlloc bin)).
  - eexists _, h. split; [reflexivity |]. eapply Hfin. right.
    rewrite Hp1. reflexivity.
  - eexists _, h. split; [reflexivity |]. eapply Hfin. left. reflexivity.
Qed.

(** ** Refilling the thread cache *)

Lemma stamp_fold (index nextFreePage : Z) (js : list Z) :
  ∀ (l : list pagemap_t) (i : Z),
    (∀ j, j ∈ js → 0 ≤ index + j < Z.of_nat (length l)) →
    pmget (foldl (λ l j, pmset l (index + j) (stamp nextFreePage j (pmget l (index + j))))
                 l js) i
    = if decide (i - index ∈ js) then stamp nextFreePage (i - index) (pmget l i)
      else pmget l i.
Proof.
  induction js as [| j js IH]; intros l i Hrng.
  - cbn [foldl]. rewrite decide_False by apply not_elem_of_nil. reflexivity.
  - cbn [foldl]. rewrite IH.
    2: { intros j' Hj'. rewrite length_pmset. apply Hrng. apply elem_of_cons. right. exact Hj'. }
    assert (Hjr : 0 ≤ index + j < Z.of_nat (length l)) by (apply Hrng; apply elem_of_cons; left; reflexivity).
    destruct (decide (i = index + j)) as [-> | Hne].
    + rewrite pmget_pmset_eq by exact Hjr.
      replace (index + j - index) with j by lia.
      rewrite (decide_True (P := j ∈ j :: js)) by (apply elem_of_cons; left; reflexivity).
      destruct (decide (j ∈ js)); reflexivity.
    + rewrite pmget_pmset_ne by congruence.
      destruct (decide (i - index ∈ js)) as [Hi | Hi].
      * rewrite decide_True by (apply elem_of_cons; right; exact Hi). reflexivity.
      * rewrite decide_False; [reflexivity |].
        intros [Heq | Hin']%elem_of_cons; [lia | contradiction].
Qed.

Lemma length_stamp_pages (pms : list pagemap_t) (index nextFreePage : Z) :
  length (stamp_pages pms index nextFreePage) = length pms.
Proof.
  unfold stamp_pages. generalize (seqZ 0 PAGES_PER_REFILL). intros js. revert pms.
  induction js as [| j js IH]; intros pms; [reflexivity |].
  cbn [foldl]. rewrite IH. apply length_pmset.
Qed.

Lemma pmget_stamp_pages (pms : list pagemap_t) (index nextFreePage i : Z) :
  0 ≤ index → index + PAGES_PER_REFILL ≤ Z.of_nat (length pms) →
  index ≤ i < index + PAGES_PER_REFILL →
  pmget (stamp_pages pms index nextFreePage) i = stamp nextFreePage (i - index) (pmget pms i).
Proof.
  intros H0 Hlen Hi. unfold stamp_pages.
  pose proof (stamp_fold index nextFreePage (seqZ 0 PAGES_PER_REFILL) pms i) as H.
  unfold stamp in H at 1. rewrite H.
  - apply decide_True. apply elem_of_seqZ. lia.
  - intros j Hj%elem_of_seqZ. lia.
Qed.

(** A pool of [POOL_SIZE] bytes entered in the tree above every start
    the tree knew is found from each of its addresses. *)
Lemma new_pool_registered (st : State) (T : gmap Z (gmap Z radixleaf_t)) (h a hw : Z) :
  poolTree st = tree_set_end (tree_set_start T a (Some h)) (a + POOL_SIZE) (Some h) →
  pool_start (pool_of st h) = a → pool_end (pool_of st h) = a + POOL_SIZE →
  (∀ q h2, tree_start T q = Some h2 → h2 ≠ h →
     same_prefix (pool_start (pool_of st h2)) q ∧ pool_start (pool_of st h2) < hw) →
  hw ≤ a →
  registered st h.
Proof.
  intros Htree Hs He Hold Hhw ptr. rewrite Hs, He. intros Hr.
  rewrite find_pool_for_ptr_entries, Htree. cbv zeta.
  rewrite tree_start_set_end, tree_start_set_start, tree_end_set_end.
  destruct (pool_prefixes a ptr Hr) as [Hor Hexcl].
  destruct (decide (same_prefix a ptr)) as [Ha | Ha].
  - rewrite Hs. destruct (Z.leb_spec a ptr); [reflexivity | lia].
  - destruct Hor as [? | Hb]; [contradiction |].
    rewrite decide_True by exact Hb. rewrite He.
    destruct (Z.ltb_spec ptr (a + POOL_SIZE)); [| lia].
    destruct (tree_start T ptr) as [h2 |] eqn:Hts; [| reflexivity].
    destruct (decide (h2 = h)) as [-> | Hne].
    + rewrite Hs. destruct (Z.leb_spec a ptr); [reflexivity | lia].
    + destruct (Hold ptr h2 Hts Hne) as [Hp Hlt].
      apply same_prefix_iff in Hp. apply same_prefix_iff in Hb.
      exfalso.
      replace ((a + POOL_SIZE) / POOL_SIZE) with (a / POOL_SIZE + 1) in Hb
        by (rewrite <- (Z.div_add a 1 POOL_SIZE) by (unfold POOL_SIZE; lia); f_equal; lia).
      pose proof (Z.div_mod a POOL_SIZE ltac:(unfold POOL_SIZE; lia)).
      pose proof (Z.div_mod (pool_start (pool_of st h2)) POOL_SIZE
                    ltac:(unfold POOL_SIZE; lia)).
      pose proof (Z.mod_pos_bound a POOL_SIZE ltac:(unfold POOL_SIZE; lia)).
      pose proof (Z.mod_pos_bound (pool_start (pool_of st h2)) POOL_SIZE
                    ltac:(unfold POOL_SIZE; lia)).
      unfold POOL_SIZE in *. lia.
Qed.

(** [create_pagepool] on a descriptor: a failure leaves the descriptor
    alone; a success maps [POOL_SIZE] bytes at or above the highwater
    mark and fills the descriptor in. *)
Lemma create_pagepool_spec (h : Z) (st st' : State) (r : Z) :
  create_pagepool h st = Ok r st' →
  r = -1 ∨
  ∃ a st1, os_alloc_highwater POOL_SIZE st = Ok (Some a) st1 ∧ r = 0 ∧
    st' = set_pool h
            (mkPool a (a + POOL_SIZE) a
               (PageMaps (replicate (Z.to_nat PAGEMAP_COUNT) zero_pagemap))
               SIZE_MAX a (a + POOL_SIZE)) st1 ∧
    a mod PAGE_SIZE = 0 ∧ MMAP_MIN_ADDR ≤ a ∧ a + POOL_SIZE ≤ TASK_SIZE ∧
    poolHighWater st ≤ a ∧ a < poolHighWater st1.
Proof.
  unfold create_pagepool. intros Hrun.
  apply bind_ok in Hrun as (res & st1 & Hos & Hk).
  destruct res as [a |].
  - right. apply bind_ok in Hk as ([] & st2 & Hmod & Hret).
    apply modify_ok in Hmod. apply ret_ok in Hret as [-> ->].
    destruct (os_alloc_highwater_spec _ _ _ _ Hos) as (_ & _ & Hmap).
    destruct (Hmap a eq_refl) as (Hal & Hmin & Htop & _).
    destruct (os_alloc_highwater_above POOL_SIZE st st1 a ltac:(unfold POOL_SIZE; lia) Hos)
      as [Hlo Hhw].
    assert (Hw : wrap64 (a + POOL_SIZE) = a + POOL_SIZE).
    { unfold wrap64. apply Z.mod_small.
      unfold MMAP_MIN_ADDR, TASK_SIZE, POOL_SIZE in *. lia. }
    rewrite Hw in Hmod.
    exists a, st1. repeat split; auto.
    unfold POOL_SIZE in *. lia.
  - left. apply ret_ok in Hk as [-> _]. reflexivity.
Qed.

Lemma refill_pool_keep (fuel : nat) (h nfp : Z) (st : State) :
  nfp + REFILL_BYTES ≤ pool_end (pool_of st h) →
  refill_pool fuel h nfp st = Ok (h, nfp) st.
Proof.
  intros Hroom. destruct fuel; cbn [refill_pool]; munfold;
    (destruct (Z.ltb_spec (pool_end (pool_of st h)) (nfp + REFILL_BYTES)); [lia | reflexivity]).
Qed.

(** The other way through the loop of [assign_pages_to_tcache]: the
    pool has no [PAGES_PER_REFILL] pages left, a new pool is created,
    registered, put at the head of the small list, and gives its first
    pages. *)
Lemma refill_pool_new (fuel : nat) (h nfp : Z) (st st' : State) (r : Z * Z) :
  pool_end (pool_of st h) < nfp + REFILL_BYTES →
  refill_pool (S fuel) h nfp st = Ok r st' →
  let h' := nextHandle st in
  ∃ a, r = (h', a) ∧
    pool_of st' h'
    = mkPool a (a + POOL_SIZE) (wrap64 (a + REFILL_BYTES))
        (PageMaps (replicate (Z.to_nat PAGEMAP_COUNT) zero_pagemap))
        SIZE_MAX a (a + POOL_SIZE) ∧
    (∀ h2, h2 ≠ h' → pool_of st' h2 = pool_of st h2) ∧
    poolTree st'
    = tree_set_end (tree_set_start (poolTree st) a (Some h')) (a + POOL_SIZE) (Some h') ∧
    a mod PAGE_SIZE = 0 ∧ MMAP_MIN_ADDR ≤ a ∧ a + POOL_SIZE ≤ TASK_SIZE ∧
    poolHighWater st ≤ a ∧ a < poolHighWater st' ∧
    isInit st' = isInit st ∧ tcache0 st' = tcache0 st.
Proof.
  intros Hfull Hrun. cbv zeta. cbn [refill_pool] in Hrun.
  apply bind_ok in Hrun as (s0 & s0' & Hget & Hrun).
  apply get_ok in Hget as [-> ->].
  destruct (Z.ltb_spec (pool_end (pool_of st h)) (nfp + REFILL_BYTES)); [| lia].
  apply bind_ok in Hrun as (h' & st1 & Halloc & Hrun).
  unfold ffmetadata_alloc_pool in Halloc. injection Halloc as <- <-.
  set (h' := nextHandle st) in *.
  apply bind_ok in Hrun as (rc & st2 & Hcreate & Hrun).
  destruct (create_pagepool_spec _ _ _ _ Hcreate)
    as [-> | (a & sto & Hos & -> & -> & Hal & Hmin & Htop & Hlo & Hhi)].
  { cbn [Z.eqb Z.opp Pos.eqb] in Hrun.
    apply bind_ok in Hrun as (? & ? & _ & Hab). discriminate. }
  cbn [Z.eqb Z.opp] in Hrun.
  destruct (os_alloc_highwater_spec _ _ _ _ Hos)
    as ((Hinit & _ & Htree & Hpools & _ & Harena & Htc & _) & _ & _).
  apply bind_ok in Hrun as ([] & st3 & Hadd & Hrun). apply modify_ok in Hadd.
  apply bind_ok in Hrun as ([] & st4 & Hlist & Hrun). apply modify_ok in Hlist.
  apply bind_ok in Hrun as (next & st5 & Hadv & Hrun).
  unfold advance_nextFreePage in Hadv. injection Hadv as <- <-.
  set (newPool := mkPool a (a + POOL_SIZE) a
                    (PageMaps (replicate (Z.to_nat PAGEMAP_COUNT) zero_pagemap))
                    SIZE_MAX a (a + POOL_SIZE)) in *.
  assert (Hp3 : ∀ h2, pool_of st3 h2 = pool_of (set_pool h' newPool sto) h2)
    by (intros h2; rewrite Hadd; reflexivity).
  assert (Hp4 : ∀ h2, pool_of st4 h2 = pool_of (set_pool h' newPool sto) h2)
    by (intros h2; rewrite Hlist; apply Hp3).
  subst newPool.
  rewrite (Hp4 h'), pool_of_set_pool_eq in Hrun.
  cbn [nextFreePage set_nextFreePage pool_start pool_end tracking nextFreeIndex
       startInUse endInUse] in Hrun.
  rewrite refill_pool_keep in Hrun.
  2: { rewrite pool_of_set_pool_eq. cbn [pool_end set_nextFreePage].
       unfold REFILL_BYTES, PAGES_PER_REFILL, PAGE_SIZE, POOL_SIZE. lia. }
  injection Hrun as <- <-.
  exists a. split; [reflexivity |].
  split; [apply pool_of_set_pool_eq |].
  split.
  { intros h2 Hne. rewrite pool_of_set_pool_ne by congruence.
    rewrite Hp4, pool_of_set_pool_ne by congruence.
    unfold pool_of. rewrite Hpools. cbn [pools set_nextHandle set_pool set_pools].
    rewrite lookup_insert_ne by congruence. reflexivity. }
  split.
  { cbn [poolTree set_pool set_pools]. rewrite Hlist. cbn [poolTree set_arena0].
    rewrite Hadd. cbn [poolTree set_poolCount set_poolTree].
    rewrite pool_of_set_pool_eq. cbn [pool_start pool_end poolTree set_pool set_pools].
    rewrite Htree. reflexivity. }
  repeat split; auto.
  - cbn [poolHighWater set_pool set_pools]. rewrite Hlist. cbn [poolHighWater set_arena0].
    rewrite Hadd. cbn [poolHighWater set_poolCount set_poolTree set_pool set_pools].
    exact Hhi.
  - cbn [isInit set_pool set_pools]. rewrite Hlist. cbn [isInit set_arena0].
    rewrite Hadd. cbn [isInit set_poolCount set_poolTree set_pool set_pools].
    rewrite Hinit. reflexivity.
  - cbn [tcache0 set_pool set_pools]. rewrite Hlist. cbn [tcache0 set_arena0].
    rewrite Hadd. cbn [tcache0 set_poolCount set_poolTree set_pool set_pools].
    rewrite Htc. reflexivity.
Qed.

(** A store to a descriptor that keeps its bounds, its kind and the
    size of its page-map array keeps every small pool in order. *)
Lemma small_pool_ok_set_pool (st : State) (h h0 : Z) (p' : pagepool_t) :
  small_pool_ok st h0 →
  pool_start p' = pool_start (pool_of st h) → pool_end p' = pool_end (pool_of st h) →
  nextFreeIndex p' = nextFreeIndex (pool_of st h) →
  length (pagemaps p') = length (pagemaps (pool_of st h)) →
  small_pool_ok (set_pool h p' st) h0.
Proof.
  intros (Hkind & Hl & Hpos & Hal & Hend & Htop & Hreg) Hs He Hn Hlen.
  assert (Hb : ∀ h2, pool_start (pool_of (set_pool h p' st) h2) = pool_start (pool_of st h2) ∧
                     pool_end (pool_of (set_pool h p' st) h2) = pool_end (pool_of st h2)).
  { intros h2. destruct (decide (h = h2)) as [<- | Hne].
    - rewrite pool_of_set_pool_eq. auto.
    - rewrite pool_of_set_pool_ne by exact Hne. auto. }
  destruct (Hb h0) as [Hs0 He0].
  unfold small_pool_ok. rewrite Hs0, He0.
  assert (Hk0 : kind_of (pool_of (set_pool h p' st) h0) = kind_of (pool_of st h0) ∧
                length (pagemaps (pool_of (set_pool h p' st) h0))
                = length (pagemaps (pool_of st h0))).
  { destruct (decide (h = h0)) as [<- | Hne].
    - rewrite pool_of_set_pool_eq. unfold kind_of. rewrite Hn. auto.
    - rewrite pool_of_set_pool_ne by exact Hne. auto. }
  destruct Hk0 as [-> ->].
  repeat split; auto.
  intros ptr. rewrite Hs0, He0. intros Hr.
  rewrite (find_pool_for_ptr_ext st); [apply Hreg, Hr | reflexivity | exact Hb].
Qed.

Lemma pmget_replicate (n : nat) (pm : pagemap_t) (i : Z) :
  0 ≤ i < Z.of_nat n → pmget (replicate n pm) i = pm.
Proof.
  intros Hi. unfold pmget. destruct (Z.leb_spec 0 i); [| lia].
  rewrite nth_lookup, lookup_replicate_2 by lia. reflexivity.
Qed.

(** [assign_pages_to_tcache] hands the cache [PAGES_PER_REFILL] blank
    pages, stamped with their addresses, of the head pool or of a pool
    it creates. *)
Lemma assign_pages_to_tcache_spec (tbins : list bin_t) (st st' : State)
    (tc : threadcache_t) :
  head_ok st → tree_ok st →
  assign_pages_to_tcache tbins st = Ok tc st' →
  bins tc = tbins ∧ nextUnusedPage tc < endUnusedPage tc ∧ reserve_ok st' tc ∧
  isInit st' = isInit st ∧ tcache0 st' = tcache0 st.
Proof.
  intros (h & rest & j & Hlist & Hpool & Hj & Hnfp & Hfresh) Htree Hrun.
  pose proof Hpool as (Hkind & Hl & Hpos & Hal & Hend & Htop & Hreg).
  unfold assign_pages_to_tcache in Hrun.
  apply bind_ok in Hrun as (s0 & s0' & Hget & Hrun). apply get_ok in Hget as [-> ->].
  rewrite Hlist in Hrun.
  apply bind_ok in Hrun as (nfp & st1 & Hadv & Hrun).
  unfold advance_nextFreePage in Hadv. injection Hadv as <- <-.
  set (p := pool_of st h) in *.
  set (p1 := set_nextFreePage (wrap64 (nextFreePage p + REFILL_BYTES)) p) in *.
  set (st1 := set_pool h p1 st) in *.
  apply bind_ok in Hrun as (pn & st2 & Hrefill & Hrun).
  apply bind_ok in Hrun as (s0 & s0' & Hget & Hrun). apply get_ok in Hget as [-> ->].
  apply bind_ok in Hrun as ([] & st3 & Hmod & Hrun). apply modify_ok in Hmod.
  apply ret_ok in Hrun as [-> ->].
  cbn [bins nextUnusedPage endUnusedPage unusedPool].
  split; [reflexivity |]. split; [unfold PAGES_PER_REFILL; lia |].
  assert (Hp1 : pool_of st1 h = p1) by apply pool_of_set_pool_eq.
  unfold PAGEMAP_COUNT, POOL_SIZE, PAGE_SIZE, REFILL_BYTES, PAGES_PER_REFILL in *.
  change (2097152 / 4096) with 512 in *. change (Z.to_nat 512) with 512%nat in *.
  destruct (Z.lt_ge_cases (pool_end (pool_of st1 h)) (nextFreePage p + 128 * 4096))
    as [Hfull | Hroom].
  - (* a new pool *)
    destruct (refill_pool_new _ _ _ _ _ _ Hfull Hrefill)
      as (a & -> & Hp2 & Hother & Htree2 & Haal & Hmin & Hatop & Hlo & Hhi & Hinit & Htc).
    cbn [fst snd] in *. set (h' := nextHandle st1) in *.
    rewrite Hp2 in Hmod. cbn [pool_start pagemaps tracking] in Hmod.
    rewrite Z.sub_diag in Hmod. change (0 / 4096) with 0 in Hmod.
    rewrite Hp2, Z.sub_diag. cbn [pool_start]. change (0 / 4096) with 0.
    unfold MMAP_MIN_ADDR, TASK_SIZE, PAGEMAP_COUNT, POOL_SIZE, PAGE_SIZE, REFILL_BYTES,
      PAGES_PER_REFILL in *.
    change (2097152 / 4096) with 512 in *. change (Z.to_nat 512) with 512%nat in *.
    assert (Hpf : pool_of st3 h'
                  = set_tracking
                      (PageMaps (stamp_pages (replicate 512 zero_pagemap) 0 a))
                      (mkPool a (a + 2097152) (wrap64 (a + 128 * 4096))
                         (PageMaps (replicate 512 zero_pagemap)) SIZE_MAX a (a + 2097152))).
    { rewrite Hmod. apply pool_of_set_pool_eq. }
    split; [| split; [rewrite Hmod; exact Hinit | rewrite Hmod; exact Htc]].
    intros _. cbn [unusedPool nextUnusedPage endUnusedPage].
    unfold PAGEMAP_COUNT, POOL_SIZE, PAGE_SIZE. change (2097152 / 4096) with 512.
    assert (Hok : small_pool_ok st3 h').
    { unfold small_pool_ok. rewrite Hpf.
      cbn [set_tracking pool_start pool_end nextFreeIndex pagemaps tracking].
      rewrite length_stamp_pages, length_replicate.
      split; [reflexivity |]. split; [reflexivity |].
      split; [lia |]. split; [exact Haal |]. split; [reflexivity |]. split; [lia |].
      apply (new_pool_registered st3 (poolTree st1) h' a (poolHighWater st1)).
      - rewrite Hmod. exact Htree2.
      - rewrite Hpf. reflexivity.
      - rewrite Hpf. reflexivity.
      - intros q h2 Hq Hne.
        assert (Hh2 : pool_start (pool_of st3 h2) = pool_start (pool_of st h2)).
        { rewrite Hmod, pool_of_set_pool_ne by congruence.
          rewrite Hother by exact Hne. unfold st1.
          destruct (decide (h = h2)) as [<- | Hne2].
          - rewrite pool_of_set_pool_eq. reflexivity.
          - rewrite pool_of_set_pool_ne by exact Hne2. reflexivity. }
        rewrite Hh2. apply Htree. exact Hq.
      - exact Hlo. }
    split; [exact Hok |]. split; [lia |]. split; [lia |].
    intros i Hi. unfold get_page. cbn [fst snd]. rewrite Hpf.
    cbn [set_tracking pool_start pagemaps tracking].
    rewrite pmget_stamp_pages.
    2: lia.
    2: { rewrite length_replicate. unfold PAGES_PER_REFILL. lia. }
    2: { unfold PAGES_PER_REFILL. lia. }
    rewrite pmget_replicate by lia. unfold stamp.
    cbn [page_start page_bitmap zero_pagemap]. split; [| exists 0; reflexivity].
    unfold wrap64, PAGE_SIZE. rewrite Z.mod_small by lia. lia.
  - (* the head pool has room *)
    rewrite refill_pool_keep in Hrefill
      by (unfold REFILL_BYTES, PAGES_PER_REFILL, PAGE_SIZE; lia).
    injection Hrefill as <- <-. cbn [fst snd] in *.
    rewrite Hp1 in Hroom, Hmod |- *.
    cbn [p1 set_nextFreePage pool_start pool_end pagemaps tracking] in Hroom, Hmod |- *.
    fold p in Hnfp, Hend, Hpos, Hal, Htop, Hl.
    assert (Hidx : (nextFreePage p - pool_start p) / 4096 = j).
    { rewrite Hnfp. replace (pool_start p + j * 4096 - pool_start p) with (j * 4096) by lia.
      apply Z.div_mul. lia. }
    rewrite Hidx in Hmod |- *.
    split; [| split; rewrite Hmod; reflexivity].
    intros _. cbn [unusedPool nextUnusedPage endUnusedPage].
    unfold PAGEMAP_COUNT, POOL_SIZE, PAGE_SIZE. change (2097152 / 4096) with 512.
    assert (Hok : small_pool_ok st3 h).
    { rewrite Hmod. apply small_pool_ok_set_pool.
      - apply small_pool_ok_set_pool; auto.
      - rewrite Hp1. reflexivity.
      - rewrite Hp1. reflexivity.
      - rewrite Hp1. reflexivity.
      - rewrite Hp1. unfold pagemaps at 1. cbn [tracking set_tracking].
        rewrite length_stamp_pages.
        reflexivity. }
    split; [exact Hok |]. split; [lia |]. split; [lia |].
    assert (Hpm : pagemaps (pool_of st3 h) = stamp_pages (pagemaps p) j (nextFreePage p))
      by (rewrite Hmod, pool_of_set_pool_eq; reflexivity).
    assert (Hs3 : pool_start (pool_of st3 h) = pool_start p)
      by (rewrite Hmod, pool_of_set_pool_eq; reflexivity).
    intros i Hi. unfold get_page. cbn [fst snd]. rewrite Hpm, Hs3.
    rewrite pmget_stamp_pages.
    2: lia.
    2: { unfold PAGES_PER_REFILL. rewrite Hl. lia. }
    2: { unfold PAGES_PER_REFILL. lia. }
    unfold stamp. cbn [page_start page_bitmap]. split.
    + rewrite Hnfp. unfold wrap64, PAGE_SIZE. rewrite Z.mod_small by lia. lia.
    + destruct (Hfresh i) as [w Hw]; [| exists w; exact Hw].
      unfold PAGEMAP_COUNT, POOL_SIZE, PAGE_SIZE. change (2097152 / 4096) with 512. lia.
Qed.

(** ** Small allocations *)

Lemma small_pool_ok_set_page (st : State) (pp : pagemap_ptr) (pm : pagemap_t) (h : Z) :
  small_pool_ok st h → small_pool_ok (set_page pp pm st) h.
Proof.
  intros Hok. unfold set_page. apply small_pool_ok_set_pool; [exact Hok | | | |];
    try reflexivity.
  unfold pagemaps at 1. cbn [tracking set_tracking]. apply length_pmset.
Qed.

Lemma bitmap_words_nonneg (maxAlloc : Z) : 0 ≤ maxAlloc → 0 ≤ bitmap_words maxAlloc.
Proof.
  intros H. unfold bitmap_words. rewrite Z.shiftr_div_pow2 by lia.
  pose proof (Z.div_pos maxAlloc (2^6) H ltac:(lia)).
  destruct (Z.land maxAlloc 63 =? 0); lia.
Qed.

(** [refill_bin] gives the bin the next blank page of the cache. *)
Lemma refill_bin_spec (tc tc' : threadcache_t) (bin bin' : bin_t) (st st' : State) :
  reserve_ok st tc →
  (endUnusedPage tc ≤ nextUnusedPage tc → head_ok st ∧ tree_ok st) →
  0 < maxAlloc bin →
  refill_bin tc bin st = Ok (tc', bin') st' →
  bin_ready st' bin' ∧ bin_allocSize bin' = bin_allocSize bin ∧
  maxAlloc bin' = maxAlloc bin ∧ isInit st' = isInit st.
Proof.
  intros Hres Hhead Hmax Hrun. unfold refill_bin in Hrun.
  apply bind_ok in Hrun as (tc1 & st1 & Hassign & Hrun).
  assert (Hres1 : nextUnusedPage tc1 < endUnusedPage tc1 ∧ reserve_ok st1 tc1 ∧
                  isInit st1 = isInit st).
  { destruct (Z.leb_spec (endUnusedPage tc) (nextUnusedPage tc)) as [Hempty | Hsome].
    - destruct (Hhead Hempty) as [Hh Ht].
      destruct (assign_pages_to_tcache_spec _ _ _ _ Hh Ht Hassign) as (_ & ? & ? & ? & _).
      auto.
    - apply ret_ok in Hassign as [-> ->]. auto. }
  destruct Hres1 as (Hlt & Hres1 & Hinit).
  destruct (Hres1 Hlt) as (Hpool & Hlo & Hhi & Hpages).
  set (u := unusedPool tc1) in *. set (i := nextUnusedPage tc1) in *.
  destruct (Hpages i ltac:(lia)) as (Hps & w & Hbm).
  apply bind_ok in Hrun as ([] & st2 & Hmod & Hrun). apply modify_ok in Hmod.
  apply bind_ok in Hrun as (s0 & s0' & Hget & Hrun). apply get_ok in Hget as [-> ->].
  apply ret_ok in Hrun as [[= -> ->] ->].
  cbn [bin_allocSize maxAlloc].
  split; [| split; [reflexivity | split; [reflexivity | rewrite Hmod; exact Hinit]]].
  assert (Hlen : 0 ≤ i < Z.of_nat (length (pagemaps (pool_of st1 u)))).
  { destruct Hpool as (_ & -> & _). unfold PAGEMAP_COUNT, POOL_SIZE, PAGE_SIZE in *.
    change (2097152 / 4096) with 512 in *. lia. }
  assert (Hpg : get_page st2 (u, i)
                = mkPagemap (page_start (get_page st1 (u, i))) (bin_allocSize bin)
                    (if 64 <? maxAlloc bin
                     then BmArray (replicate (Z.to_nat (bitmap_words (maxAlloc bin))) 0)
                     else page_bitmap (get_page st1 (u, i)))).
  { rewrite Hmod. apply get_page_set_page_eq, Hlen. }
  exists u, i. cbn [bin_page bin_allocSize maxAlloc allocCount nextAlloc].
  rewrite Hpg. cbn [page_start page_allocSize page_bitmap].
  split; [reflexivity |].
  split; [rewrite Hmod; apply small_pool_ok_set_page, Hpool |].
  split; [lia |].
  split.
  { rewrite Hps, Hmod. f_equal. symmetry. apply pool_of_set_page. }
  split; [reflexivity |].
  split; [| split; lia].
  destruct (Z.ltb_spec 64 (maxAlloc bin)).
  - cbn [bitmap_shape]. split; [lia |].
    rewrite length_replicate, Z2Nat.id by (apply bitmap_words_nonneg; lia). lia.
  - rewrite Hbm. cbn [bitmap_shape]. lia.
Qed.

(** *** The class table *)

Lemma range_check (f : Z → bool) (lo n : Z) :
  forallb f (seqZ lo n) = true → ∀ i, lo ≤ i < lo + n → f i = true.
Proof.
  intros Hall i Hi. rewrite forallb_forall in Hall. apply Hall.
  apply list_elem_of_In, elem_of_seqZ. exact Hi.
Qed.

(** Every bin of a new thread cache reads as full. *)
Lemma init_bins_full (b : bool) (idx : Z) :
  0 ≤ idx < BIN_COUNT b →
  allocCount (binget (init_bins b) idx) = maxAlloc (binget (init_bins b) idx).
Proof.
  intros Hi.
  apply Z.eqb_eq.
  apply (range_check
           (λ i, allocCount (binget (init_bins b) i) =? maxAlloc (binget (init_bins b) i))
           0 (BIN_COUNT b)); [| lia].
  destruct b; vm_compute; reflexivity.
Qed.

(** Every small size, a multiple of 8 up to [HALF_PAGE], selects a bin
    of the table, and the class of that bin is in order. *)
Lemma small_classes (b : bool) (size : Z) :
  8 ≤ size ≤ HALF_PAGE → size mod 8 = 0 →
  0 ≤ GET_BIN b size < BIN_COUNT b ∧
  class_ok (class_of b (GET_BIN b size)) (slots_of b (GET_BIN b size)) = true.
Proof.
  intros Hs Hm. unfold HALF_PAGE in Hs.
  pose proof (Z.div_mod size 8 ltac:(lia)) as Hd.
  assert (Hk : 1 ≤ size / 8 < 1 + 256) by lia.
  pose proof (range_check (small_class_check b) 1 256
                ltac:(destruct b; vm_compute; reflexivity) (size / 8) Hk) as Hc.
  unfold small_class_check in Hc.
  replace (8 * (size / 8)) with size in Hc by lia.
  rewrite !andb_true_iff in Hc. destruct Hc as [[H1 H2] H3].
  apply Z.leb_le in H1. apply Z.ltb_lt in H2. auto.
Qed.

(** The smallest class is 8 bytes in both builds. *)
Lemma class_of_eight (b : bool) :
  class_of b (GET_BIN b 8) = 8 ∧ slots_of b (GET_BIN b 8) = 512.
Proof. destruct b; vm_compute; auto. Qed.


(** *** [get_threadcache] and [ffmalloc_small] *)

Lemma get_threadcache_spec (b : bool) (st st' : State) (tc : threadcache_t) :
  small_inv b st → get_threadcache b st = Ok tc st' →
  tcache_ok b st' tc ∧
  (endUnusedPage tc ≤ nextUnusedPage tc → head_ok st' ∧ tree_ok st') ∧
  isInit st' = 1.
Proof.
  intros (Hinit & Hhw & Hhead & Htree & Htc) Hrun. unfold get_threadcache in Hrun.
  apply bind_ok in Hrun as (s0 & s0' & Hget & Hrun). apply get_ok in Hget as [-> ->].
  destruct (tcache0 st) as [tc0 |].
  - apply ret_ok in Hrun as [-> ->]. auto.
  - apply bind_ok in Hrun as (tc1 & st1 & Hassign & Hrun).
    apply bind_ok in Hrun as ([] & st2 & Hmod & Hrun). apply modify_ok in Hmod.
    apply ret_ok in Hrun as [-> ->].
    destruct (assign_pages_to_tcache_spec _ _ _ _ Hhead Htree Hassign)
      as (Hbins & Hlt & Hres & Hi & _).
    subst st2. split; [split |].
    + intros idx Hidx. rewrite Hbins. unfold class_of, slots_of.
      split; [reflexivity |]. split; [reflexivity |].
      left. apply init_bins_full, Hidx.
    + exact Hres.
    + split; [lia |]. cbn [isInit set_tcache0]. congruence.
Qed.

(** A small allocation in a state in order returns a slot of a page of
    the class of its bin, marked live in the page's bitmap and resolved
    by the registry. *)
Lemma ffmalloc_small_spec (b : bool) (size : Z) (st st' : State) (p : Z) :
  small_inv b st →
  0 ≤ GET_BIN b size < BIN_COUNT b →
  class_ok (class_of b (GET_BIN b size)) (slots_of b (GET_BIN b size)) = true →
  ffmalloc_small b size st = Ok p st' →
  p ≠ 0 ∧
  slot_address p (class_of b (GET_BIN b size)) (slots_of b (GET_BIN b size)) ∧
  ∃ h, find_pool_for_ptr st' p = Some h ∧
       live_small st' h p (class_of b (GET_BIN b size)).
Proof.
  intros Hinv Hidx Hc Hrun. unfold ffmalloc_small in Hrun.
  apply bind_ok in Hrun as (tc & st1 & Hget & Hrun).
  destruct (get_threadcache_spec _ _ _ _ Hinv Hget) as ((Hbins & Hres) & Hhead & Hinit).
  destruct (Hbins _ Hidx) as (Hcls & Hmax & Hstate).
  set (bin := binget (bins tc) (GET_BIN b size)) in *.
  apply bind_ok in Hrun as ([tc2 bin2] & st2 & Hrefill & Hrun). cbn [fst snd] in Hrun.
  pose proof (class_ok_inv _ _ Hc) as (_ & _ & Hm0 & _).
  assert (Hmb : 0 < maxAlloc bin) by lia.
  assert (Hready : bin_ready st2 bin2 ∧ bin_allocSize bin2 = bin_allocSize bin ∧
                   maxAlloc bin2 = maxAlloc bin).
  { destruct (Z.eqb_spec (allocCount bin) (maxAlloc bin)) as [Hfull | Hpart].
    - destruct (refill_bin_spec _ _ _ _ _ _ Hres Hhead Hmb Hrefill)
        as (? & ? & ? & _). auto.
    - apply ret_ok in Hrefill as [[= -> ->] ->].
      destruct Hstate as [? | ?]; [contradiction | auto]. }
  destruct Hready as (Hready & Hcls2 & Hmax2).
  destruct (take_slot_spec (GET_BIN b size) tc2 bin2 st2)
    as (st3 & h & Htake & Hfind & Hlive & Hnz & Haddr);
    [rewrite Hcls2, Hmax2, Hcls, Hmax; exact Hc | exact Hready |].
  rewrite Htake in Hrun. injection Hrun as <- <-.
  rewrite Hcls2, Hcls in Hlive, Haddr. rewrite Hmax2, Hmax in Haddr.
  split; [exact Hnz |]. split; [exact Haddr |]. exists h. auto.
Qed.

(** ** The reference state is in order *)

(** A pool of [POOL_SIZE] bytes with its two entries in the tree, and
    no other pool starting inside it, is found from each of its
    addresses. *)
Lemma registered_intro (st : State) (h : Z) :
  let s := pool_start (pool_of st h) in
  pool_end (pool_of st h) = s + POOL_SIZE →
  tree_start (poolTree st) s = Some h →
  tree_end (poolTree st) (s + POOL_SIZE) = Some h →
  (∀ h2, tree_start (poolTree st) (s + POOL_SIZE) = Some h2 →
         h2 = h ∨ s + POOL_SIZE ≤ pool_start (pool_of st h2)) →
  registered st h.
Proof.
  intros s He Hs Hend Hnext ptr. rewrite He. fold s. intros Hr.
  rewrite find_pool_for_ptr_entries. cbv zeta.
  destruct (pool_prefixes s ptr Hr) as [[Ha | Hb] _].
  - rewrite (tree_start_prefix _ _ _ Ha), Hs. fold s.
    destruct (Z.leb_spec s ptr); [reflexivity | lia].
  - rewrite (tree_start_prefix _ _ _ Hb), (tree_end_prefix _ _ _ Hb), Hend, He. fold s.
    destruct (Z.ltb_spec ptr (s + POOL_SIZE)); [| lia].
    destruct (tree_start (poolTree st) (s + POOL_SIZE)) as [h2 |]; [| reflexivity].
    destruct (Hnext h2 eq_refl) as [-> | Hge].
    + fold s. destruct (Z.leb_spec s ptr); [reflexivity | lia].
    + destruct (Z.leb_spec (pool_start (pool_of st h2)) ptr); [lia | reflexivity].
Qed.

Lemma tree_ok_intro (st : State) : tree_check st = true → tree_ok st.
Proof.
  unfold tree_check. rewrite forallb_forall. intros Hall q h Hq.
  unfold tree_start, leaf_at in Hq.
  destruct (poolTree st !! stem_index q) as [stem |] eqn:H1; [| discriminate].
  cbn [mbind option_bind] in Hq.
  destruct (stem !! leaf_index q) as [leaf |] eqn:H2; [| discriminate].
  cbn [mbind option_bind] in Hq.
  apply elem_of_map_to_list, list_elem_of_In in H1, H2, Hq.
  pose proof (Hall _ H1) as Hstem. cbn [fst snd] in Hstem.
  rewrite forallb_forall in Hstem.
  pose proof (Hstem _ H2) as Hleaf. cbn [fst snd] in Hleaf.
  rewrite forallb_forall in Hleaf.
  pose proof (Hleaf _ Hq) as He. cbn [fst snd] in He.
  unfold start_entry_ok in He. rewrite !andb_true_iff in He.
  destruct He as (((E1 & E2) & E3) & E4).
  apply Z.eqb_eq in E1, E2, E3. apply Z.ltb_lt in E4.
  split; [repeat split; assumption | exact E4].
Qed.

Lemma small_inv_st_init (b : bool) : small_inv b st_init.
Proof.
  split; [vm_compute; reflexivity |].
  split; [vm_compute; discriminate |].
  split; [| split; [apply tree_ok_intro; vm_compute; reflexivity | exact I]].
  exists 1, [], 0. split; [vm_compute; reflexivity |].
  split; [| split; [vm_compute; split; discriminate | split; [vm_compute; reflexivity |]]].
  - split; [vm_compute; reflexivity |]. split; [vm_compute; reflexivity |].
    split; [vm_compute; reflexivity |]. split; [vm_compute; reflexivity |].
    split; [vm_compute; reflexivity |]. split; [vm_compute; reflexivity |].
    apply registered_intro.
    + vm_compute. reflexivity.
    + vm_compute. reflexivity.
    + vm_compute. reflexivity.
    + intros h2 Hh2. vm_compute in Hh2. injection Hh2 as <-.
      right. vm_compute. discriminate.
  - intros i Hi.
    pose proof (range_check (λ i, is_single (page_bitmap (get_page st_init (1, i))))
                  0 PAGEMAP_COUNT ltac:(vm_compute; reflexivity) i ltac:(lia)) as Hs.
    cbv beta in Hs.
    destruct (page_bitmap (get_page st_init (1, i))) as [w | a]; [| discriminate].
    exists w. reflexivity.
Qed.

(** ** [ffmalloc] by size *)

Lemma ffmalloc_routes (b : bool) (size : Z) (st : State) :
  isInit st = 1 →
  (if size =? 0 then 8 else size) ≤ SIZE_MAX - MIN_ALIGNMENT b →
  let a := ALIGN_SIZE b (if size =? 0 then 8 else size) in
  ffmalloc b size st
  = if a <=? HALF_PAGE then with_enomem (ffmalloc_small b a) st
    else if a <? POOL_SIZE - HALF_PAGE
         then with_enomem (ffmalloc_large b a (MIN_ALIGNMENT b)) st
         else with_enomem (ffmalloc_jumbo a) st.
Proof.
  intros Hinit Hmax. cbv zeta.
  unfold ffmalloc, with_enomem, ensure_init. munfold.
  rewrite Hinit. cbn [Z.eqb Pos.eqb].
  destruct (Z.ltb_spec (SIZE_MAX - MIN_ALIGNMENT b) (if size =? 0 then 8 else size));
    [lia |].
  destruct (_ <=? HALF_PAGE); [reflexivity |].
  destruct (_ <? POOL_SIZE - HALF_PAGE); reflexivity.
Qed.

Lemma with_enomem_ok (m : M Z) (st st' : State) (p : Z) :
  with_enomem m st = Ok p st' →
  ∃ st1, m st = Ok p st1 ∧ (p ≠ 0 → st' = st1).
Proof.
  unfold with_enomem. intros Hrun.
  apply bind_ok in Hrun as (a & st1 & Hm & Hrun).
  apply bind_ok in Hrun as ([] & st2 & Herr & Hrun).
  apply ret_ok in Hrun as [-> ->].
  exists st1. split; [exact Hm |]. intros Hp.
  destruct (Z.eqb_spec a 0); [contradiction |].
  apply ret_ok in Herr as [_ ->]. reflexivity.
Qed.

(** ** Alignment *)




Lemma mod_pow2_le (p k n : Z) : 0 ≤ k ≤ n → p mod 2^n = 0 → p mod 2^k = 0.
Proof.
  intros Hk Hn.
  assert (H2n : 2^n ≠ 0) by (apply Z.pow_nonzero; lia).
  assert (H2k : 2^k ≠ 0) by (apply Z.pow_nonzero; lia).
  apply Z.mod_divide in Hn; [| exact H2n]. apply Z.mod_divide; [exact H2k |].
  apply Z.divide_trans with (2^n); [| exact Hn].
  exists (2^(n - k)). rewrite <- Z.pow_add_r by lia. f_equal. lia.
Qed.



(** [ALIGN_TO] by a power of two gives a multiple of it. *)
Lemma align_to_multiple (v k : Z) : 0 ≤ k ≤ 64 → ALIGN_TO v (2^k) mod 2^k = 0.
Proof. intros Hk. unfold ALIGN_TO. apply land_mask_mod, Hk. Qed.



(** A large allocation is NULL or an address [ALIGN_TO] produced. *)
Lemma ffmalloc_large_aligned (b : bool) (size alignment : Z) (st st' : State) (p : Z) :
  ffmalloc_large b size alignment st = Ok p st' →
  p = 0 ∨ ∃ v, p = ALIGN_TO v alignment.
Proof.
  intros Hrun. unfold ffmalloc_large in Hrun.
  apply bind_ok in Hrun as (listId & st1 & _ & Hrun).
  apply bind_ok in Hrun as (s0 & s0' & Hget & Hrun). apply get_ok in Hget as [-> ->].
  destruct (large_list st1 listId) as [| node nodes]; [discriminate |].
  destruct (large_scan st1 size alignment (node :: nodes) 0) as [[h |] loopCount].
  - unfold ffmalloc_large_from_pool in Hrun. injection Hrun as <- _.
    right. eexists. reflexivity.
  - apply bind_ok in Hrun as (pool & st2 & _ & Hrun).
    apply bind_ok in Hrun as (r & st3 & _ & Hrun).
    destruct (r =? -1).
    + apply bind_ok in Hrun as (? & st4 & _ & Hrun).
      apply ret_ok in Hrun as [-> _]. left. reflexivity.
    + apply bind_ok in Hrun as (? & st4 & _ & Hrun).
      apply bind_ok in Hrun as (allocation & st5 & Hfrom & Hrun).
      apply bind_ok in Hrun as (? & st6 & _ & Hrun).
      apply bind_ok in Hrun as (? & st7 & _ & Hrun).
      apply ret_ok in Hrun as [-> _].
      unfold ffmalloc_large_from_pool in Hfrom. injection Hfrom as <- _.
      right. eexists. reflexivity.
Qed.

(** [ALIGN_SIZE] of a size [ffmalloc] accepts: a multiple of 8, at
    least 8 and less than 16 above the size. *)
Lemma align_size_bounds (b : bool) (size : Z) :
  0 < size ≤ SIZE_MAX - 16 →
  ALIGN_SIZE b size mod 8 = 0 ∧ 8 ≤ ALIGN_SIZE b size ∧
  size ≤ ALIGN_SIZE b size ≤ size + 15.
Proof.
  intros Hs. unfold SIZE_MAX in Hs. unfold ALIGN_SIZE.
  assert (H7 : Z.land (wrap64 (size + 7)) (not64 7) = size + 7 - (size + 7) mod 8).
  { change 7 with (2^3 - 1) at 2. unfold wrap64. rewrite Z.mod_small by lia.
    rewrite land_mask_eq by lia. reflexivity. }
  assert (H15 : Z.land (wrap64 (size + 15)) (not64 15) = size + 15 - (size + 15) mod 16).
  { change 15 with (2^4 - 1) at 2. unfold wrap64. rewrite Z.mod_small by lia.
    rewrite land_mask_eq by lia. reflexivity. }
  pose proof (Z.mod_pos_bound (size + 7) 8 ltac:(lia)).
  pose proof (Z.mod_pos_bound (size + 15) 16 ltac:(lia)).
  pose proof (Z.div_mod (size + 7) 8 ltac:(lia)).
  pose proof (Z.div_mod (size + 15) 16 ltac:(lia)).
  destruct b.
  - rewrite H7. split; [| lia].
    replace (size + 7 - (size + 7) mod 8) with ((size + 7) / 8 * 8) by lia.
    apply Z.mod_mul. lia.
  - destruct (Z.leb_spec size 8); [split; [reflexivity | lia] |].
    rewrite H15. split; [| lia].
    replace (size + 15 - (size + 15) mod 16) with ((size + 15) / 16 * 2 * 8) by lia.
    apply Z.mod_mul. lia.
Qed.




Lemma large_or_jumbo_aligned (b : bool) (sz k : Z) (st st' : State) (p : Z) :
  0 ≤ k ≤ 63 → (POOL_SIZE ≤ sz → k ≤ 12) →
  (if POOL_SIZE <=? sz then ffmalloc_jumbo sz else ffmalloc_large b sz (2^k)) st
  = Ok p st' →
  p mod 2^k = 0.
Proof.
  intros Hk Hjumbo Hrun.
  assert (H2k : 2^k ≠ 0) by (apply Z.pow_nonzero; lia).
  destruct (Z.leb_spec POOL_SIZE sz) as [Hsz | Hsz].
  - destruct (Z.eq_dec p 0) as [-> | Hnz]; [apply Z.mod_0_l, H2k |].
    destruct (ffmalloc_jumbo_spec _ _ _ _ Hrun Hnz) as (_ & _ & _ & _ & _ & _ & Hpg & _).
    apply (mod_pow2_le _ k 12); [specialize (Hjumbo Hsz); lia | exact Hpg].
  - apply ffmalloc_large_aligned in Hrun as [-> | [v ->]]; [apply Z.mod_0_l, H2k |].
    apply align_to_multiple. lia.
Qed.




(** ** Usable sizes of aligned allocations *)









(** ** Runs that end *)

Lemma turns_pos (fuel : positive) : 0 < turns fuel.
Proof. induction fuel; cbn [turns]; lia. Qed.

(** A loop whose every turn lowers a measure by one leaves in as many
    turns as the measure allows. *)
Lemma repeat_until_progress {S R : Type} (Inv : S → Prop) (mu : S → Z) (step : S → S + R) :
  (∀ s, Inv s → match step s with inl s' => Inv s' ∧ mu s' + 1 ≤ mu s | inr _ => True end) →
  ∀ fuel s, Inv s →
    match repeat_until fuel step s with
    | inl s' => Inv s' ∧ mu s' + turns fuel ≤ mu s
    | inr _ => True
    end.
Proof.
  intros Hstep.
  assert (Hdouble : ∀ f, (∀ s, Inv s → match repeat_until f step s with
                                      | inl s' => Inv s' ∧ mu s' + turns f ≤ mu s
                                      | inr _ => True
                                      end) →
                         ∀ s, Inv s → match (match repeat_until f step s with
                                           | inl s' => repeat_until f step s'
                                           | inr r => inr r
                                           end) with
                                    | inl s' => Inv s' ∧ mu s' + 2 * turns f ≤ mu s
                                    | inr _ => True
                                    end).
  { intros f IH s Hs. pose proof (IH s Hs) as H1.
    destruct (repeat_until f step s) as [s1 | r]; [| exact Logic.I].
    destruct H1 as [Hs1 Hm1]. pose proof (IH s1 Hs1) as H2.
    destruct (repeat_until f step s1) as [s2 | r]; [| exact Logic.I].
    destruct H2 as [Hs2 Hm2]. split; [exact Hs2 | lia]. }
  induction fuel as [f IH | f IH |]; intros s Hs; cbn [repeat_until turns].
  - apply Hdouble; assumption.
  - apply Hdouble; assumption.
  - apply Hstep, Hs.
Qed.

Lemma repeat_until_ends {S R : Type} (Inv : S → Prop) (mu : S → Z) (step : S → S + R)
    (fuel : positive) (s : S) :
  (∀ s, Inv s → match step s with inl s' => Inv s' ∧ mu s' + 1 ≤ mu s | inr _ => True end) →
  (∀ s, Inv s → 0 ≤ mu s) →
  Inv s → mu s < turns fuel →
  ∃ r, repeat_until fuel step s = inr r.
Proof.
  intros Hstep Hpos Hs Hfuel.
  pose proof (repeat_until_progress Inv mu step Hstep fuel s Hs) as H.
  destruct (repeat_until fuel step s) as [s' | r]; [| exists r; reflexivity].
  destruct H as [Hs' Hm]. specialize (Hpos s' Hs'). lia.
Qed.

Lemma mmap_attempt_turn (size hw0 : Z) (sl : State * Z) :
  POOL_SIZE ≤ size → 0 ≤ hw0 → hw_above_inv size hw0 sl →
  match mmap_attempt size sl with
  | inl sl' => hw_above_inv size hw0 sl' ∧ hw_turns_left sl' + 1 ≤ hw_turns_left sl
  | inr _ => True
  end.
Proof.
  intros Hsz H0 Hinv.
  pose proof (mmap_attempt_above size hw0 sl ltac:(unfold POOL_SIZE in Hsz; lia) Hinv) as Hab.
  destruct sl as [s lh]. destruct Hinv as [Hlo Hhw]. cbn [fst snd] in Hlo, Hhw.
  unfold mmap_attempt in *. cbn [fst snd] in *.
  destruct (mmap_fixed_noreplace (os s) lh size) as [[| e] o'] eqn:Hm; [exact I |].
  destruct (Z.eqb_spec e EEXIST) as [He | _]; [| exact I].
  split; [exact Hab |].
  destruct (mmap_exist_inv _ _ _ _ _ Hm He) as (Hmin & Htop & _).
  unfold hw_turns_left. cbn [fst snd poolHighWater set_poolHighWater set_errno].
  unfold wrap64, MMAP_MIN_ADDR, TASK_SIZE, POOL_SIZE in *.
  rewrite !Z.mod_small in Hhw by lia.
  destruct (Z.leb_spec lh (2^47)); [| lia].
  pose proof (Z.div_pos (2^47 - lh) 2097152 ltac:(lia) ltac:(lia)).
  destruct (Z.leb_spec (poolHighWater s) (2^47)); [| lia].
  assert ((2^47 - poolHighWater s) / 2097152 + 1 ≤ (2^47 - lh) / 2097152); [| lia].
  replace ((2^47 - poolHighWater s) / 2097152 + 1)
    with ((2^47 - poolHighWater s + 1 * 2097152) / 2097152)
    by (rewrite Z.div_add by lia; reflexivity).
  apply Z.div_le_mono; lia.
Qed.

(** [os_alloc_highwater] returns: the loop over the user address space
    ends within the turns of the model. *)
Lemma os_alloc_highwater_returns (size : Z) (st : State) :
  POOL_SIZE ≤ size → 0 ≤ poolHighWater st →
  ∃ r st', os_alloc_highwater size st = Ok r st'.
Proof.
  intros Hsz H0. unfold os_alloc_highwater.
  destruct (repeat_until_ends (hw_above_inv size (poolHighWater st)) hw_turns_left
              (mmap_attempt size) MMAP_FUEL
              (set_poolHighWater (wrap64 (poolHighWater st + size)) st, poolHighWater st))
    as [[r st'] Hr].
  - intros sl Hsl. apply (mmap_attempt_turn size (poolHighWater st) sl Hsz H0 Hsl).
  - intros sl _. unfold hw_turns_left, TASK_SIZE, POOL_SIZE.
    destruct (Z.leb_spec sl.2 (2^47)); [| lia].
    pose proof (Z.div_pos (2^47 - sl.2) 2097152 ltac:(lia) ltac:(lia)). lia.
  - split; [cbn [snd]; lia | left; reflexivity].
  - unfold hw_turns_left, TASK_SIZE, POOL_SIZE. cbn [snd].
    destruct (Z.leb_spec (poolHighWater st) (2^47)); [| reflexivity].
    assert (Hd : (2^47 - poolHighWater st) / 2097152 ≤ 2^47 / 2097152)
      by (apply Z.div_le_mono; lia).
    change (2^47 / 2097152) with 67108864 in Hd.
    change (turns MMAP_FUEL) with 268435456. lia.
  - rewrite Hr. exists r, st'. reflexivity.
Qed.

Lemma runs_bind {A B} (m : M A) (k : A → M B) (st : State) :
  runs m st → (∀ a st1, m st = Ok a st1 → runs (k a) st1) → runs (bind m k) st.
Proof.
  intros [(a & st1 & Hm) | (msg & Hm)] Hk.
  - specialize (Hk a st1 Hm). unfold runs, bind in *. rewrite Hm. exact Hk.
  - right. exists msg. unfold bind. rewrite Hm. reflexivity.
Qed.

Lemma runs_ok {A} (m : M A) (st st' : State) (a : A) : m st = Ok a st' → runs m st.
Proof. intros H. left. exists a, st'. exact H. Qed.

Lemma runs_abort {A} (msg : string) (st : State) : runs (abort (A := A) msg) st.
Proof. right. exists msg. reflexivity. Qed.

Lemma runs_create_pagepool (h : Z) (st : State) :
  0 ≤ poolHighWater st → runs (create_pagepool h) st.
Proof.
  intros H0. unfold create_pagepool. apply runs_bind.
  - destruct (os_alloc_highwater_returns POOL_SIZE st ltac:(reflexivity) H0)
      as (r & st' & Hr).
    apply (runs_ok _ _ _ _ Hr).
  - intros [a |] st1 _; [| apply (runs_ok _ _ st1 (-1)); reflexivity].
    apply runs_bind; [eapply runs_ok; reflexivity |].
    intros [] st2 _. eapply runs_ok. reflexivity.
Qed.

Lemma runs_refill_pool (fuel : nat) (h nfp : Z) (st : State) :
  0 ≤ poolHighWater st → runs (refill_pool (S fuel) h nfp) st.
Proof.
  intros H0.
  destruct (Z.lt_ge_cases (pool_end (pool_of st h)) (nfp + REFILL_BYTES)) as [Hfull | Hroom].
  2: { eapply runs_ok. apply refill_pool_keep. exact Hroom. }
  cbn [refill_pool]. apply runs_bind; [eapply runs_ok; reflexivity |].
  intros s0 s0' Hget. apply get_ok in Hget as [-> ->].
  destruct (Z.ltb_spec (pool_end (pool_of st h)) (nfp + REFILL_BYTES)); [| lia].
  apply runs_bind; [eapply runs_ok; reflexivity |].
  intros h' st1 Halloc. unfold ffmetadata_alloc_pool in Halloc.
  injection Halloc as Hh Hs. subst h' st1.
  apply runs_bind; [apply runs_create_pagepool; exact H0 |].
  intros rc st2 Hcreate.
  destruct (create_pagepool_spec _ _ _ _ Hcreate)
    as [-> | (a & sto & Hos & -> & -> & Hal & Hmin & Htop & Hlo & Hhi)].
  { cbn [Z.eqb Z.opp Pos.eqb].
    apply runs_bind; [eapply runs_ok; reflexivity |]. intros ? ? _. apply runs_abort. }
  cbn [Z.eqb Z.opp].
  apply runs_bind; [eapply runs_ok; reflexivity |]. intros [] st3 Hadd.
  apply modify_ok in Hadd.
  apply runs_bind; [eapply runs_ok; reflexivity |]. intros [] st4 Hlist.
  apply modify_ok in Hlist.
  apply runs_bind; [eapply runs_ok; reflexivity |]. intros next st5 Hadv.
  unfold advance_nextFreePage in Hadv. injection Hadv as <- <-.
  eapply runs_ok. apply refill_pool_keep.
  rewrite pool_of_set_pool_eq. cbn [pool_end set_nextFreePage].
  assert (Hp4 : pool_of st4 (nextHandle st)
                = mkPool a (a + POOL_SIZE) a
                    (PageMaps (replicate (Z.to_nat PAGEMAP_COUNT) zero_pagemap))
                    SIZE_MAX a (a + POOL_SIZE)).
  { rewrite Hlist. change (pool_of (set_arena0 ?x st3) ?h) with (pool_of st3 h).
    rewrite Hadd. apply pool_of_set_pool_eq. }
  rewrite Hp4. cbn [pool_end nextFreePage].
  unfold REFILL_BYTES, PAGES_PER_REFILL, PAGE_SIZE, POOL_SIZE. lia.
Qed.

Lemma runs_assign_pages_to_tcache (tbins : list bin_t) (st : State) :
  smallPoolList (arena0 st) ≠ [] → 0 ≤ poolHighWater st →
  runs (assign_pages_to_tcache tbins) st.
Proof.
  intros Hlist H0. unfold assign_pages_to_tcache.
  apply runs_bind; [eapply runs_ok; reflexivity |].
  intros s0 s0' Hget. apply get_ok in Hget as [-> ->].
  destruct (smallPoolList (arena0 st)) as [| pool rest]; [contradiction |].
  apply runs_bind; [eapply runs_ok; reflexivity |].
  intros nfp st1 Hadv. unfold advance_nextFreePage in Hadv. injection Hadv as <- <-.
  apply runs_bind; [apply runs_refill_pool; exact H0 |].
  intros pn st2 _.
  apply runs_bind; [eapply runs_ok; reflexivity |]. intros s0 s0' _.
  apply runs_bind; [eapply runs_ok; reflexivity |]. intros [] st3 _.
  eapply runs_ok. reflexivity.
Qed.

Lemma head_ok_nonempty (st : State) : head_ok st → smallPoolList (arena0 st) ≠ [].
Proof. intros (h & rest & j & -> & _). discriminate. Qed.

Lemma runs_get_threadcache (b : bool) (st : State) :
  small_inv b st → runs (get_threadcache b) st.
Proof.
  intros (_ & H0 & Hhead & _). unfold get_threadcache.
  apply runs_bind; [eapply runs_ok; reflexivity |].
  intros s0 s0' Hget. apply get_ok in Hget as [-> ->].
  destruct (tcache0 st); [eapply runs_ok; reflexivity |].
  apply runs_bind;
    [apply runs_assign_pages_to_tcache; [apply head_ok_nonempty, Hhead | exact H0] |].
  intros tc st1 _.
  apply runs_bind; [eapply runs_ok; reflexivity |]. intros [] st2 _.
  eapply runs_ok. reflexivity.
Qed.

Lemma get_threadcache_highwater (b : bool) (st st' : State) (tc : threadcache_t) :
  small_inv b st → get_threadcache b st = Ok tc st' →
  endUnusedPage tc ≤ nextUnusedPage tc → 0 ≤ poolHighWater st'.
Proof.
  intros (_ & H0 & Hhead & Htree & _) Hrun Hempty. unfold get_threadcache in Hrun.
  apply bind_ok in Hrun as (s0 & s0' & Hget & Hrun). apply get_ok in Hget as [-> ->].
  destruct (tcache0 st) as [tc0 |].
  - apply ret_ok in Hrun as [-> ->]. exact H0.
  - apply bind_ok in Hrun as (tc1 & st1 & Hassign & Hrun).
    apply bind_ok in Hrun as ([] & st2 & Hmod & Hrun).
    apply ret_ok in Hrun as [-> ->].
    destruct (assign_pages_to_tcache_spec _ _ _ _ Hhead Htree Hassign) as (_ & Hlt & _).
    lia.
Qed.

Lemma runs_refill_bin (tc : threadcache_t) (bin : bin_t) (st : State) :
  (endUnusedPage tc ≤ nextUnusedPage tc → head_ok st ∧ 0 ≤ poolHighWater st) →
  runs (refill_bin tc bin) st.
Proof.
  intros Hhead. unfold refill_bin. apply runs_bind.
  - destruct (Z.leb_spec (endUnusedPage tc) (nextUnusedPage tc)) as [Hempty | _];
      [| eapply runs_ok; reflexivity].
    destruct (Hhead Hempty) as [Hh H0].
    apply runs_assign_pages_to_tcache; [apply head_ok_nonempty, Hh | exact H0].
  - intros tc1 st1 _.
    apply runs_bind; [eapply runs_ok; reflexivity |]. intros [] st2 _.
    apply runs_bind; [eapply runs_ok; reflexivity |]. intros s0 s0' _.
    eapply runs_ok. reflexivity.
Qed.

(** A small allocation in a state in order returns, or aborts when the
    pool it needs cannot be mapped. *)
Lemma runs_ffmalloc_small (b : bool) (size : Z) (st : State) :
  small_inv b st →
  0 ≤ GET_BIN b size < BIN_COUNT b →
  class_ok (class_of b (GET_BIN b size)) (slots_of b (GET_BIN b size)) = true →
  runs (ffmalloc_small b size) st.
Proof.
  intros Hinv Hidx Hc. unfold ffmalloc_small.
  apply runs_bind; [apply runs_get_threadcache, Hinv |].
  intros tc st1 Hget.
  destruct (get_threadcache_spec _ _ _ _ Hinv Hget) as ((Hbins & Hres) & Hhead & Hinit).
  pose proof (get_threadcache_highwater _ _ _ _ Hinv Hget) as Hhw.
  destruct (Hbins _ Hidx) as (Hcls & Hmax & Hstate).
  set (bin := binget (bins tc) (GET_BIN b size)) in *.
  pose proof (class_ok_inv _ _ Hc) as (_ & _ & Hm0 & _).
  assert (Hmb : 0 < maxAlloc bin) by lia.
  apply runs_bind.
  - destruct (allocCount bin =? maxAlloc bin); [| eapply runs_ok; reflexivity].
    apply runs_refill_bin. intros Hempty. split; [apply Hhead, Hempty | apply Hhw, Hempty].
  - intros [tc2 bin2] st2 Hrefill. cbn [fst snd].
    assert (Hready : bin_ready st2 bin2 ∧ bin_allocSize bin2 = bin_allocSize bin ∧
                     maxAlloc bin2 = maxAlloc bin).
    { destruct (Z.eqb_spec (allocCount bin) (maxAlloc bin)) as [Hfull | Hpart].
      - destruct (refill_bin_spec _ _ _ _ _ _ Hres Hhead Hmb Hrefill)
          as (? & ? & ? & _). auto.
      - apply ret_ok in Hrefill as [[= -> ->] ->].
        destruct Hstate as [? | ?]; [contradiction | auto]. }
    destruct Hready as (Hready & Hcls2 & Hmax2).
    destruct (take_slot_spec (GET_BIN b size) tc2 bin2 st2)
      as (st3 & h & Htake & _);
      [rewrite Hcls2, Hmax2, Hcls, Hmax; exact Hc | exact Hready |].
    apply (runs_ok _ _ _ _ Htake).
Qed.

Lemma with_enomem_run (m : M Z) (st : State) :
  (∀ p st1, m st = Ok p st1 → p ≠ 0 → with_enomem m st = Ok p st1) ∧
  (∀ msg, m st = Aborted msg → with_enomem m st = Aborted msg).
Proof.
  unfold with_enomem, bind. split.
  - intros p st1 -> Hp. destruct (Z.eqb_spec p 0); [contradiction | reflexivity].
  - intros msg ->. reflexivity.
Qed.

(** C8, as the code has it.  In a state in order, [ffmalloc(0)] is
    served as a request for 8 bytes.  It returns, unless the pool the
    thread cache needs cannot be mapped, on which [assign_pages_to_tcache]
    aborts; the pointer it returns is not NULL and its usable size is 8,
    the class of the smallest bin in both builds.  That is
    [MIN_ALIGNMENT] only in the build with [FF_EIGHTBYTEALIGN]; in the
    default build [MIN_ALIGNMENT] is 16. *)
Theorem ffmalloc_zero_is_eight_bytes (b : bool) (st : State) :
  small_inv b st →
  ffmalloc b 0 st = ffmalloc b 8 st ∧
  ((∃ p st', ffmalloc b 0 st = Ok p st' ∧ p ≠ 0 ∧
             ffmalloc_usable_size p st' = Ok 8 st' ∧
             (ffmalloc_usable_size p st' = Ok (MIN_ALIGNMENT b) st' ↔ b = true)) ∨
   (∃ msg, ffmalloc b 0 st = Aborted msg)).
Proof.
  intros Hinv. pose proof Hinv as (Hinit & _).
  split; [reflexivity |].
  rewrite ffmalloc_routes by (auto; destruct b; vm_compute; discriminate).
  cbn [Z.eqb].
  replace (ALIGN_SIZE b 8) with 8 by (destruct b; reflexivity).
  change (8 <=? HALF_PAGE) with true. cbv iota.
  destruct (small_classes b 8 ltac:(unfold HALF_PAGE; lia) eq_refl) as [Hidx Hc].
  destruct (with_enomem_run (ffmalloc_small b 8) st) as [Hok Hab].
  destruct (runs_ffmalloc_small b 8 st Hinv Hidx Hc) as [(p & st1 & Hrun) | (msg & Hrun)].
  2: { right. exists msg. apply Hab, Hrun. }
  left. exists p, st1.
  destruct (ffmalloc_small_spec _ _ _ _ _ Hinv Hidx Hc Hrun)
    as (Hnz & _ & h & Hfind & Hlive).
  destruct (class_of_eight b) as [Hcls _]. rewrite Hcls in Hlive.
  assert (Hus : ffmalloc_usable_size p st1 = Ok 8 st1).
  { apply usable_size_of_live; [exact Hnz |]. exists h. split; [exact Hfind |].
    left. exact Hlive. }
  split; [apply Hok; assumption |]. split; [exact Hnz |]. split; [exact Hus |].
  rewrite Hus. destruct b; split; intros H; try reflexivity; try discriminate.
Qed.

(** On the reference state of the default build, [ffmalloc(0)] returns
    a pointer whose usable size is 8. *)
Lemma ffmalloc_zero_is_eight_bytes_witness :
  let r := ffmalloc false 0 st_init in
  value_of 0 r ≠ 0 ∧
  ffmalloc_usable_size (value_of 0 r) (state_of r) = Ok 8 (state_of r).
Proof.
  cbv zeta.
  destruct (ffmalloc_zero_is_eight_bytes false st_init (small_inv_st_init false))
    as (_ & [(p & st' & Hrun & Hnz & Hus & _) | (msg & Hab)]).
  - rewrite Hrun. cbn [value_of state_of]. split; assumption.
  - vm_compute in Hab. discriminate.
Defined.

(** ** Checking a state *)

Lemma same_handle_true (o : option Z) (h : Z) : same_handle o h = true → o = Some h.
Proof.
  destruct o as [h' |]; cbn [same_handle]; [| discriminate].
  intros ->%Z.eqb_eq. reflexivity.
Qed.

Lemma is_single_true (bm : bitmap_t) : is_single bm = true → ∃ w, bm = BmSingle w.
Proof. destruct bm as [w | a]; [exists w; reflexivity | discriminate]. Qed.

Lemma small_pool_check_ok (st : State) (h : Z) :
  small_pool_check st h = true → small_pool_ok st h.
Proof.
  unfold small_pool_check. cbv zeta. rewrite !andb_true_iff.
  intros ((((((((Hk & Hl) & Hpos) & Hal) & He) & Htop) & Hs) & Hend) & Hnext).
  apply Z.eqb_eq in Hl, Hal, He. apply Z.ltb_lt in Hpos, Htop.
  apply same_handle_true in Hs, Hend.
  unfold small_pool_ok.
  split; [destruct (kind_of (pool_of st h)); [reflexivity | discriminate | discriminate] |].
  split; [rewrite <- Hl; symmetry; apply Nat2Z.id |].
  split; [exact Hpos |]. split; [exact Hal |]. split; [exact He |]. split; [exact Htop |].
  apply registered_intro; auto.
  intros h2 Hh2. rewrite Hh2 in Hnext. apply orb_true_iff in Hnext as [H | H].
  - left. apply Z.eqb_eq, H.
  - right. apply Z.leb_le, H.
Qed.

Lemma bitmap_shape_check_ok (maxAlloc : Z) (bm : bitmap_t) :
  bitmap_shape_check maxAlloc bm = true → bitmap_shape maxAlloc bm.
Proof.
  destruct bm as [w | a]; cbn [bitmap_shape_check bitmap_shape].
  - apply Z.leb_le.
  - rewrite andb_true_iff, Z.ltb_lt, Z.leb_le. auto.
Qed.

Lemma bin_ready_check_ok (st : State) (bin : bin_t) :
  bin_ready_check st bin = true → bin_ready st bin.
Proof.
  unfold bin_ready_check. destruct (bin_page bin) as [[h i] |] eqn:Hpage; [| discriminate].
  cbv zeta. rewrite !andb_true_iff.
  intros ((((((((Hp & Hi0) & Hi1) & Hps) & Hsz) & Hbm) & Hc0) & Hc1) & Hnext).
  exists h, i. split; [exact Hpage |].
  split; [apply small_pool_check_ok, Hp |].
  apply Z.leb_le in Hi0, Hc0. apply Z.ltb_lt in Hi1, Hc1. apply Z.eqb_eq in Hps, Hsz, Hnext.
  split; [lia |]. split; [exact Hps |]. split; [exact Hsz |].
  split; [apply bitmap_shape_check_ok, Hbm |]. split; [lia | exact Hnext].
Qed.

Lemma head_check_ok (st : State) : head_check st = true → head_ok st.
Proof.
  unfold head_check. destruct (smallPoolList (arena0 st)) as [| h rest] eqn:Hlist;
    [discriminate |].
  cbv zeta. rewrite !andb_true_iff.
  intros ((((Hp & Hj0) & Hj1) & Hnfp) & Hfresh).
  apply Z.leb_le in Hj0, Hj1. apply Z.eqb_eq in Hnfp.
  unfold head_ok. rewrite Hlist.
  exists h, rest, ((nextFreePage (pool_of st h) - pool_start (pool_of st h)) / PAGE_SIZE).
  split; [reflexivity |]. split; [apply small_pool_check_ok, Hp |].
  split; [lia |]. split; [exact Hnfp |].
  intros i Hi. apply is_single_true.
  apply (range_check _ _ _ Hfresh i). lia.
Qed.

Lemma reserve_check_ok (st : State) (tc : threadcache_t) :
  reserve_check st tc = true → reserve_ok st tc.
Proof.
  unfold reserve_check, reserve_ok. intros Hchk Hlt.
  destruct (Z.ltb_spec (nextUnusedPage tc) (endUnusedPage tc)); [| lia].
  rewrite !andb_true_iff in Hchk. destruct Hchk as (((Hp & H0) & H1) & Hpages).
  apply Z.leb_le in H0, H1.
  split; [apply small_pool_check_ok, Hp |]. split; [exact H0 |]. split; [exact H1 |].
  intros i Hi.
  pose proof (range_check _ _ _ Hpages i ltac:(lia)) as Hpg. cbv beta in Hpg.
  apply andb_true_iff in Hpg as [Hs Hb]. apply Z.eqb_eq in Hs.
  split; [exact Hs | apply is_single_true, Hb].
Qed.

Lemma tcache_check_ok (b : bool) (st : State) (tc : threadcache_t) :
  tcache_check b st tc = true → tcache_ok b st tc.
Proof.
  unfold tcache_check. rewrite andb_true_iff. intros [Hbins Hres].
  split; [| apply reserve_check_ok, Hres].
  intros idx Hidx.
  pose proof (range_check _ _ _ Hbins idx ltac:(lia)) as Hb. cbv beta in Hb.
  rewrite !andb_true_iff, orb_true_iff in Hb. destruct Hb as ((Hc & Hm) & Hs).
  apply Z.eqb_eq in Hc, Hm.
  split; [exact Hc |]. split; [exact Hm |].
  destruct Hs as [Hfull | Hready]; [left; apply Z.eqb_eq, Hfull |].
  right. apply bin_ready_check_ok, Hready.
Qed.

(** A state that passes the checks is in order. *)
Lemma small_inv_check_ok (b : bool) (st : State) :
  small_inv_check b st = true → small_inv b st.
Proof.
  unfold small_inv_check. rewrite !andb_true_iff.
  intros ((((Hi & Hhw) & Hh) & Ht) & Htc).
  apply Z.eqb_eq in Hi. apply Z.leb_le in Hhw.
  split; [exact Hi |]. split; [exact Hhw |]. split; [apply head_check_ok, Hh |].
  split; [apply tree_ok_intro, Ht |].
  destruct (tcache0 st) as [tc |]; [apply tcache_check_ok, Htc | exact I].
Qed.

(** The state stays in order along runs of the reference state: after
    a small, a large and a jumbo allocation, a free and an aligned
    allocation; and after 1100 allocations of 2048 bytes, which use up
    the first small pool and start a second one. *)
Lemma small_inv_after_mixed_calls :
  let r1 := ffmalloc false 24 st_init in
  let r2 := ffmalloc false 5000 (state_of r1) in
  let r3 := ffmalloc false 4194304 (state_of r2) in
  let r4 := fffree (value_of 0 r1) (state_of r3) in
  let r5 := ffaligned_alloc false 64 128 (state_of r4) in
  small_inv false (state_of r5) ∧ small_inv false (state_of r3).
Proof. cbv zeta. split; apply small_inv_check_ok; vm_compute; reflexivity. Qed.

Lemma small_inv_after_second_pool :
  let st := malloc_many true 1100 2048 st_init in
  smallPoolList (arena0 st) = [10; 1] ∧ small_inv true st.
Proof.
  cbv zeta. split; [vm_compute; reflexivity |].
  apply small_inv_check_ok. vm_compute. reflexivity.
Qed.

(** ** Appending to a large pool *)

Lemma strictly_increasing_intro (l : list Z) :
  (∀ a : nat, (S a < length l)%nat → nth a l 0 < nth (S a) l 0) →
  strictly_increasing l = true.
Proof.
  induction l as [| x l IH]; intros H; [reflexivity |].
  destruct l as [| y l]; [reflexivity |].
  cbn [strictly_increasing]. apply andb_true_intro. split.
  - apply Z.ltb_lt. apply (H 0%nat). cbn [length]. lia.
  - apply IH. intros a Ha. apply (H (S a)). cbn [length] in *. lia.
Qed.

Lemma zget_zset_ne (l : list Z) (i j v : Z) : i ≠ j → zget (zset l i v) j = zget l j.
Proof.
  intros Hne. unfold zget, zset.
  destruct (Z.leb_spec 0 i); [| reflexivity].
  destruct (Z.leb_spec 0 j); [| reflexivity].
  rewrite !nth_lookup, list_lookup_insert_ne by lia. reflexivity.
Qed.

Lemma length_zset (l : list Z) (i v : Z) : length (zset l i v) = length l.
Proof. unfold zset. destruct (0 <=? i); [apply length_insert | reflexivity]. Qed.

(** [ALIGN_TO] by a power of two rounds up by less than the power. *)
Lemma align_to_bounds (v k : Z) :
  0 ≤ k ≤ 63 → 0 ≤ v → v + 2^k ≤ 2^64 →
  v ≤ ALIGN_TO v (2^k) < v + 2^k ∧ ALIGN_TO v (2^k) mod 2^k = 0.
Proof.
  intros Hk Hv Htop. split; [| apply align_to_multiple; lia].
  assert (H2k : 0 < 2^k) by (apply Z.pow_pos_nonneg; lia).
  unfold ALIGN_TO, wrap64. rewrite Z.mod_small by lia.
  rewrite land_mask_eq by lia.
  pose proof (Z.mod_pos_bound (v + (2^k - 1)) (2^k) H2k).
  pose proof (Z.div_mod (v + (2^k - 1)) (2^k) ltac:(lia)).
  assert ((v + (2^k - 1) - (v + (2^k - 1)) mod 2^k) mod 2^k = 0).
  { rewrite Zminus_mod, Z.mod_mod, Z.sub_diag by lia. apply Z.mod_0_l. lia. }
  assert (v mod 2^k = 0 ∨ 0 < v mod 2^k) by (pose proof (Z.mod_pos_bound v (2^k) H2k); lia).
  pose proof (Z.div_mod v (2^k) ltac:(lia)).
  set (m := (v + (2^k - 1)) mod 2^k) in *.
  set (q := (v + (2^k - 1)) / 2^k) in *.
  assert (Hq : v / 2^k ≤ q ≤ v / 2^k + 1).
  { unfold q. split.
    - apply Z.div_le_mono; lia.
    - replace (v / 2^k + 1) with ((v + 1 * 2^k) / 2^k) by (rewrite Z.div_add by lia; lia).
      apply Z.div_le_mono; lia. }
  pose proof (Z.mod_pos_bound v (2^k) H2k). nia.
Qed.

Lemma nth_boundary_take (l : list Z) (m : nat) (a : nat) :
  (a < m)%nat → (m ≤ length l)%nat →
  nth a (map boundary (take m l)) 0 = boundary (zget l (Z.of_nat a)).
Proof.
  intros Ha Hm.
  rewrite zget_nth, Nat2Z.id by lia.
  rewrite !nth_lookup, list_lookup_fmap, lookup_take_lt by lia.
  destruct (l !! a) as [e |] eqn:He; [reflexivity |].
  apply lookup_ge_None in He. lia.
Qed.

Lemma boundary_fixed (e : Z) : 0 ≤ e < 2^64 → e mod 8 = 0 → boundary e = e.
Proof.
  intros He Hm. unfold boundary. change 7 with (2^3 - 1).
  rewrite land_mask_eq by lia. change (2^3) with 8. lia.
Qed.

(** One more boundary behind a sorted array. *)
Lemma appended_sorted (arr arr' : list Z) (n x y : Z) :
  0 ≤ n → n + 1 < Z.of_nat (length arr) → length arr' = length arr →
  strictly_increasing (map boundary (take (S (Z.to_nat n)) arr)) = true →
  (∀ i, 0 ≤ i < n → zget arr' i = zget arr i) →
  zget arr' n = x → zget arr' (n + 1) = y →
  boundary (zget arr n) ≤ boundary x → boundary x < boundary y →
  strictly_increasing (map boundary (take (S (Z.to_nat (n + 1))) arr')) = true.
Proof.
  intros Hn Hlen Hl Hs Hold Hx Hy Hbx Hby.
  apply strictly_increasing_intro. intros a Ha.
  rewrite length_map, length_take in Ha.
  rewrite !nth_boundary_take by lia.
  pose proof (strictly_increasing_adjacent _ Hs) as Hadj.
  destruct (Z.lt_trichotomy (Z.of_nat a + 1) n) as [Hlt | [Heq | Hgt]].
  - rewrite !Hold by lia.
    specialize (Hadj a). rewrite length_map, length_take in Hadj.
    rewrite !nth_boundary_take in Hadj by lia. apply Hadj. lia.
  - rewrite Hold by lia. replace (Z.of_nat (S a)) with n by lia. rewrite Hx.
    specialize (Hadj a). rewrite length_map, length_take in Hadj.
    rewrite !nth_boundary_take in Hadj by lia.
    replace (Z.of_nat (S a)) with n in Hadj by lia.
    specialize (Hadj ltac:(lia)). lia.
  - replace (Z.of_nat a) with n by lia. replace (Z.of_nat (S a)) with (n + 1) by lia.
    rewrite Hx, Hy. exact Hby.
Qed.

(** The two guarded call sites of [ffmalloc_large_from_pool]: when the
    aligned block fits the pool, the boundary array stays in order, and
    the block lies inside the pool at a multiple of the alignment. *)
Lemma ffmalloc_large_from_pool_sorted (b : bool) (size k h : Z) (st st' : State) (ptr : Z) :
  let p := pool_of st h in
  large_wf p →
  nextFreeIndex p + 1 < Z.of_nat (length (allocs p)) ≤ BOUNDARY_COUNT →
  boundary (zget (allocs p) (nextFreeIndex p)) ≤ nextFreePage p →
  0 ≤ nextFreePage p ≤ pool_end p → pool_end p ≤ TASK_SIZE → pool_end p mod 8 = 0 →
  3 ≤ k ≤ 62 → 0 < size < 2^62 → size mod 8 = 0 →
  pool_fits st size (2^k) h = true →
  ffmalloc_large_from_pool b size (2^k) h st = Ok ptr st' →
  large_sorted (pool_of st' h) = true ∧
  nextFreeIndex (pool_of st' h) = nextFreeIndex p + 1 ∧
  ptr mod 2^k = 0 ∧ nextFreePage p ≤ ptr ∧ ptr + size ≤ pool_end p.
Proof.
  intros p (Hkind & Hn & Hw & Hs) Hroom Hlast Hnfp0 Hend Hend8 Hk Hsz Hsz8 Hfit Hrun.
  unfold pool_fits in Hfit. fold p in Hfit. apply Z.leb_le in Hfit.
  unfold ffmalloc_large_from_pool in Hrun. fold p in Hrun.
  unfold TASK_SIZE in Hend. change BOUNDARY_COUNT with 1024 in Hroom.
  assert (H2k : 2^k ≤ 2^62) by (apply Z.pow_le_mono_r; lia).
  assert (H8k : 2^3 ≤ 2^k) by (apply Z.pow_le_mono_r; lia). change (2^3) with 8 in H8k.
  set (A := ALIGN_TO (nextFreePage p) (2^k)) in *.
  assert (HA : nextFreePage p ≤ A < nextFreePage p + 2^k ∧ A mod 2^k = 0)
    by (apply align_to_bounds; lia).
  destruct HA as [[HAlo HAhi] HAmod].
  assert (HA8 : A mod 8 = 0).
  { change 8 with (2^3). apply (mod_pow2_le _ 3 k); [lia | exact HAmod]. }
  unfold wrap64 in Hfit, Hrun. rewrite (Z.mod_small (A + size)) in Hfit, Hrun by lia.
  rewrite (Z.mod_small (nextFreeIndex p + 1)) in Hrun by lia.
  injection Hrun as <- <-. rewrite pool_of_set_pool_eq.
  cbn [nextFreeIndex]. split; [| repeat split; auto; lia].
  unfold large_sorted. cbn [nextFreeIndex allocs tracking].
  assert (HbA : boundary A = A) by (apply boundary_fixed; lia).
  assert (HbE : boundary (pool_end p) = pool_end p) by (apply boundary_fixed; [lia | exact Hend8]).
  assert (HbS : boundary (A + size) = A + size).
  { apply boundary_fixed; [lia |]. rewrite Zplus_mod, HA8, Hsz8. reflexivity. }
  destruct (to_signed ((pool_end p - (A + size)) mod 2^64) <? HALF_PAGE + MIN_ALIGNMENT b);
    destruct (MIN_ALIGNMENT b <? 2^k);
    (eapply (appended_sorted (allocs p) _ (nextFreeIndex p));
     [ lia | lia | rewrite ?length_zset; reflexivity | exact Hs
     | intros i Hi; rewrite ?zget_zset_ne by lia; reflexivity
     | rewrite ?(zget_zset_ne _ (nextFreeIndex p + 1)) by lia;
       rewrite ?zget_zset_eq by lia; reflexivity
     | rewrite ?zget_zset_eq by (rewrite ?length_zset; lia); reflexivity
     | rewrite ?HbA; lia
     | rewrite ?HbA, ?HbE, ?HbS; lia ]).
Qed.

(** The first large allocation of the reference state, through the
    guarded call site. *)
Lemma ffmalloc_large_from_pool_sorted_example :
  let r := ffmalloc_large_from_pool false 5008 16 2 st_init in
  large_sorted (pool_of (state_of r) 2) = true ∧
  value_of 0 r mod 16 = 0 ∧
  value_of 0 r + 5008 ≤ pool_end (pool_of st_init 2).
Proof.
  cbv zeta.
  destruct (ffmalloc_large_from_pool_sorted false 5008 4 2 st_init
              (state_of (ffmalloc_large_from_pool false 5008 16 2 st_init))
              (value_of 0 (ffmalloc_large_from_pool false 5008 16 2 st_init)))
    as (Hs & _ & Hm & _ & Hfit).
  - repeat split; vm_compute; congruence.
  - vm_compute. split; [reflexivity | discriminate].
  - vm_compute. discriminate.
  - vm_compute. split; discriminate.
  - vm_compute. discriminate.
  - vm_compute. reflexivity.
  - lia.
  - lia.
  - reflexivity.
  - vm_compute. reflexivity.
  - vm_compute. reflexivity.
  - auto.
Qed.

(** * Further properties of the code *)

(** ** Rounding of sizes and the bin table *)

(** [ALIGN_SIZE] on the sizes [ffmalloc] lets through: the result is the
    size rounded up to the next multiple of [MIN_ALIGNMENT], except that
    the 16-byte build serves sizes up to 8 from 8 bytes; the sum inside
    the macro does not wrap.  On [SIZE_MAX], which the guard of
    [ffmalloc] keeps out, the macro wraps to 0. *)
Theorem align_size_rounds_up (b : bool) (size : Z) :
  0 < size ≤ SIZE_MAX - MIN_ALIGNMENT b →
  size ≤ ALIGN_SIZE b size < size + MIN_ALIGNMENT b ∧
  ALIGN_SIZE b size mod 8 = 0 ∧
  (ALIGN_SIZE b size mod MIN_ALIGNMENT b = 0 ∨
   b = false ∧ size ≤ 8 ∧ ALIGN_SIZE b size = 8) ∧
  ALIGN_SIZE b SIZE_MAX = 0.
Proof.
  intros Hs.
  assert (H7 : 0 ≤ size ≤ SIZE_MAX - 8 →
               Z.land (wrap64 (size + 7)) (not64 7) = size + 7 - (size + 7) mod 8).
  { intros H. change 7 with (2^3 - 1) at 2. unfold wrap64.
    rewrite Z.mod_small by (unfold SIZE_MAX in *; lia).
    rewrite land_mask_eq by (unfold SIZE_MAX in *; lia). reflexivity. }
  assert (H15 : 0 ≤ size ≤ SIZE_MAX - 16 →
                Z.land (wrap64 (size + 15)) (not64 15) = size + 15 - (size + 15) mod 16).
  { intros H. change 15 with (2^4 - 1) at 2. unfold wrap64.
    rewrite Z.mod_small by (unfold SIZE_MAX in *; lia).
    rewrite land_mask_eq by (unfold SIZE_MAX in *; lia). reflexivity. }
  pose proof (Z.mod_pos_bound (size + 7) 8 ltac:(lia)) as B7.
  pose proof (Z.mod_pos_bound (size + 15) 16 ltac:(lia)) as B15.
  pose proof (Z.div_mod (size + 7) 8 ltac:(lia)) as D7.
  pose proof (Z.div_mod (size + 15) 16 ltac:(lia)) as D15.
  unfold ALIGN_SIZE, MIN_ALIGNMENT in *. destruct b.
  - rewrite H7 by lia.
    assert (Hm : (size + 7 - (size + 7) mod 8) mod 8 = 0).
    { replace (size + 7 - (size + 7) mod 8) with ((size + 7) / 8 * 8) by lia.
      apply Z.mod_mul. lia. }
    repeat split; [lia | lia | exact Hm | left; exact Hm].
  - destruct (Z.leb_spec size 8).
    + repeat split; [lia | lia | right; repeat split; lia].
    + rewrite H15 by lia.
      assert (Hm : (size + 15 - (size + 15) mod 16) mod 16 = 0).
      { replace (size + 15 - (size + 15) mod 16) with ((size + 15) / 16 * 16) by lia.
        apply Z.mod_mul. lia. }
      assert (Hm8 : (size + 15 - (size + 15) mod 16) mod 8 = 0).
      { replace (size + 15 - (size + 15) mod 16) with ((size + 15) / 16 * 2 * 8) by lia.
        apply Z.mod_mul. lia. }
      repeat split; [lia | lia | exact Hm8 | left; exact Hm].
Qed.

(** A request of 100 bytes becomes 112 bytes in the 16-byte build. *)
Lemma align_size_rounds_up_witness :
  100 ≤ ALIGN_SIZE false 100 < 100 + MIN_ALIGNMENT false.
Proof.
  apply (align_size_rounds_up false 100). unfold SIZE_MAX, MIN_ALIGNMENT. lia.
Defined.

(** The bin of a small request, in either build: [GET_BIN] of the
    aligned size is a bin of the table of [init_tcache], the class of
    that bin holds the request, and the slots of the bin fill one page
    without room for one more. *)
Theorem small_request_bin (b : bool) (size : Z) :
  0 < size ≤ HALF_PAGE →
  let idx := GET_BIN b (ALIGN_SIZE b size) in
  0 ≤ idx < BIN_COUNT b ∧
  size ≤ ALIGN_SIZE b size ≤ class_of b idx ∧
  class_of b idx mod 8 = 0 ∧
  0 < slots_of b idx ∧
  slots_of b idx * class_of b idx ≤ PAGE_SIZE < (slots_of b idx + 1) * class_of b idx.
Proof.
  intros Hs.
  set (chk := λ s : Z,
    let a := ALIGN_SIZE b s in
    let idx := GET_BIN b a in
    let bin := binget (init_bins b) idx in
    (0 <=? idx) && (idx <? BIN_COUNT b) && (s <=? a) && (a <=? bin_allocSize bin) &&
    (bin_allocSize bin mod 8 =? 0) && (0 <? maxAlloc bin) &&
    (maxAlloc bin * bin_allocSize bin <=? PAGE_SIZE) &&
    (PAGE_SIZE <? (maxAlloc bin + 1) * bin_allocSize bin)).
  assert (Hall : forallb chk (seqZ 1 HALF_PAGE) = true).
  { subst chk. destruct b; vm_compute; reflexivity. }
  pose proof (range_check chk 1 HALF_PAGE Hall size ltac:(lia)) as H.
  subst chk. cbv beta zeta in H.
  repeat (apply andb_true_iff in H as [H ?]).
  cbv zeta. unfold class_of, slots_of. repeat split; lia.
Qed.

(** 100 bytes are served from the class of 112 bytes. *)
Lemma small_request_bin_witness :
  100 ≤ ALIGN_SIZE false 100 ≤ class_of false (GET_BIN false (ALIGN_SIZE false 100)).
Proof.
  apply (small_request_bin false 100). unfold HALF_PAGE. lia.
Defined.

(** ** The deprecated entry points *)

(** [valloc] and [pvalloc] answer NULL or an address at a page boundary,
    whatever the state; both refuse a size of 0 and a size within a page
    of [SIZE_MAX] without touching the state, so the rounding of
    [pvalloc] never wraps. *)
Theorem valloc_pvalloc_page_aligned (b : bool) (size : Z) (st : State) :
  (∀ p st', valloc b size st = Ok p st' ∨ pvalloc b size st = Ok p st' →
            p mod PAGE_SIZE = 0) ∧
  (size = 0 ∨ SIZE_MAX - PAGE_SIZE ≤ size →
   valloc b size st = Ok 0 st ∧ pvalloc b size st = Ok 0 st).
Proof.
  assert (Hal : ∀ sz p st', ffmemalign b PAGE_SIZE sz st = Ok p st' → p mod PAGE_SIZE = 0).
  { intros sz p st' Hrun. unfold ffmemalign in Hrun.
    destruct ((sz =? 0) || (SIZE_MAX - PAGE_SIZE <=? sz));
      [apply ret_ok in Hrun as [-> _]; reflexivity |].
    change (FFPOPCOUNT64 PAGE_SIZE =? 1) with true in Hrun.
    change (PAGE_SIZE <=? 8) with false in Hrun.
    change (PAGE_SIZE <? PAGE_SIZE) with false in Hrun.
    rewrite andb_false_r in Hrun. cbn [negb] in Hrun.
    unfold ffmemalign_internal in Hrun.
    change (PAGE_SIZE <=? HALF_PAGE) with false in Hrun.
    rewrite andb_false_r in Hrun.
    change PAGE_SIZE with (2^12).
    apply (large_or_jumbo_aligned b (ALIGN_SIZE b sz) 12 st st' p); [lia | lia |].
    exact Hrun. }
  split.
  - intros p st' [Hrun | Hrun].
    + apply (Hal size p st' Hrun).
    + unfold pvalloc in Hrun.
      destruct (SIZE_MAX - PAGE_SIZE <=? size);
        [apply ret_ok in Hrun as [-> _]; reflexivity |].
      apply (Hal _ p st' Hrun).
  - intros Hs. unfold valloc, pvalloc, ffmemalign.
    destruct Hs as [-> | Hs].
    + split; reflexivity.
    + destruct (Z.leb_spec (SIZE_MAX - PAGE_SIZE) size); [| lia].
      rewrite orb_true_r. split; reflexivity.
Qed.

(** ** Overflow guards and [errno] *)

(** [ffreallocarray] tests [nmemb] before it divides: with a product
    that does not fit 64 bits it returns NULL with [errno = ENOMEM] and
    leaves the allocation alone; otherwise it is [ffrealloc] of the
    product, which for [nmemb = 0] is [ffrealloc(ptr, 0)]. *)
Theorem ffreallocarray_guard (b : bool) (ptr nmemb size : Z) (st : State) :
  0 ≤ nmemb → 0 ≤ size →
  (SIZE_MAX < nmemb * size →
   ffreallocarray b ptr nmemb size st = Ok 0 (set_errno ENOMEM st)) ∧
  (nmemb * size ≤ SIZE_MAX →
   ffreallocarray b ptr nmemb size st = ffrealloc b ptr (nmemb * size) st).
Proof.
  intros Hn Hs. unfold ffreallocarray.
  destruct (Z.eqb_spec nmemb 0) as [-> | Hnz].
  - split; [unfold SIZE_MAX; lia |]. intros _. reflexivity.
  - munfold. destruct (Z.eqb_spec nmemb 0); [contradiction |].
    rewrite (div_lt_iff_mul_gt nmemb size) by lia.
    split; intros Hp.
    + destruct (Z.ltb_spec SIZE_MAX (nmemb * size)); [reflexivity | lia].
    + destruct (Z.ltb_spec SIZE_MAX (nmemb * size)); [lia |]. cbv iota.
      unfold wrap64. rewrite Z.mod_small; [reflexivity |].
      unfold SIZE_MAX in *. nia.
Qed.

(** 2^32 elements of 2^32 bytes are refused with [ENOMEM]. *)
Lemma ffreallocarray_guard_witness :
  ffreallocarray false 0 (2^32) (2^32) st_init = Ok 0 (set_errno ENOMEM st_init).
Proof.
  destruct (ffreallocarray_guard false 0 (2^32) (2^32) st_init) as [H _]; [lia | lia |].
  apply H. vm_compute. reflexivity.
Defined.

(** Whenever [ffmalloc] returns NULL, [errno] is [ENOMEM]. *)
Theorem ffmalloc_null_sets_enomem (b : bool) (size : Z) (st st' : State) :
  ffmalloc b size st = Ok 0 st' → errno st' = ENOMEM.
Proof.
  intros Hrun. unfold ffmalloc in Hrun.
  apply bind_ok in Hrun as ([] & st1 & _ & Hrun).
  destruct (SIZE_MAX - MIN_ALIGNMENT b <? (if size =? 0 then 8 else size)).
  - apply bind_ok in Hrun as ([] & st2 & Hm & Hrun).
    apply modify_ok in Hm. apply ret_ok in Hrun as [_ ->]. subst st2. reflexivity.
  - apply bind_ok in Hrun as (p & st2 & _ & Hrun).
    apply bind_ok in Hrun as ([] & st3 & Hm & Hrun).
    apply ret_ok in Hrun as [<- ->].
    change (0 =? 0) with true in Hm. cbv iota in Hm.
    apply modify_ok in Hm. subst st3. reflexivity.
Qed.

(** A request beyond the address space comes back NULL with
    [errno = ENOMEM]. *)
Lemma ffmalloc_null_sets_enomem_witness :
  errno (state_of (ffmalloc false (2^60) st_init)) = ENOMEM.
Proof.
  apply (ffmalloc_null_sets_enomem false (2^60) st_init). vm_compute. reflexivity.
Defined.

(** ** The search functions *)

(** The binary search of [find_large_ptr] over a boundary array in
    order: a pointer equal to entry [i] below [nextFreeIndex] is found
    at [i], with the distance to the next boundary as its size; a
    pointer equal to no such entry gets size 0.  The search ends within
    64 halvings. *)
Theorem find_large_ptr_binary_search (st : State) (h ptr : Z) :
  large_wf (pool_of st h) →
  let p := pool_of st h in
  (∀ i, 0 ≤ i < nextFreeIndex p → zget (allocs p) i = ptr →
     find_large_ptr ptr h st
     = Ok (wrap64 (boundary (zget (allocs p) (i + 1)) - ptr), i) st) ∧
  ((∀ i, 0 ≤ i < nextFreeIndex p → zget (allocs p) i ≠ ptr) →
     find_large_ptr ptr h st = Ok (0, 0) st).
Proof.
  intros (Hk & Hn & Hw & Hs). cbv zeta.
  apply kind_large, Z.ltb_lt in Hk.
  assert (Hfuel : ∃ r, find_large_loop 65 (allocs (pool_of st h))
                         (nextFreeIndex (pool_of st h)) ptr 0
                         (nextFreeIndex (pool_of st h))
                         (0 + (nextFreeIndex (pool_of st h) - 0) / 2) = Some r).
  { apply (find_large_loop_fuel 64); [lia |].
    unfold SIZE_MAX in Hk. change (2 ^ Z.of_nat 64) with (2 ^ 64). lia. }
  destruct Hfuel as [r Hr].
  assert (Hrun : find_large_ptr ptr h st = Ok r st).
  { unfold find_large_ptr.
    replace ((nextFreeIndex (pool_of st h) - 0) / 2)
      with (0 + (nextFreeIndex (pool_of st h) - 0) / 2) by lia.
    rewrite Hr. reflexivity. }
  rewrite Hrun. split.
  - intros i Hi Hptr. f_equal.
    apply (find_large_loop_hit _ _ _ ptr 0 _ i) in Hr; [exact Hr | | lia | lia | lia | exact Hptr].
    intros a c Hac Hc. apply large_sorted_raw; auto.
  - intros Hno. f_equal.
    apply (find_large_loop_miss _ _ _ ptr 0 _) in Hr; [exact Hr | lia | lia | exact Hno].
Qed.

(** Three large allocations from the first large pool: the search
    finds the second at index 1, with the 6000 bytes up to the third as
    its size, and finds nothing 8 bytes into that block. *)
Lemma find_large_ptr_binary_search_witness :
  let r1 := ffmalloc false 5000 st_init in
  let r2 := ffmalloc false 6000 (state_of r1) in
  let r3 := ffmalloc false 7000 (state_of r2) in
  nextFreeIndex (pool_of (state_of r3) 2) = 3 ∧
  find_large_ptr (value_of 0 r2) 2 (state_of r3) = Ok (6000, 1) (state_of r3) ∧
  find_large_ptr (value_of 0 r2 + 8) 2 (state_of r3) = Ok (0, 0) (state_of r3).
Proof.
  cbv zeta. split; [vm_compute; reflexivity |].
  set (st := state_of (ffmalloc false 7000
                         (state_of (ffmalloc false 6000
                                      (state_of (ffmalloc false 5000 st_init)))))).
  set (q := value_of 0 (ffmalloc false 6000 (state_of (ffmalloc false 5000 st_init)))).
  assert (Hwf : large_wf (pool_of st 2)) by (repeat split; vm_compute; congruence).
  split.
  - destruct (find_large_ptr_binary_search st 2 q Hwf) as [Hhit _].
    rewrite (Hhit 1); [vm_compute; reflexivity | vm_compute; split; congruence |
                       vm_compute; reflexivity].
  - destruct (find_large_ptr_binary_search st 2 (q + 8) Hwf) as [_ Hmiss].
    apply Hmiss. intros i Hi.
    assert (Hn : nextFreeIndex (pool_of st 2) = 3) by (vm_compute; reflexivity).
    rewrite Hn in Hi.
    assert (Hcase : i = 0 ∨ i = 1 ∨ i = 2) by lia.
    destruct Hcase as [-> | [-> | ->]]; vm_compute; discriminate.
Defined.

(** ** What the highwater loop maps *)

Lemma mmap_attempt_maps (size : Z) (st : State) (sl : State * Z) :
  hw_map_inv st sl →
  match mmap_attempt size sl with
  | inl sl' => hw_map_inv st sl'
  | inr rs => hw_map_post size st rs
  end.
Proof.
  destruct sl as [s lh]. unfold hw_map_inv. cbn [fst snd]. intros Hm.
  unfold mmap_attempt, mmap_fixed_noreplace. cbn [fst snd].
  destruct ((size =? 0) || negb (lh mod PAGE_SIZE =? 0)).
  { change (EINVAL =? EEXIST) with false. cbv iota. unfold hw_map_post. cbn [fst snd].
    split; [exact Hm | discriminate]. }
  destruct ((TASK_SIZE <? size) || (TASK_SIZE - size <? lh)).
  { change (ENOMEM =? EEXIST) with false. cbv iota. unfold hw_map_post. cbn [fst snd].
    split; [exact Hm | discriminate]. }
  destruct (lh <? MMAP_MIN_ADDR).
  { change (EPERM =? EEXIST) with false. cbv iota. unfold hw_map_post. cbn [fst snd].
    split; [exact Hm | discriminate]. }
  destruct (existsb (range_overlaps lh (lh + size)) (mapped (os s))) eqn:Hov.
  - change (EEXIST =? EEXIST) with true. cbv iota. cbn [fst]. exact Hm.
  - unfold hw_map_post. cbn [fst snd set_os os mapped].
    rewrite <- Hm. split; [reflexivity | exact Hov].
Qed.

Lemma os_alloc_highwater_maps (size : Z) (st st' : State) (r : option Z) :
  os_alloc_highwater size st = Ok r st' → hw_map_post size st (r, st').
Proof.
  unfold os_alloc_highwater. intros Hrun.
  pose proof (repeat_until_inv (hw_map_inv st) (hw_map_post size st)
                (mmap_attempt size) (mmap_attempt_maps size st) MMAP_FUEL
                (set_poolHighWater (wrap64 (poolHighWater st + size)) st, poolHighWater st))
    as Hinv.
  destruct (repeat_until _ _ _) as [sl | [r0 s0]]; [discriminate |].
  injection Hrun as <- <-. apply Hinv. reflexivity.
Qed.

(** [os_alloc_highwater] for a size of at least [POOL_SIZE], from a mark
    that is not negative: the retry loop ends.  On success the address
    is page aligned, not below the mark the call started from, inside
    the user address space, and the range was free before and is mapped
    after; the mark has moved up by at least [POOL_SIZE].  On failure no
    mapping has changed and [errno] is not [EEXIST].  Nothing else of
    the allocator's state changes. *)
Theorem os_alloc_highwater_reserves (size : Z) (st : State) :
  POOL_SIZE ≤ size → 0 ≤ poolHighWater st →
  ∃ r st', os_alloc_highwater size st = Ok r st' ∧ os_frame st st' ∧
    match r with
    | Some a =>
        poolHighWater st ≤ a ∧ a mod PAGE_SIZE = 0 ∧
        MMAP_MIN_ADDR ≤ a ∧ a + size ≤ TASK_SIZE ∧
        existsb (range_overlaps a (a + size)) (mapped (os st)) = false ∧
        mapped (os st') = (a, a + size) :: mapped (os st) ∧
        a + POOL_SIZE ≤ poolHighWater st' ≤ a + size
    | None => mapped (os st') = mapped (os st) ∧ errno st' ≠ EEXIST
    end.
Proof.
  intros Hsz Hhw.
  destruct (os_alloc_highwater_returns size st Hsz Hhw) as (r & st' & Hrun).
  exists r, st'. split; [exact Hrun |].
  destruct (os_alloc_highwater_spec size st st' r Hrun) as (Hframe & _ & Hal).
  split; [exact Hframe |].
  pose proof (os_alloc_highwater_maps size st st' r Hrun) as Hmap.
  unfold hw_map_post in Hmap. cbn [fst snd] in Hmap.
  destruct r as [a |]; [| exact Hmap].
  destruct Hmap as [Hnew Hfree].
  destruct (Hal a eq_refl) as (Hpage & Hmin & Htop & _).
  destruct (os_alloc_highwater_above size st st' a ltac:(unfold POOL_SIZE in Hsz; lia) Hrun)
    as [Hab Hmark].
  repeat split; try assumption; lia.
Qed.

(** After initialisation the next pool is mapped right at the mark. *)
Lemma os_alloc_highwater_reserves_witness :
  ∃ r st', os_alloc_highwater POOL_SIZE st_init = Ok r st' ∧ os_frame st_init st'.
Proof.
  destruct (os_alloc_highwater_reserves POOL_SIZE st_init) as (r & st' & Hrun & Hframe & _).
  - lia.
  - vm_compute. discriminate.
  - exists r, st'. split; assumption.
Defined.

(** ** The pool registry *)

(** [add_pool_to_tree] counts the pool and makes its start address
    resolve to it.  A pool of [POOL_SIZE] bytes resolves at every one of
    its addresses, provided no other pool starts, below its end, in the
    slot of its end.  Addresses in other slots resolve as before. *)
Theorem add_pool_to_tree_registers (h : Z) (st st' : State) :
  add_pool_to_tree h st = Ok tt st' →
  let p := pool_of st h in
  poolCount st' = poolCount st + 1 ∧ pools st' = pools st ∧
  find_pool_for_ptr st' (pool_start p) = Some h ∧
  (pool_end p = pool_start p + POOL_SIZE →
   (∀ h2, tree_start (poolTree st) (pool_end p) = Some h2 →
          h2 = h ∨ pool_end p ≤ pool_start (pool_of st h2)) →
   ∀ ptr, pool_start p ≤ ptr < pool_end p → find_pool_for_ptr st' ptr = Some h) ∧
  (∀ ptr, ¬ same_prefix (pool_start p) ptr → ¬ same_prefix (pool_end p) ptr →
          find_pool_for_ptr st' ptr = find_pool_for_ptr st ptr).
Proof.
  intros Hrun. apply modify_ok in Hrun. cbv zeta.
  set (p := pool_of st h) in *.
  assert (Hpools : ∀ h', pool_of st' h' = pool_of st h').
  { intros h'. subst st'. reflexivity. }
  assert (Htree : poolTree st'
                  = tree_set_end (tree_set_start (poolTree st) (pool_start p) (Some h))
                                 (pool_end p) (Some h)).
  { subst st'. reflexivity. }
  split; [subst st'; reflexivity |]. split; [subst st'; reflexivity |].
  split; [| split].
  - apply find_pool_by_start.
    + rewrite Htree, tree_start_set_end, tree_start_set_start.
      rewrite decide_True by (repeat split). reflexivity.
    + rewrite Hpools. fold p. lia.
  - intros He Hnext.
    assert (Hreg : registered st' h).
    { apply registered_intro; rewrite ?Hpools; fold p.
      - exact He.
      - rewrite Htree, tree_start_set_end, tree_start_set_start.
        rewrite decide_True by (repeat split). reflexivity.
      - rewrite Htree, <- He, tree_end_set_end.
        rewrite decide_True by (repeat split). reflexivity.
      - intros h2. rewrite Htree, tree_start_set_end, tree_start_set_start, <- He.
        destruct (decide (same_prefix (pool_start p) (pool_end p))).
        + intros [= <-]. left. reflexivity.
        + intros Hh2. rewrite Hpools. apply Hnext, Hh2. }
    intros ptr Hptr. apply Hreg. rewrite Hpools. fold p. exact Hptr.
  - intros ptr Hs He. rewrite !find_pool_for_ptr_entries. cbv zeta.
    rewrite Htree, tree_start_set_end, tree_start_set_start, tree_end_set_end,
      tree_end_set_start.
    rewrite !decide_False by assumption.
    destruct (tree_start (poolTree st) ptr) as [h1 |], (tree_end (poolTree st) ptr) as [h2 |];
      rewrite ?Hpools; reflexivity.
Qed.

(** Registering the first small pool once more leaves it resolvable. *)
Lemma add_pool_to_tree_registers_witness :
  find_pool_for_ptr (state_of (add_pool_to_tree 1 st_init)) (pool_start (pool_of st_init 1))
  = Some 1.
Proof.
  destruct (add_pool_to_tree_registers 1 st_init (state_of (add_pool_to_tree 1 st_init)))
    as (_ & _ & H & _).
  - reflexivity.
  - exact H.
Defined.

(** Adding a pool whose two slots are empty and removing it again
    restores the pool count and the answer of [find_pool_for_ptr] at
    every address. *)
Theorem add_then_remove_pool (h : Z) (st : State) :
  let p := pool_of st h in
  tree_start (poolTree st) (pool_start p) = None →
  tree_end (poolTree st) (pool_end p) = None →
  ∃ st1 st2,
    add_pool_to_tree h st = Ok tt st1 ∧ remove_pool_from_tree h st1 = Ok tt st2 ∧
    poolCount st2 = poolCount st ∧ pools st2 = pools st ∧
    ∀ ptr, find_pool_for_ptr st2 ptr = find_pool_for_ptr st ptr.
Proof.
  cbv zeta. intros Hs He.
  eexists _, _. split; [reflexivity |]. split; [reflexivity |].
  cbn [poolCount set_poolCount set_poolTree pools].
  split; [lia |]. split; [reflexivity |].
  intros ptr. rewrite !find_pool_for_ptr_entries. cbv zeta.
  set (p := pool_of st h) in *.
  assert (Hp : ∀ c t c' t' h',
             pool_of (set_poolCount c (set_poolTree t (set_poolCount c' (set_poolTree t' st)))) h'
             = pool_of st h') by reflexivity.
  assert (Hp1 : ∀ c t h', pool_of (set_poolCount c (set_poolTree t st)) h' = pool_of st h')
    by reflexivity.
  cbn [poolTree set_poolTree set_poolCount].
  rewrite ?Hp, ?Hp1. fold p.
  repeat first [rewrite tree_start_set_end | rewrite tree_start_set_start
               | rewrite tree_end_set_end | rewrite tree_end_set_start].
  assert (Hts : (if decide (same_prefix (pool_start p) ptr) then None
                 else if decide (same_prefix (pool_start p) ptr) then Some h
                      else tree_start (poolTree st) ptr)
                = tree_start (poolTree st) ptr).
  { destruct (decide (same_prefix (pool_start p) ptr)) as [Hsp |]; [| reflexivity].
    rewrite (tree_start_prefix _ _ _ Hsp). symmetry. exact Hs. }
  assert (Hte : (if decide (same_prefix (pool_end p) ptr) then None
                 else if decide (same_prefix (pool_end p) ptr) then Some h
                      else tree_end (poolTree st) ptr)
                = tree_end (poolTree st) ptr).
  { destruct (decide (same_prefix (pool_end p) ptr)) as [Hsp |]; [| reflexivity].
    rewrite (tree_end_prefix _ _ _ Hsp). symmetry. exact He. }
  rewrite Hts, Hte.
  destruct (tree_start (poolTree st) ptr) as [h1 |], (tree_end (poolTree st) ptr) as [h2 |];
    reflexivity.
Qed.

(** A descriptor for the two megabytes at [2^40], which the initial
    state does not know, is added and removed without a trace. *)
Lemma add_then_remove_pool_witness :
  let st := set_pool 50 (mkPool (2^40) (2^40 + POOL_SIZE) (2^40) NoTracking 0 0 0) st_init in
  ∃ st1 st2,
    add_pool_to_tree 50 st = Ok tt st1 ∧ remove_pool_from_tree 50 st1 = Ok tt st2 ∧
    poolCount st2 = poolCount st.
Proof.
  cbv zeta.
  destruct (add_then_remove_pool 50
              (set_pool 50 (mkPool (2^40) (2^40 + POOL_SIZE) (2^40) NoTracking 0 0 0) st_init))
    as (st1 & st2 & H1 & H2 & H3 & _).
  - vm_compute. reflexivity.
  - vm_compute. reflexivity.
  - exists st1, st2. repeat split; assumption.
Defined.

(** ** Sizes of live allocations *)

(** [ffmalloc_usable_size] on a pointer the registry resolves to pool
    [h]: the class size for a live slot of a small pool, the distance to
    the next boundary for a live entry of a large pool, the size of the
    pool for a jumbo pool.  The call leaves the state as it was. *)
Theorem usable_size_by_kind (st : State) (ptr h : Z) :
  ptr ≠ 0 → find_pool_for_ptr st ptr = Some h →
  (∀ cls, live_small st h ptr cls → ffmalloc_usable_size ptr st = Ok cls st) ∧
  (∀ cur, live_large st h ptr cur → ffmalloc_usable_size ptr st = Ok cur st) ∧
  (kind_of (pool_of st h) = JumboPool →
   ffmalloc_usable_size ptr st
   = Ok (wrap64 (pool_end (pool_of st h) - pool_start (pool_of st h))) st).
Proof.
  intros Hnz Hfind. split; [| split].
  - intros cls Hlive. apply usable_size_of_live; [exact Hnz |].
    exists h. split; [exact Hfind | left; exact Hlive].
  - intros cur Hlive. apply usable_size_of_live; [exact Hnz |].
    exists h. split; [exact Hfind | right; left; exact Hlive].
  - intros Hk. apply usable_size_in_jumbo_pool; assumption.
Qed.

(** Four megabytes from [ffmalloc] report four megabytes. *)
Lemma usable_size_by_kind_witness :
  let r := ffmalloc false 4194304 st_init in
  ffmalloc_usable_size (value_of 0 r) (state_of r) = Ok 4194304 (state_of r).
Proof.
  cbv zeta.
  destruct (usable_size_by_kind (state_of (ffmalloc false 4194304 st_init))
              (value_of 0 (ffmalloc false 4194304 st_init)) 10) as (_ & _ & H).
  - vm_compute. discriminate.
  - vm_compute. reflexivity.
  - rewrite H by (vm_compute; reflexivity). vm_compute. reflexivity.
Defined.

(** ** A jumbo allocation and its release *)

Lemma ends_ok_intro (st : State) : ends_check st = true → ends_ok st.
Proof.
  unfold ends_check. rewrite forallb_forall. intros Hall q h Hq.
  unfold tree_end, leaf_at in Hq.
  destruct (poolTree st !! stem_index q) as [stem |] eqn:H1; [| discriminate].
  cbn [mbind option_bind] in Hq.
  destruct (stem !! leaf_index q) as [leaf |] eqn:H2; [| discriminate].
  cbn [mbind option_bind] in Hq.
  apply elem_of_map_to_list, list_elem_of_In in H1, H2, Hq.
  pose proof (Hall _ H1) as Hstem. cbn [fst snd] in Hstem.
  rewrite forallb_forall in Hstem.
  pose proof (Hstem _ H2) as Hleaf. cbn [fst snd] in Hleaf.
  rewrite forallb_forall in Hleaf.
  pose proof (Hleaf _ Hq) as He. cbn [fst snd] in He.
  unfold end_entry_ok in He. apply andb_true_iff in He as [E1 E2].
  apply Z.ltb_lt in E1. apply Z.leb_le in E2. split; assumption.
Qed.

Lemma ranges_ok_intro (o : OS) : ranges_check o = true → ranges_ok o.
Proof.
  unfold ranges_check, ranges_ok. rewrite forallb_forall, Forall_forall.
  intros Hall r Hr. apply Z.ltb_lt, Hall, list_elem_of_In, Hr.
Qed.

(** [munmap] leaves a mapping it does not meet as it is. *)
Lemma cut_range_disjoint (a e : Z) (r : Z * Z) :
  a < e → r.1 < r.2 → range_overlaps a e r = false → cut_range a e r = [r].
Proof.
  destruct r as [s t]. unfold range_overlaps, cut_range. cbn [fst snd].
  intros Hae Hst Hov. apply andb_false_iff in Hov.
  assert (Hcase : t ≤ a ∨ e ≤ s).
  { destruct Hov as [H | H]; [apply Z.ltb_ge in H | apply Z.ltb_ge in H]; lia. }
  destruct Hcase as [Hl | Hr].
  - rewrite Z.min_r by lia. rewrite Z.max_l by lia.
    destruct (Z.ltb_spec s t); [| lia]. destruct (Z.ltb_spec e t); [lia |]. reflexivity.
  - rewrite Z.min_l by lia. rewrite Z.max_r by lia.
    destruct (Z.ltb_spec s a); [lia |]. destruct (Z.ltb_spec s t); [| lia]. reflexivity.
Qed.

(** Unmapping the range that was mapped last gives back the mappings
    there were before. *)
Lemma munmap_last_mapping (o : OS) (a len : Z) (l : list (Z * Z)) :
  0 < len → a mod PAGE_SIZE = 0 →
  mapped o = (a, a + len) :: l →
  Forall (λ r : Z * Z, r.1 < r.2) l →
  existsb (range_overlaps a (a + len)) l = false →
  munmap o a len = (0, mkOS l (brk o) (cpu o)).
Proof.
  intros Hlen Hal Hm Hne Hov. unfold munmap.
  destruct (Z.eqb_spec len 0); [lia |]. rewrite Hal. cbn [Z.eqb negb orb].
  f_equal. f_equal. rewrite Hm. cbn [map concat].
  unfold cut_range at 1. cbn [fst snd].
  rewrite Z.min_l by lia. rewrite Z.max_l by lia.
  rewrite !Z.ltb_irrefl. cbn [app].
  clear Hm. induction l as [| r l IH]; [reflexivity |].
  cbn [map concat existsb] in *. apply orb_false_iff in Hov as [Hr Hl].
  apply Forall_cons in Hne as [Hr1 Hl1].
  rewrite (cut_range_disjoint a (a + len) r ltac:(lia) Hr1 Hr).
  cbn [app]. f_equal. apply IH; assumption.
Qed.

(** The state a successful [ffmalloc_jumbo] leaves: one more pool,
    registered under the next handle, on a fresh mapping at or above the
    mark. *)
Lemma ffmalloc_jumbo_state (size : Z) (st st' : State) (p : Z) :
  ffmalloc_jumbo size st = Ok p st' → p ≠ 0 →
  let h := nextHandle st in
  let e := p + ALIGN_TO size PAGE_SIZE in
  0 < ALIGN_TO size PAGE_SIZE ∧
  poolTree st' = tree_set_end (tree_set_start (poolTree st) p (Some h)) e (Some h) ∧
  poolCount st' = poolCount st + 1 ∧
  mapped (os st') = (p, e) :: mapped (os st) ∧
  existsb (range_overlaps p e) (mapped (os st)) = false ∧
  poolHighWater st ≤ p.
Proof.
  unfold ffmalloc_jumbo, ffmetadata_alloc_pool, create_jumbopool, add_pool_to_tree.
  munfold.
  set (h := nextHandle st).
  set (st1 := set_pool h _ (set_nextHandle _ (set_pool h zero_pool st))).
  destruct (os_alloc_highwater (ALIGN_TO size PAGE_SIZE) st1) as [r st2 | | |] eqn:Hos;
    try discriminate.
  destruct (os_alloc_highwater_spec _ _ _ _ Hos)
    as ((_ & Hcount & Htree & Hpools & _ & _) & _ & Hmap).
  pose proof (os_alloc_highwater_maps _ _ _ _ Hos) as Hmaps.
  destruct r as [start |]; cbn [Z.eqb Z.opp Pos.eqb].
  2: { intros [= <- _] Hp. contradiction. }
  destruct (Hmap start eq_refl) as (Hal & Hmin & Htop & Hnz).
  assert (Hpos : 0 < ALIGN_TO size PAGE_SIZE).
  { assert (0 ≤ ALIGN_TO size PAGE_SIZE).
    { unfold ALIGN_TO. apply Z.land_nonneg. right. vm_compute. discriminate. }
    lia. }
  destruct (os_alloc_highwater_above _ _ _ _ Hpos Hos) as [Hab _].
  unfold hw_map_post in Hmaps. cbn [fst snd] in Hmaps. destruct Hmaps as [Hnew Hfree].
  assert (Hp2 : pool_of st2 h
                = set_nextFreeIndex (SIZE_MAX - 1) (set_tracking NoTracking zero_pool)).
  { unfold pool_of. rewrite Hpools. fold (pool_of st1 h). unfold st1.
    rewrite pool_of_set_pool_eq. f_equal. f_equal.
    unfold pool_of. st_simpl. rewrite lookup_insert_eq. reflexivity. }
  assert (Hend : wrap64 (start + ALIGN_TO size PAGE_SIZE) = start + ALIGN_TO size PAGE_SIZE).
  { unfold wrap64. apply Z.mod_small. unfold MMAP_MIN_ADDR, TASK_SIZE in *. lia. }
  rewrite Hp2, Hend. st_simpl.
  unfold pool_of. st_simpl. rewrite !lookup_insert_eq. cbn [default from_option id]. st_simpl.
  intros [= <- <-] Hp. cbv zeta. st_simpl.
  rewrite Htree, Hcount.
  repeat split; auto.
Qed.

(** A jumbo allocation from [ffmalloc] and its [fffree], in a state
    whose registered pools end at or below the mark: the free returns,
    the pool count and the mappings of the process are what they were
    before the allocation, and the pointer is unknown from then on, so
    that its usable size is 0 and a second free aborts.  The node of
    the pool stays on the jumbo list of the arena. *)
Theorem jumbo_malloc_free_round_trip (b : bool) (size : Z) (st st1 : State) (p : Z) :
  isInit st = 1 → ends_ok st → ranges_ok (os st) →
  POOL_SIZE - HALF_PAGE ≤ size ≤ SIZE_MAX - 16 →
  ffmalloc b size st = Ok p st1 → p ≠ 0 →
  ∃ st2, fffree p st1 = Ok tt st2 ∧
    poolCount st1 = poolCount st + 1 ∧ poolCount st2 = poolCount st ∧
    mapped (os st2) = mapped (os st) ∧
    jumboPoolList (arena0 st2) = nextHandle st :: jumboPoolList (arena0 st) ∧
    find_pool_for_ptr st2 p = None ∧
    ffmalloc_usable_size p st2 = Ok 0 st2 ∧
    fffree p st2 = Aborted "Attempt to free %p but no matching pool".
Proof.
  intros Hinit Hends Hranges Hsz Hrun Hnz.
  assert (Hs0 : (size =? 0) = false) by (apply Z.eqb_neq; unfold POOL_SIZE, HALF_PAGE in *; lia).
  pose proof (ffmalloc_routes b size st Hinit) as Hroute. rewrite Hs0 in Hroute.
  specialize (Hroute ltac:(unfold SIZE_MAX, MIN_ALIGNMENT in *; destruct b; lia)).
  cbv zeta in Hroute.
  destruct (align_size_bounds b size ltac:(unfold POOL_SIZE, HALF_PAGE in *; lia))
    as (_ & _ & Hge & _).
  destruct (Z.leb_spec (ALIGN_SIZE b size) HALF_PAGE) as [Hle | _];
    [unfold POOL_SIZE, HALF_PAGE in *; lia |].
  destruct (Z.ltb_spec (ALIGN_SIZE b size) (POOL_SIZE - HALF_PAGE)) as [Hlt | _]; [lia |].
  rewrite Hroute in Hrun. clear Hroute.
  apply with_enomem_ok in Hrun as (st0 & Hj & Hst). specialize (Hst Hnz). subst st0.
  destruct (ffmalloc_jumbo_spec _ _ _ _ Hj Hnz)
    as (Hlist & _ & _ & Hnfi & Hstart & Hend & Hpage & Hfind & Hother).
  destruct (ffmalloc_jumbo_state _ _ _ _ Hj Hnz)
    as (Hpos & Htree & Hcount & Hmapped & Hfree & Hmark).
  set (h := nextHandle st) in *.
  set (A := ALIGN_TO (ALIGN_SIZE b size) PAGE_SIZE) in *.
  assert (HA : wrap64 (p + A - p) = A).
  { replace (p + A - p) with A by lia. unfold wrap64. apply Z.mod_small.
    split; [lia |]. subst A. unfold ALIGN_TO.
    pose proof (wrap64_range (ALIGN_SIZE b size + (PAGE_SIZE - 1))) as Hw.
    change (PAGE_SIZE - 1) with (2^12 - 1) at 2.
    rewrite land_mask_eq by (exact Hw || lia).
    pose proof (Z.mod_pos_bound (wrap64 (ALIGN_SIZE b size + (PAGE_SIZE - 1))) (2^12)
                  ltac:(lia)).
    lia. }
  pose proof (munmap_last_mapping (os st1) p A (mapped (os st)) Hpos Hpage Hmapped
                Hranges Hfree) as Hun.
  assert (Hfree1 : fffree p st1
                   = Ok tt (set_poolCount (poolCount st1 - 1)
                              (set_poolTree
                                 (tree_set_end (tree_set_start (poolTree st1) p None)
                                               (p + A) None)
                                 (set_os (mkOS (mapped (os st)) (brk (os st1)) (cpu (os st1)))
                                         st1)))).
  { unfold fffree. destruct (Z.eqb_spec p 0); [contradiction |]. munfold.
    rewrite Hfind, Hnfi.
    change (SIZE_MAX - 1 <? SIZE_MAX - 1) with false.
    change (SIZE_MAX - 1 =? SIZE_MAX - 1) with true. cbv iota.
    unfold free_jumbo, destroy_pool. munfold. unfold os_free.
    rewrite Hstart, Hfind, Hstart, Hend, HA, Hun.
    cbn [Z.eqb negb]. cbv iota.
    unfold remove_pool_from_tree. munfold. unfold pool_of in *. st_simpl.
    rewrite Hstart, Hend. reflexivity. }
  eexists. split; [exact Hfree1 |].
  set (st2 := set_poolCount _ _) in *.
  assert (Hnone : find_pool_for_ptr st2 p = None).
  { rewrite find_pool_for_ptr_entries. cbv zeta. subst st2. st_simpl.
    rewrite tree_start_set_end, tree_start_set_start.
    rewrite decide_True by (repeat split).
    rewrite tree_end_set_end, tree_end_set_start, Htree, tree_end_set_end, tree_end_set_start.
    destruct (decide (same_prefix (p + A) p)); [reflexivity |].
    destruct (tree_end (poolTree st) p) as [h2 |] eqn:Hte; [| reflexivity].
    destruct (Hends p h2 Hte) as [Hh2 Hbelow].
    assert (Hp2 : pool_of (set_os (mkOS (mapped (os st)) (brk (os st1)) (cpu (os st1))) st1) h2
                  = pool_of st h2).
    { change (pool_of (set_os (mkOS (mapped (os st)) (brk (os st1)) (cpu (os st1))) st1) h2)
        with (pool_of st1 h2).
      apply Hother. subst h. lia. }
    unfold pool_of in *. st_simpl. rewrite Hp2.
    destruct (Z.ltb_spec p (pool_end (default zero_pool (pools st !! h2)))); [lia | reflexivity]. }
  split; [exact Hcount |].
  split; [subst st2; st_simpl; lia |].
  split; [subst st2; reflexivity |].
  split; [subst st2; exact Hlist |].
  split; [exact Hnone |].
  split; [apply usable_size_of_live; [exact 0 | exact Hnone] |].
  unfold fffree. destruct (Z.eqb_spec p 0); [contradiction |]. munfold.
  rewrite Hnone. reflexivity.
Qed.

(** Four megabytes taken from the initial state and given back. *)
Lemma jumbo_malloc_free_round_trip_witness :
  let r := ffmalloc false 4194304 st_init in
  ∃ st2, fffree (value_of 0 r) (state_of r) = Ok tt st2 ∧
         poolCount st2 = poolCount st_init ∧ mapped (os st2) = mapped (os st_init).
Proof.
  cbv zeta.
  destruct (jumbo_malloc_free_round_trip false 4194304 st_init
              (state_of (ffmalloc false 4194304 st_init))
              (value_of 0 (ffmalloc false 4194304 st_init)))
    as (st2 & Hfree & _ & Hcount & Hmap & _).
  - reflexivity.
  - apply ends_ok_intro. vm_compute. reflexivity.
  - apply ranges_ok_intro. vm_compute. reflexivity.
  - unfold POOL_SIZE, HALF_PAGE, SIZE_MAX. lia.
  - vm_compute. reflexivity.
  - vm_compute. discriminate.
  - exists st2. repeat split; assumption.
Defined.

(** ** Freeing a small allocation *)

Lemma not64_pow2_bits (pos j : Z) :
  0 ≤ pos < 64 → 0 ≤ j →
  Z.testbit (not64 (Z.shiftl 1 pos)) j = (j <? 64) && negb (j =? pos).
Proof.
  intros Hpos Hj. rewrite Z.shiftl_1_l.
  assert (Heq : not64 (2^pos) = Z.ldiff (Z.ones 64) (2^pos)).
  { rewrite <- Z.sub_nocarry_ldiff.
    - rewrite Z.ones_equiv. unfold not64, SIZE_MAX. lia.
    - apply Z.bits_inj'. intros n Hn.
      rewrite Z.ldiff_spec, Z.bits_0, Z.pow2_bits_eqb, Z.testbit_ones_nonneg by lia.
      destruct (Z.eqb_spec pos n), (Z.ltb_spec n 64); simpl; auto; lia. }
  rewrite Heq, Z.ldiff_spec, Z.testbit_ones_nonneg, Z.pow2_bits_eqb by lia.
  rewrite (Z.eqb_sym pos j). reflexivity.
Qed.

(** A read at an index outside the array gives the zero word. *)
Lemma zget_outside (l : list Z) (i : Z) : Z.of_nat (length l) ≤ i → zget l i = 0.
Proof.
  intros Hi. unfold zget. destruct (0 <=? i); [| reflexivity].
  apply nth_overflow. lia.
Qed.

Lemma pmget_outside (l : list pagemap_t) (i : Z) :
  Z.of_nat (length l) ≤ i → pmget l i = zero_pagemap.
Proof.
  intros Hi. unfold pmget. destruct (0 <=? i); [| reflexivity].
  apply nth_overflow. lia.
Qed.

(** [bitmap_clear] clears the bit of the slot and no other. *)
Lemma bitmap_clear_spec (pm : pagemap_t) (idx : Z) :
  0 ≤ idx → ((page_allocSize pm <? 64) = false → idx < 64) →
  slot_bit pm idx = true →
  slot_bit (cleared pm idx) idx = false ∧
  ∀ j, 0 ≤ j → ((page_allocSize pm <? 64) = false → j < 64) → j ≠ idx →
       slot_bit (cleared pm idx) j = slot_bit pm j.
Proof.
  intros Hidx Hsingle Hbit. unfold cleared, slot_bit, bitmap_clear in *.
  cbn [page_allocSize page_bitmap page_start].
  destruct (page_allocSize pm <? 64).
  - destruct (page_bitmap pm) as [w | a]; cbn [bm_array bm_single] in *.
    { unfold zget in Hbit. destruct (0 <=? idx / 64); [| rewrite Z.bits_0 in Hbit; discriminate].
      destruct (Z.to_nat (idx / 64)); rewrite Z.bits_0 in Hbit; discriminate. }
    rewrite (Z.shiftr_div_pow2 idx 6), (Z.shiftl_mul_pow2 (idx / 2 ^ 6) 6) by lia.
    change (2 ^ 6) with 64.
    replace (idx - idx / 64 * 64) with (idx mod 64)
      by (pose proof (Z.div_mod idx 64 ltac:(lia)); lia).
    pose proof (Z.mod_pos_bound idx 64 ltac:(lia)) as Hpos.
    assert (Hin : 0 ≤ idx / 64 < Z.of_nat (length a)).
    { split; [apply Z.div_pos; lia |].
      destruct (Z.lt_ge_cases (idx / 64) (Z.of_nat (length a))) as [| Hout]; [assumption |].
      rewrite (zget_outside a _ Hout), Z.bits_0 in Hbit. discriminate. }
    split.
    + rewrite zget_zset_eq by exact Hin.
      rewrite Z.land_spec, not64_pow2_bits by lia.
      rewrite Z.eqb_refl. cbn [negb]. rewrite andb_false_r, andb_false_r. reflexivity.
    + intros j Hj _ Hne.
      destruct (Z.eq_dec (j / 64) (idx / 64)) as [Heq | Hw].
      * rewrite Heq, zget_zset_eq by exact Hin.
        pose proof (Z.mod_pos_bound j 64 ltac:(lia)) as Hjpos.
        rewrite Z.land_spec, not64_pow2_bits by lia.
        destruct (Z.ltb_spec (j mod 64) 64); [| lia].
        destruct (Z.eqb_spec (j mod 64) (idx mod 64)) as [Hm |].
        { pose proof (Z.div_mod j 64 ltac:(lia)). pose proof (Z.div_mod idx 64 ltac:(lia)).
          lia. }
        cbn [negb andb]. apply andb_true_r.
      * rewrite zget_zset_ne by congruence. reflexivity.
  - specialize (Hsingle eq_refl).
    destruct (page_bitmap pm) as [w | a]; cbn [bm_array bm_single] in *.
    2: { rewrite Z.bits_0 in Hbit. discriminate. }
    split.
    + rewrite Z.land_spec, not64_pow2_bits by lia.
      rewrite Z.eqb_refl. cbn [negb]. rewrite andb_false_r, andb_false_r. reflexivity.
    + intros j Hj Hj64 Hne. specialize (Hj64 eq_refl).
      rewrite Z.land_spec, not64_pow2_bits by lia.
      destruct (Z.ltb_spec j 64); [| lia].
      destruct (Z.eqb_spec j idx); [contradiction |].
      cbn [negb andb]. apply andb_true_r.
Qed.

Lemma get_page_set_page_ne (st : State) (pp pp' : pagemap_ptr) (pm : pagemap_t) :
  pp ≠ pp' → get_page (set_page pp pm st) pp' = get_page st pp'.
Proof.
  destruct pp as [h i], pp' as [h' i']. intros Hne. unfold get_page, set_page. cbn [fst snd].
  destruct (Z.eq_dec h h') as [<- | Hh].
  - rewrite pool_of_set_pool_eq. unfold pagemaps at 1. cbn [tracking set_tracking].
    apply pmget_pmset_ne. congruence.
  - rewrite pool_of_set_pool_ne by exact Hh. reflexivity.
Qed.

(** The slot of a live small allocation lies on a page map of the
    pool. *)
Lemma live_page_index (st : State) (h ptr cls : Z) :
  small_slot st h ptr cls →
  0 ≤ wrap64 (ptr - pool_start (pool_of st h)) / PAGE_SIZE
    < Z.of_nat (length (pagemaps (pool_of st h))).
Proof.
  intros (_ & Hcls & Hnz & _).
  pose proof (wrap64_range (ptr - pool_start (pool_of st h))) as Hw.
  split; [apply Z.div_pos; unfold PAGE_SIZE; lia |].
  destruct (Z.lt_ge_cases (wrap64 (ptr - pool_start (pool_of st h)) / PAGE_SIZE)
              (Z.of_nat (length (pagemaps (pool_of st h))))) as [| Hout]; [assumption |].
  exfalso. apply Hnz. rewrite Hcls. unfold page_of, get_page. cbn [fst snd].
  rewrite (pmget_outside _ _ Hout). reflexivity.
Qed.

(** [fffree] of a live small allocation on a page that is not marked
    full clears the bit of the slot and nothing else: the call returns,
    the usable size of the pointer is 0 afterwards, a second [fffree] of
    it aborts, and every other live small allocation is live as before. *)
Theorem small_free_clears_slot (st : State) (h ptr cls : Z) :
  0 < ptr < 2^64 →
  find_pool_for_ptr st ptr = Some h → live_small st h ptr cls →
  wrap64 (ptr - page_start (page_of st h ptr)) < PAGE_SIZE →
  page_allocSize (page_of st h ptr) < 2^64 →
  Z.land (page_allocSize (page_of st h ptr)) 4 = 0 →
  ∃ st', fffree ptr st = Ok tt st' ∧
    ffmalloc_usable_size ptr st' = Ok 0 st' ∧
    fffree ptr st' = Aborted "free bad ptr: %p" ∧
    ∀ h' q c, 0 ≤ q < 2^64 → q ≠ ptr → live_small st h' q c →
      wrap64 (q - page_start (page_of st h' q)) < PAGE_SIZE →
      find_pool_for_ptr st' q = find_pool_for_ptr st q ∧ live_small st' h' q c.
Proof.
  intros Hptr Hfind [Hslot Hbit] Hoff Hword Hfull.
  pose proof (slot_index_bounds _ _ _ _ Hslot) as Hidx.
  pose proof (live_page_index _ _ _ _ Hslot) as Hpage.
  pose proof Hslot as (Hk & Hcls & Hnz & Hmod).
  pose proof (class_size_bounds _ (eq_ind _ (λ c, c ≠ 0) Hnz _ Hcls)) as H8.
  rewrite <- Hcls in H8.
  set (i := wrap64 (ptr - pool_start (pool_of st h)) / PAGE_SIZE) in *.
  set (pm := page_of st h ptr) in *.
  set (idx := slot_index st h ptr cls) in *.
  assert (Hpm : get_page st (h, i) = pm) by reflexivity.
  assert (Hc64 : 64 ≤ page_allocSize pm → 64 ≤ cls).
  { intros Hge. rewrite Hcls. change 7 with (2^3 - 1). rewrite land_mask_eq by lia.
    pose proof (Z.mod_pos_bound (page_allocSize pm) (2^3) ltac:(lia)) as Hb.
    pose proof (Z.div_mod (page_allocSize pm) (2^3) ltac:(lia)) as Hd.
    change (2^3) with 8 in *. lia. }
  assert (Hsingle : (page_allocSize pm <? 64) = false → idx < 64).
  { intros Hge. apply Z.ltb_ge in Hge. subst idx. unfold slot_index. fold pm.
    pose proof (Hc64 Hge).
    apply Z.div_lt_upper_bound; [lia |]. unfold PAGE_SIZE in Hoff. nia. }
  destruct (bitmap_clear_spec pm idx ltac:(lia) Hsingle Hbit) as [Hclr Hkeep].
  set (st' := set_page (h, i) (cleared pm idx) st).
  assert (Hfree : fffree ptr st = Ok tt st').
  { unfold fffree. destruct (Z.eqb_spec ptr 0); [lia |]. munfold. rewrite Hfind.
    apply kind_small in Hk as [-> ->].
    rewrite (find_small_ptr_slot _ _ _ _ Hslot). fold pm idx i. rewrite Hbit. cbn [fst snd].
    destruct (Z.ltb_spec idx 0); [lia |].
    unfold free_small_ptr. munfold. rewrite Hpm. cbn [page_allocSize].
    rewrite Hfull. cbn [Z.eqb negb]. reflexivity. }
  exists st'. split; [exact Hfree |].
  assert (Hfind' : ∀ q, find_pool_for_ptr st' q = find_pool_for_ptr st q).
  { intros q. apply find_pool_for_ptr_set_page. }
  assert (Hstart' : ∀ h', pool_start (pool_of st' h') = pool_start (pool_of st h')).
  { intros h'. apply (pool_of_set_page st (h, i) (cleared pm idx) h'). }
  assert (Hkind' : ∀ h', kind_of (pool_of st' h') = kind_of (pool_of st h')).
  { intros h'. apply kind_of_set_page. }
  assert (Hpm' : page_of st' h ptr = cleared pm idx).
  { unfold page_of. rewrite Hstart'. fold i. apply get_page_set_page_eq. exact Hpage. }
  assert (Hslot' : small_slot st' h ptr cls).
  { unfold small_slot. rewrite Hkind', Hpm'. cbn [cleared page_allocSize page_start].
    repeat split; assumption. }
  assert (Hidx' : slot_index st' h ptr cls = idx).
  { unfold slot_index. rewrite Hpm'. reflexivity. }
  assert (Hsearch : find_small_ptr ptr h st'
                    = Ok (if page_allocSize pm <? 64 then -1 else -3, (h, i)) st').
  { rewrite (find_small_ptr_slot _ _ _ _ Hslot'), Hidx', Hpm', Hclr, Hstart'.
    reflexivity. }
  pose proof Hk as Hk2. apply kind_small in Hk2 as [Hlarge Hjumbo].
  split; [| split].
  - unfold ffmalloc_usable_size. destruct (Z.eqb_spec ptr 0); [lia |]. munfold.
    rewrite Hfind', Hfind.
    assert (Hn : nextFreeIndex (pool_of st' h) = nextFreeIndex (pool_of st h))
      by apply (pool_of_set_page st (h, i) (cleared pm idx) h).
    rewrite Hn, Hlarge, Hjumbo, Hsearch. cbn [fst snd].
    destruct (page_allocSize pm <? 64); reflexivity.
  - unfold fffree. destruct (Z.eqb_spec ptr 0); [lia |]. munfold.
    rewrite Hfind', Hfind.
    assert (Hn : nextFreeIndex (pool_of st' h) = nextFreeIndex (pool_of st h))
      by apply (pool_of_set_page st (h, i) (cleared pm idx) h).
    rewrite Hn, Hlarge, Hjumbo, Hsearch. cbn [fst snd].
    destruct (page_allocSize pm <? 64); reflexivity.
  - intros h' q c Hq Hne [Hqslot Hqbit] Hqoff.
    split; [apply Hfind' |].
    pose proof (slot_index_bounds _ _ _ _ Hqslot) as Hqidx.
    pose proof (live_page_index _ _ _ _ Hqslot) as Hqpage.
    set (j := wrap64 (q - pool_start (pool_of st h')) / PAGE_SIZE) in *.
    destruct (decide ((h, i) = (h', j))) as [Heq | Hdiff].
    + injection Heq as Hh Hi. subst h'.
      assert (Hqpm : page_of st h q = pm).
      { unfold page_of. fold j. rewrite <- Hi. exact Hpm. }
      assert (Hqpm' : page_of st' h q = cleared pm idx).
      { unfold page_of. rewrite Hstart'. fold j. rewrite <- Hi.
        apply get_page_set_page_eq. exact Hpage. }
      destruct Hqslot as (_ & Hqcls & Hqnz & Hqmod). rewrite Hqpm in Hqcls, Hqmod, Hqoff.
      assert (Hcc : c = cls) by congruence. clear Hqcls. subst c.
      assert (Hjne : slot_index st h q cls ≠ idx).
      { unfold slot_index in *. rewrite Hqpm. subst idx. fold pm. intros Hsame.
        apply Hne.
        pose proof (Z.div_mod (wrap64 (q - page_start pm)) cls Hnz) as D1.
        pose proof (Z.div_mod (wrap64 (ptr - page_start pm)) cls Hnz) as D2.
        rewrite Hqmod in D1. rewrite Hmod in D2. rewrite Hsame in D1.
        assert (Hw : wrap64 (q - page_start pm) = wrap64 (ptr - page_start pm)) by lia.
        unfold wrap64 in Hw.
        assert (Hd : (q - ptr) mod 2^64 = 0).
        { replace (q - ptr) with ((q - page_start pm) - (ptr - page_start pm)) by lia.
          rewrite Zminus_mod, Hw, Z.sub_diag. reflexivity. }
        apply Z.mod_divide in Hd; [| lia]. destruct Hd as [k Hk']. lia. }
      split.
      * unfold small_slot. rewrite Hkind', Hqpm'. cbn [cleared page_allocSize page_start].
        repeat split; assumption.
      * unfold slot_index in *. rewrite Hqpm'. cbn [cleared page_start].
        rewrite Hqpm in Hqbit, Hjne, Hqidx.
        rewrite Hkeep; [exact Hqbit | lia | | exact Hjne].
        intros Hge. apply Z.ltb_ge in Hge.
        apply Z.div_lt_upper_bound; [lia |].
        pose proof (Hc64 Hge).
        unfold PAGE_SIZE in Hqoff. nia.
    + assert (Hqpm' : page_of st' h' q = page_of st h' q).
      { unfold page_of. rewrite Hstart'. fold j. apply get_page_set_page_ne. exact Hdiff. }
      split.
      * unfold small_slot in *. rewrite Hkind', Hqpm'. exact Hqslot.
      * unfold slot_index in *. rewrite Hqpm'. exact Hqbit.
Qed.

(** 24 bytes from the initial state, freed twice. *)
Lemma small_free_clears_slot_witness :
  let r := ffmalloc false 24 st_init in
  ∃ st', fffree (value_of 0 r) (state_of r) = Ok tt st' ∧
         fffree (value_of 0 r) st' = Aborted "free bad ptr: %p".
Proof.
  cbv zeta.
  destruct (small_free_clears_slot (state_of (ffmalloc false 24 st_init)) 1
              (value_of 0 (ffmalloc false 24 st_init)) 32)
    as (st' & Hfree & _ & Hagain & _).
  - vm_compute. split; reflexivity.
  - vm_compute. reflexivity.
  - split; [repeat split |]; vm_compute; congruence.
  - vm_compute. reflexivity.
  - vm_compute. reflexivity.
  - vm_compute. reflexivity.
  - exists st'. split; assumption.
Defined.

(** ** Large allocations *)

Lemma words_ok_intro (l : list Z) :
  (∀ i, 0 ≤ i < Z.of_nat (length l) → 0 ≤ zget l i < 2^64) → words_ok l = true.
Proof.
  intros Hall. unfold words_ok. rewrite forallb_forall. intros x Hx.
  destruct (In_nth l x 0 Hx) as (n & Hn & <-).
  specialize (Hall (Z.of_nat n) ltac:(lia)).
  rewrite zget_nth, Nat2Z.id in Hall by lia.
  apply andb_true_iff. split; [apply Z.leb_le | apply Z.ltb_lt]; lia.
Qed.

Lemma words_ok_zset (l : list Z) (i v : Z) :
  words_ok l = true → 0 ≤ v < 2^64 → words_ok (zset l i v) = true.
Proof.
  intros Hw Hv. apply words_ok_intro. intros j Hj. rewrite length_zset in Hj.
  destruct (Z.eq_dec i j) as [-> | Hne].
  - rewrite zget_zset_eq by exact Hj. exact Hv.
  - rewrite zget_zset_ne by exact Hne. apply zget_words_ok, Hw.
Qed.

Lemma zset_zset_eq (l : list Z) (i v w : Z) : zset (zset l i v) i w = zset l i w.
Proof.
  unfold zset. destruct (0 <=? i); [apply list_insert_insert_eq | reflexivity].
Qed.

(** [ffmalloc_large_from_pool] at a call site that has checked the fit,
    on a pool in order, for an alignment that is above [MIN_ALIGNMENT]
    or that the next free byte already has: the block returned is
    aligned, lies inside the pool, is a live entry of the pool with at
    least the size asked for, and is reported with that size by
    [ffmalloc_usable_size]; the pool stays in order while its boundary
    array has room. *)
Theorem large_allocation_is_live (b : bool) (size k h : Z) (st st' : State) (ptr : Z) :
  large_pool_ready st h →
  3 ≤ k ≤ 62 → 0 < size < 2^62 → size mod 8 = 0 →
  MIN_ALIGNMENT b < 2^k ∨ nextFreePage (pool_of st h) mod 2^k = 0 →
  pool_fits st size (2^k) h = true →
  ffmalloc_large_from_pool b size (2^k) h st = Ok ptr st' →
  ∃ cur, size ≤ cur ∧ ptr mod 2^k = 0 ∧
    pool_start (pool_of st h) ≤ ptr ∧ ptr + cur ≤ pool_end (pool_of st h) ∧
    live_large st' h ptr cur ∧
    ffmalloc_usable_size ptr st' = Ok cur st' ∧
    (nextFreeIndex (pool_of st h) + 2 < Z.of_nat (length (allocs (pool_of st h))) →
     large_pool_ready st' h).
Proof.
  intros (Hwf & Hreg & Hroom & Hlast & Hstart & Hnfp & Hend & Hnfp8 & Hend8)
    Hk Hsz Hsz8 Halign Hfit Hrun.
  assert (Hb0 : boundary (zget (allocs (pool_of st h)) (nextFreeIndex (pool_of st h)))
                ≤ nextFreePage (pool_of st h)).
  { rewrite Hlast, boundary_fixed; [lia | unfold TASK_SIZE in Hend; lia | exact Hnfp8]. }
  assert (Hr0 : 0 ≤ nextFreePage (pool_of st h) ≤ pool_end (pool_of st h)) by lia.
  destruct (ffmalloc_large_from_pool_sorted b size k h st st' ptr Hwf Hroom Hb0 Hr0
              Hend Hend8 Hk Hsz Hsz8 Hfit Hrun)
    as (Hsorted & Hidx & Hmod & Hlo & Hhi).
  destruct Hwf as (Hkind & Hn & Hw & Hs).
  set (p := pool_of st h) in *.
  unfold pool_fits in Hfit. fold p in Hfit. apply Z.leb_le in Hfit.
  unfold ffmalloc_large_from_pool in Hrun. fold p in Hrun.
  unfold TASK_SIZE in Hend. change BOUNDARY_COUNT with 1024 in Hroom.
  assert (H2k : 2^k ≤ 2^62) by (apply Z.pow_le_mono_r; lia).
  assert (H8k : 2^3 ≤ 2^k) by (apply Z.pow_le_mono_r; lia). change (2^3) with 8 in H8k.
  set (A := ALIGN_TO (nextFreePage p) (2^k)) in *.
  assert (HA : nextFreePage p ≤ A < nextFreePage p + 2^k ∧ A mod 2^k = 0)
    by (apply align_to_bounds; lia).
  destruct HA as [[HAlo HAhi] HAmod].
  assert (HA8 : A mod 8 = 0).
  { change 8 with (2^3). apply (mod_pow2_le _ 3 k); [lia | exact HAmod]. }
  unfold wrap64 in Hfit, Hrun. rewrite (Z.mod_small (A + size)) in Hfit, Hrun by lia.
  rewrite (Z.mod_small (nextFreeIndex p + 1)) in Hrun by lia.
  injection Hrun as HptrA Hst'.
  assert (Hentry : (if MIN_ALIGNMENT b <? 2^k
                    then zget (zset (allocs p) (nextFreeIndex p) A) (nextFreeIndex p)
                    else zget (allocs p) (nextFreeIndex p)) = A).
  { destruct (Z.ltb_spec (MIN_ALIGNMENT b) (2^k)) as [Hbig | Hsmall].
    - apply zget_zset_eq. lia.
    - destruct Halign as [? | Hal]; [lia |]. rewrite Hlast.
      pose proof (Z.div_mod (nextFreePage p) (2^k) ltac:(lia)) as Hd.
      pose proof (Z.div_mod A (2^k) ltac:(lia)) as Hd'.
      rewrite Hal in Hd. rewrite HAmod in Hd'.
      set (P := 2^k) in *. set (q1 := nextFreePage p / P) in *. set (q2 := A / P) in *.
      assert (Hq1 : q1 ≤ q2) by (apply (Z.mul_le_mono_pos_l _ _ P); lia).
      assert (Hq2 : q2 < q1 + 1) by (apply (Z.mul_lt_mono_pos_l P); lia).
      assert (Hq : q2 = q1) by lia. rewrite Hq in Hd'. lia. }
  set (E := if to_signed ((pool_end p - (A + size)) mod 2^64) <? HALF_PAGE + MIN_ALIGNMENT b
            then pool_end p else A + size) in *.
  assert (HE : A + size ≤ E ≤ pool_end p ∧ E mod 8 = 0).
  { unfold E. clear Hst'.
    destruct (to_signed ((pool_end p - (A + size)) mod 2^64) <? HALF_PAGE + MIN_ALIGNMENT b).
    - split; [lia | exact Hend8].
    - split; [lia |]. rewrite Zplus_mod, HA8, Hsz8. reflexivity. }
  destruct HE as [HEr HE8].
  set (arr0 := if MIN_ALIGNMENT b <? 2^k
               then zset (allocs p) (nextFreeIndex p) A else allocs p) in *.
  assert (Hlen0 : length arr0 = length (allocs p)).
  { unfold arr0. destruct (MIN_ALIGNMENT b <? 2^k); [apply length_zset | reflexivity]. }
  assert (Hw0 : words_ok arr0 = true).
  { unfold arr0.
    destruct (MIN_ALIGNMENT b <? 2^k); [apply words_ok_zset; [exact Hw | lia] | exact Hw]. }
  assert (Hp' : pool_of st' h
                = mkPool (pool_start p) (pool_end p) E
                         (Allocations (zset arr0 (nextFreeIndex p + 1) E))
                         (nextFreeIndex p + 1) (startInUse p) (endInUse p)).
  { rewrite <- Hst'. rewrite pool_of_set_pool_eq. unfold E, arr0.
    destruct (to_signed ((pool_end p - (A + size)) mod 2^64) <? HALF_PAGE + MIN_ALIGNMENT b).
    - rewrite zset_zset_eq. reflexivity.
    - reflexivity. }
  assert (Hget1 : zget (zset arr0 (nextFreeIndex p + 1) E) (nextFreeIndex p + 1) = E).
  { apply zget_zset_eq. lia. }
  assert (Hget0 : zget (zset arr0 (nextFreeIndex p + 1) E) (nextFreeIndex p) = A).
  { rewrite zget_zset_ne by lia. unfold arr0.
    destruct (MIN_ALIGNMENT b <? 2^k); exact Hentry. }
  assert (Hwf' : large_wf (pool_of st' h)).
  { rewrite Hp' in Hsorted. rewrite Hp'. unfold large_wf.
    cbn [nextFreeIndex allocs tracking]. split; [| split; [| split]].
    - unfold kind_of. cbn [nextFreeIndex].
      destruct (Z.ltb_spec (nextFreeIndex p + 1) (SIZE_MAX - 1)); [reflexivity |].
      unfold SIZE_MAX in *. lia.
    - rewrite length_zset, Hlen0. lia.
    - apply words_ok_zset; [exact Hw0 | lia].
    - exact Hsorted. }
  assert (Hreg' : registered st' h).
  { intros q Hq. rewrite Hp' in Hq. cbn [pool_start pool_end] in Hq.
    rewrite (find_pool_for_ptr_ext st st').
    - apply Hreg. exact Hq.
    - rewrite <- Hst'. reflexivity.
    - intros h2. destruct (Z.eq_dec h h2) as [<- | Hne].
      + rewrite Hp'. split; reflexivity.
      + rewrite <- Hst'. rewrite pool_of_set_pool_ne by exact Hne. split; reflexivity. }
  assert (HbE : boundary E = E) by (apply boundary_fixed; [lia | exact HE8]).
  assert (Hlive : live_large st' h A (E - A)).
  { split; [exact Hwf' |]. rewrite Hp'. cbn [nextFreeIndex allocs tracking].
    exists (nextFreeIndex p). split; [lia |].
    rewrite Hget0, Hget1, HbE. split; [| split].
    - unfold live_boundary. rewrite Z.eqb_refl, andb_true_r.
      apply Z.eqb_eq. change 7 with (Z.ones 3). rewrite Z.land_ones by lia.
      exact HA8.
    - unfold wrap64. rewrite Z.mod_small by lia. reflexivity.
    - lia. }
  exists (E - A). subst ptr.
  split; [lia |]. split; [exact HAmod |]. split; [lia |]. split; [lia |].
  split; [exact Hlive |]. split.
  - apply usable_size_of_live; [lia |]. exists h. split; [| right; left; exact Hlive].
    apply Hreg'. rewrite Hp'. cbn [pool_start pool_end]. lia.
  - intros Hroom2. unfold large_pool_ready. cbv zeta.
    split; [exact Hwf' |]. split; [exact Hreg' |]. rewrite Hp'.
    cbn [nextFreeIndex allocs tracking pool_start pool_end nextFreePage].
    rewrite length_zset, Hlen0, Hget1.
    change BOUNDARY_COUNT with 1024.
    repeat split; try lia; assumption.
Qed.

Lemma large_pool_check_ok (st : State) (h : Z) :
  large_pool_check st h = true → large_pool_ready st h.
Proof.
  unfold large_pool_check, large_pool_ready. cbv zeta. intros H.
  repeat (apply andb_true_iff in H as [H ?]).
  repeat match goal with
         | Hx : (_ =? _) = true |- _ => apply Z.eqb_eq in Hx
         | Hx : (_ <? _) = true |- _ => apply Z.ltb_lt in Hx
         | Hx : (_ <=? _) = true |- _ => apply Z.leb_le in Hx
         | Hx : same_handle _ _ = true |- _ => apply same_handle_true in Hx
         end.
  assert (Hkind : kind_of (pool_of st h) = LargePool)
    by (destruct (kind_of (pool_of st h)); [discriminate | reflexivity | discriminate]).
  split; [repeat split; try assumption; lia |].
  split.
  - apply registered_intro; try assumption.
    intros h2 Hh2.
    destruct (tree_start (poolTree st) (pool_start (pool_of st h) + POOL_SIZE)) as [h3 |];
      [| discriminate].
    injection Hh2 as ->.
    match goal with Hx : (_ || _) = true |- _ => apply orb_true_iff in Hx as [Hx | Hx] end.
    + left. apply Z.eqb_eq. assumption.
    + right. apply Z.leb_le. assumption.
  - repeat split; try assumption; lia.
Qed.

(** 5008 bytes from the first large pool of the initial state. *)
Lemma large_allocation_is_live_witness :
  let r := ffmalloc_large_from_pool false 5008 16 2 st_init in
  ∃ cur, 5008 ≤ cur ∧
         ffmalloc_usable_size (value_of 0 r) (state_of r) = Ok cur (state_of r).
Proof.
  cbv zeta.
  destruct (large_allocation_is_live false 5008 4 2 st_init
              (state_of (ffmalloc_large_from_pool false 5008 16 2 st_init))
              (value_of 0 (ffmalloc_large_from_pool false 5008 16 2 st_init)))
    as (cur & Hcur & _ & _ & _ & _ & Hus & _).
  - apply large_pool_check_ok. vm_compute. reflexivity.
  - lia.
  - lia.
  - reflexivity.
  - right. vm_compute. reflexivity.
  - vm_compute. reflexivity.
  - vm_compute. reflexivity.
  - exists cur. split; assumption.
Defined.

(** ** Freeing a large allocation *)

Lemma destroy_pool_pools (h : Z) (st st' : State) :
  destroy_pool h st = Ok tt st' → pools st' = pools st.
Proof.
  unfold destroy_pool. intros Hrun.
  apply bind_ok in Hrun as (s0 & st0 & Hg & Hrun). apply get_ok in Hg as [-> ->].
  apply bind_ok in Hrun as (r & st1 & Hos & Hrun).
  assert (Hp1 : pools st1 = pools st).
  { unfold os_free in Hos. destruct (find_pool_for_ptr st _); [| discriminate].
    destruct (munmap _ _ _) as [r0 o']. injection Hos as <- <-.
    destruct (r0 =? 0); reflexivity. }
  destruct (negb (r =? 0)); [discriminate |].
  unfold remove_pool_from_tree in Hrun. apply modify_ok in Hrun. subst st'. exact Hp1.
Qed.

Lemma decommit_or_abort_pools (msg : string) (a n : Z) (st st' : State) (go : bool) :
  decommit_or_abort msg a n st = Ok go st' → pools st' = pools st ∧ poolTree st' = poolTree st.
Proof.
  unfold decommit_or_abort. intros Hrun.
  apply bind_ok in Hrun as (r & st1 & Hos & Hrun).
  assert (Hp1 : pools st1 = pools st ∧ poolTree st1 = poolTree st).
  { unfold os_decommit in Hos. destruct (munmap _ _ _) as [r0 o']. injection Hos as <- <-.
    destruct (r0 =? 0); split; reflexivity. }
  destruct (r =? -1).
  - apply bind_ok in Hrun as (s0 & st0 & Hg & Hrun). apply get_ok in Hg as [-> ->].
    destruct (errno st1 =? ENOMEM); [| discriminate].
    apply ret_ok in Hrun as [_ ->]. exact Hp1.
  - apply ret_ok in Hrun as [_ ->]. exact Hp1.
Qed.

(** Setting status bits in the entries of a range leaves every entry as
    it was or with the bits added. *)
Lemma mark_range_entries (arr : list Z) (first last bits : Z) :
  length (mark_range arr first last bits) = length arr ∧
  ∀ j, zget (mark_range arr first last bits) j = zget arr j ∨
       zget (mark_range arr first last bits) j = Z.lor (zget arr j) bits.
Proof.
  unfold mark_range. generalize (seqZ first (last - first + 1)). intros js.
  assert (Hgen : ∀ l, length l = length arr →
            (∀ j, zget l j = zget arr j ∨ zget l j = Z.lor (zget arr j) bits) →
            length (foldl (λ l i, zset l i (Z.lor (zget l i) bits)) l js) = length arr ∧
            ∀ j, zget (foldl (λ l i, zset l i (Z.lor (zget l i) bits)) l js) j = zget arr j ∨
                 zget (foldl (λ l i, zset l i (Z.lor (zget l i) bits)) l js) j
                 = Z.lor (zget arr j) bits).
  { induction js as [| i js IH]; intros l Hlen Hl; [split; assumption |].
    cbn [foldl]. apply IH; [rewrite length_zset; exact Hlen |].
    intros j. destruct (Z.eq_dec i j) as [-> | Hne].
    - destruct (Z.lt_ge_cases j 0) as [Hneg | Hpos].
      { unfold zset. destruct (Z.leb_spec 0 j); [lia |]. apply Hl. }
      destruct (Z.lt_ge_cases j (Z.of_nat (length l))) as [Hin | Hout].
      + rewrite zget_zset_eq by lia. right.
        destruct (Hl j) as [-> | ->]; [reflexivity |].
        rewrite <- Z.lor_assoc, Z.lor_diag. reflexivity.
      + unfold zset. destruct (0 <=? j); [| apply Hl].
        rewrite list_insert_ge by lia. apply Hl.
    - rewrite zget_zset_ne by exact Hne. apply Hl. }
  apply Hgen; [reflexivity |]. intros j. left. reflexivity.
Qed.

(** The descriptor of the pool after [free_large_pointer]: the entry
    of the allocation carries the freed bit, [startInUse] may have
    moved, and the entries of the free run around the allocation may
    carry the unmapped bits. *)
Lemma free_large_pointer_pool (h index size : Z) (st st' : State) :
  free_large_pointer h index size st = Ok tt st' →
  let p := pool_of st h in
  let arr1 := zset (allocs p) index (Z.lor (zget (allocs p) index) 1) in
  let f := scan_first_free (Z.to_nat index) arr1 index in
  let l := scan_last_free (Z.to_nat (nextFreeIndex p - index)) arr1 (nextFreeIndex p) index in
  ∃ v arr2, (arr2 = arr1 ∨ arr2 = mark_range arr1 f l 3) ∧
    pool_of st' h
    = mkPool (pool_start p) (pool_end p) (nextFreePage p) (Allocations arr2)
             (nextFreeIndex p) v (endInUse p).
Proof.
  intros Hrun. cbv zeta.
  set (p := pool_of st h).
  set (arr1 := zset (allocs p) index (Z.lor (zget (allocs p) index) 1)).
  unfold free_large_pointer in Hrun.
  apply bind_ok in Hrun as ([] & st1 & Hm & Hrun). apply modify_ok in Hm.
  apply bind_ok in Hrun as (s1 & st1' & Hg & Hrun). apply get_ok in Hg as [-> ->].
  assert (Hp1 : pool_of st1 h = set_tracking (Allocations arr1) p).
  { subst st1. unfold set_allocs. rewrite pool_of_set_pool_eq. reflexivity. }
  rewrite Hp1 in Hrun.
  cbn [allocs tracking set_tracking nextFreeIndex pool_end pool_start startInUse endInUse]
    in Hrun.
  set (f := scan_first_free (Z.to_nat index) arr1 index) in *.
  set (l := scan_last_free (Z.to_nat (nextFreeIndex p - index)) arr1 (nextFreeIndex p) index)
    in *.
  destruct (Z.land (zget arr1 (l + 1)) (not64 7) =? 0); [discriminate |].
  match type of Hrun with
  | (if ?c then _ else _) _ = _ => destruct c; [discriminate |]
  end.
  apply bind_ok in Hrun as ([] & st2 & Hm2 & Hrun). apply modify_ok in Hm2.
  match type of Hm2 with
  | st2 = set_pool h ?q st1 => set (p2 := q) in *
  end.
  assert (Hp2 : ∃ v, p2 = mkPool (pool_start p) (pool_end p) (nextFreePage p)
                            (Allocations arr1) (nextFreeIndex p) v (endInUse p)).
  { subst p2.
    repeat match goal with
           | |- context [if ?c then _ else _] => destruct c
           end; eexists; reflexivity. }
  destruct Hp2 as [v Hp2].
  assert (Hst2 : pool_of st2 h = p2).
  { subst st2. apply pool_of_set_pool_eq. }
  assert (Hkeep : ∀ s, pools s = pools st2 → pool_of s h = p2).
  { intros s Hs. unfold pool_of. rewrite Hs. exact Hst2. }
  rewrite Hp2 in Hrun.
  cbn [allocs tracking nextFreeIndex pool_end pool_start startInUse endInUse] in Hrun.
  match type of Hrun with
  | (if ?c then _ else _) _ = _ => destruct c
  end.
  { apply destroy_pool_pools in Hrun. exists v, arr1. split; [left; reflexivity |].
    rewrite (Hkeep _ Hrun). exact Hp2. }
  match type of Hrun with
  | (if ?c then _ else _) _ = _ => destruct c
  end.
  2: { apply ret_ok in Hrun as [_ ->]. exists v, arr1. split; [left; reflexivity |].
       rewrite Hst2. exact Hp2. }
  match type of Hrun with
  | (if ?c then _ else _) _ = _ => destruct c
  end.
  2: { apply ret_ok in Hrun as [_ ->]. exists v, arr1. split; [left; reflexivity |].
       rewrite Hst2. exact Hp2. }
  apply bind_ok in Hrun as (go & st3 & Hdec & Hrun).
  apply decommit_or_abort_pools in Hdec as [Hpools3 _].
  destruct go.
  - apply modify_ok in Hrun. exists v, (mark_range arr1 f l 3).
    split; [right; reflexivity |].
    subst st'. unfold set_allocs. rewrite pool_of_set_pool_eq.
    rewrite (Hkeep _ Hpools3), Hp2. reflexivity.
  - apply ret_ok in Hrun as [_ ->]. exists v, arr1. split; [left; reflexivity |].
    rewrite (Hkeep _ Hpools3). exact Hp2.
Qed.

Lemma scan_first_free_spec (fuel : nat) (arr : list Z) (i : Z) :
  scan_first_free fuel arr i ≤ i ∧
  ∀ j, scan_first_free fuel arr i ≤ j < i → Z.land (zget arr j) 3 = 1.
Proof.
  revert i. induction fuel as [| fuel IH]; intros i; cbn [scan_first_free].
  { split; [lia | intros j Hj; lia]. }
  destruct ((0 <? i) && (Z.land (zget arr (i - 1)) 3 =? 1)) eqn:Hc.
  - apply andb_true_iff in Hc as [_ Hone]. apply Z.eqb_eq in Hone.
    destruct (IH (i - 1)) as [Hle Hall]. split; [lia |].
    intros j Hj. destruct (Z.eq_dec j (i - 1)) as [-> | Hne]; [exact Hone |].
    apply Hall. lia.
  - split; [lia | intros j Hj; lia].
Qed.

Lemma scan_last_free_spec (fuel : nat) (arr : list Z) (nfi i : Z) :
  i ≤ scan_last_free fuel arr nfi i ∧
  ∀ j, i < j ≤ scan_last_free fuel arr nfi i → Z.land (zget arr j) 3 = 1.
Proof.
  revert i. induction fuel as [| fuel IH]; intros i; cbn [scan_last_free].
  { split; [lia | intros j Hj; lia]. }
  destruct ((i <? nfi) && (Z.land (zget arr (i + 1)) 3 =? 1)) eqn:Hc.
  - apply andb_true_iff in Hc as [_ Hone]. apply Z.eqb_eq in Hone.
    destruct (IH (i + 1)) as [Hle Hall]. split; [lia |].
    intros j Hj. destruct (Z.eq_dec j (i + 1)) as [-> | Hne]; [exact Hone |].
    apply Hall. lia.
  - split; [lia | intros j Hj; lia].
Qed.

(** Only the entries from [first] to [last] can change. *)
Lemma mark_range_outside (arr : list Z) (first last bits j : Z) :
  ¬ first ≤ j ≤ last → zget (mark_range arr first last bits) j = zget arr j.
Proof.
  intros Hout. unfold mark_range.
  assert (Hjs : ∀ i, i ∈ seqZ first (last - first + 1) → i ≠ j).
  { intros i Hi. apply elem_of_seqZ in Hi. lia. }
  revert Hjs. generalize (seqZ first (last - first + 1)). intros js. revert arr.
  induction js as [| i js IH]; intros arr Hjs; [reflexivity |].
  cbn [foldl]. rewrite IH.
  - apply zget_zset_ne, Hjs. left.
  - intros i' Hi'. apply Hjs. right. exact Hi'.
Qed.

(** The status bits do not reach the boundary. *)
Lemma boundary_lor_status (x m : Z) : 0 ≤ m ≤ 7 → boundary (Z.lor x m) = boundary x.
Proof.
  intros Hm. unfold boundary. rewrite Z.land_lor_distr_l.
  replace (Z.land m (not64 7)) with 0; [apply Z.lor_0_r |].
  assert (Hc : m = 0 ∨ m = 1 ∨ m = 2 ∨ m = 3 ∨ m = 4 ∨ m = 5 ∨ m = 6 ∨ m = 7) by lia.
  destruct Hc as [-> | [-> | [-> | [-> | [-> | [-> | [-> | ->]]]]]]]; reflexivity.
Qed.

Lemma lor_status_range (x m : Z) : 0 ≤ x < 2^64 → 0 ≤ m ≤ 7 → 0 ≤ Z.lor x m < 2^64.
Proof.
  intros Hx Hm. split; [apply Z.lor_nonneg; lia |].
  destruct (Z.eq_dec (Z.lor x m) 0) as [-> | Hnz]; [lia |].
  apply Z.log2_lt_pow2; [pose proof (Z.lor_nonneg x m); lia |].
  rewrite Z.log2_lor by lia.
  assert (Hlx : Z.log2 x < 64).
  { destruct (Z.eq_dec x 0) as [-> | ?]; [reflexivity |]. apply Z.log2_lt_pow2; lia. }
  assert (Hlm : Z.log2 m < 64).
  { destruct (Z.eq_dec m 0) as [-> | ?]; [reflexivity |].
    apply Z.log2_lt_pow2; [lia |]. change (2^64) with 18446744073709551616. lia. }
  lia.
Qed.

Lemma live_word (e : Z) :
  Z.land e 7 = 0 → Z.land e 3 = 0 ∧ Z.testbit e 0 = false.
Proof.
  intros H7. split.
  - change 3 with (Z.land 7 3). rewrite Z.land_assoc, H7. reflexivity.
  - apply (f_equal (λ z, Z.testbit z 0)) in H7.
    rewrite Z.land_spec, Z.bits_0 in H7. change (Z.testbit 7 0) with true in H7.
    rewrite andb_true_r in H7. exact H7.
Qed.

(** The binary search finds the entry that stores the pointer. *)
Lemma find_large_ptr_at (st : State) (h ptr i : Z) :
  large_wf (pool_of st h) →
  0 ≤ i < nextFreeIndex (pool_of st h) → zget (allocs (pool_of st h)) i = ptr →
  find_large_ptr ptr h st
  = Ok (wrap64 (boundary (zget (allocs (pool_of st h)) (i + 1)) - ptr), i) st.
Proof.
  intros (Hk & Hn & Hw & Hs) Hi Hptr. unfold find_large_ptr.
  apply kind_large, Z.ltb_lt in Hk.
  replace ((nextFreeIndex (pool_of st h) - 0) / 2)
    with (0 + (nextFreeIndex (pool_of st h) - 0) / 2) by lia.
  destruct (find_large_loop_fuel 64 (allocs (pool_of st h)) (nextFreeIndex (pool_of st h))
              ptr 0 (nextFreeIndex (pool_of st h)) ltac:(lia)
              ltac:(unfold SIZE_MAX in Hk; change (2 ^ Z.of_nat 64) with (2 ^ 64); lia))
    as [r Hr].
  rewrite Hr. f_equal.
  apply (find_large_loop_hit _ _ _ ptr 0 _ i) in Hr; [exact Hr | | lia | lia | lia | exact Hptr].
  intros a c Hac Hc. apply large_sorted_raw; auto.
Qed.

(** [fffree] of a live large allocation marks its entry and no live
    one: the pool is in order afterwards, every other live allocation
    of the pool is live with the size it had, and the pointer itself is
    no longer live.  While the pool is registered, the usable size of
    the pointer is 0 and a second [fffree] of it aborts. *)
Theorem large_free_marks_entry (st st' : State) (h ptr cur : Z) :
  ptr ≠ 0 → find_pool_for_ptr st ptr = Some h → live_large st h ptr cur →
  fffree ptr st = Ok tt st' →
  large_wf (pool_of st' h) ∧
  (∀ q c, q ≠ ptr → live_large st h q c → live_large st' h q c) ∧
  (∀ c, ¬ live_large st' h ptr c) ∧
  (find_pool_for_ptr st' ptr = Some h →
   ffmalloc_usable_size ptr st' = Ok 0 st' ∧
   fffree ptr st' = Aborted "free bad large ptr: %p").
Proof.
  intros Hnz Hfind Hlive Hrun.
  pose proof Hlive as [Hwf (i & Hi & Hlb & Hcur & Hcnz)].
  pose proof Hwf as (Hk & Hn & Hw & Hs).
  apply live_boundary_true in Hlb as [Hentry Hptr7].
  set (p := pool_of st h) in *. set (arr := allocs p) in *.
  (* the call is [free_large_pointer] at index [i] *)
  assert (Hfree : free_large_pointer h i cur st = Ok tt st').
  { unfold fffree in Hrun. destruct (Z.eqb_spec ptr 0); [contradiction |].
    apply bind_ok in Hrun as (s0 & st0 & Hg & Hrun). apply get_ok in Hg as [-> ->].
    rewrite Hfind in Hrun. fold p in Hrun.
    pose proof Hk as Hk'. apply kind_large in Hk'. rewrite Hk' in Hrun.
    apply bind_ok in Hrun as (si & st1 & Hsearch & Hrun).
    rewrite (find_large_ptr_at st h ptr i Hwf Hi Hentry) in Hsearch.
    injection Hsearch as <- <-. cbn [fst snd] in Hrun.
    fold p arr in Hrun. rewrite <- Hcur in Hrun.
    destruct (Z.eqb_spec cur 0); [contradiction | exact Hrun]. }
  destruct (free_large_pointer_pool h i cur st st' Hfree) as (v & arr2 & Harr2 & Hp').
  fold p arr in Harr2, Hp'.
  set (arr1 := zset arr i (Z.lor (zget arr i) 1)) in *.
  set (f := scan_first_free (Z.to_nat i) arr1 i) in *.
  set (l := scan_last_free (Z.to_nat (nextFreeIndex p - i)) arr1 (nextFreeIndex p) i) in *.
  assert (Hget1 : ∀ j, zget arr1 j = if decide (j = i) then Z.lor (zget arr i) 1 else zget arr j).
  { intros j. unfold arr1. destruct (decide (j = i)) as [-> | Hne].
    - apply zget_zset_eq. lia.
    - apply zget_zset_ne. congruence. }
  assert (Hlen1 : length arr1 = length arr) by apply length_zset.
  assert (Hlen2 : length arr2 = length arr).
  { destruct Harr2 as [-> | ->]; [exact Hlen1 |].
    rewrite (proj1 (mark_range_entries arr1 f l 3)). exact Hlen1. }
  (* the entries after the call *)
  assert (Hrel : ∀ j, zget arr2 j = zget arr1 j ∨
                      (f ≤ j ≤ l ∧ zget arr2 j = Z.lor (zget arr1 j) 3)).
  { intros j. destruct Harr2 as [-> | ->]; [left; reflexivity |].
    destruct (decide (f ≤ j ≤ l)) as [Hin | Hout].
    - destruct (proj2 (mark_range_entries arr1 f l 3) j) as [-> | ->];
        [left; reflexivity | right; split; [exact Hin | reflexivity]].
    - left. apply mark_range_outside. exact Hout. }
  assert (Hbnd : ∀ j, boundary (zget arr2 j) = boundary (zget arr j)).
  { intros j.
    assert (H1 : boundary (zget arr1 j) = boundary (zget arr j)).
    { rewrite Hget1. destruct (decide (j = i)) as [-> | _]; [| reflexivity].
      apply boundary_lor_status. lia. }
    destruct (Hrel j) as [-> | [_ ->]]; [exact H1 |].
    rewrite boundary_lor_status by lia. exact H1. }
  assert (Hbit : Z.testbit (zget arr2 i) 0 = true).
  { assert (H1 : Z.testbit (zget arr1 i) 0 = true).
    { rewrite Hget1, decide_True by reflexivity. rewrite Z.lor_spec.
      change (Z.testbit 1 0) with true. apply orb_true_r. }
    destruct (Hrel i) as [-> | [_ ->]]; [exact H1 |].
    rewrite Z.lor_spec, H1. reflexivity. }
  assert (Hstay : ∀ j, j ≠ i → Z.land (zget arr j) 7 = 0 → zget arr2 j = zget arr j).
  { intros j Hne H7. apply live_word in H7 as [H3 _].
    assert (H1 : zget arr1 j = zget arr j)
      by (rewrite Hget1, decide_False by exact Hne; reflexivity).
    destruct (Hrel j) as [-> | [Hin _]]; [exact H1 |].
    exfalso. rewrite <- H1 in H3.
    destruct (Z.lt_trichotomy j i) as [Hlt | [-> | Hgt]]; [| contradiction |].
    - pose proof (proj2 (scan_first_free_spec (Z.to_nat i) arr1 i) j) as Hs1.
      fold f in Hs1. rewrite Hs1 in H3 by lia. discriminate.
    - pose proof (proj2 (scan_last_free_spec (Z.to_nat (nextFreeIndex p - i)) arr1
                           (nextFreeIndex p) i) j) as Hs1.
      fold l in Hs1. rewrite Hs1 in H3 by lia. discriminate. }
  assert (Hw2 : words_ok arr2 = true).
  { apply words_ok_intro. intros j Hj.
    pose proof (zget_words_ok arr j Hw) as Hr.
    assert (H1 : 0 ≤ zget arr1 j < 2^64).
    { rewrite Hget1. destruct (decide (j = i)); [| exact Hr].
      apply lor_status_range; [apply zget_words_ok, Hw | lia]. }
    destruct (Hrel j) as [-> | [_ ->]]; [exact H1 |].
    apply lor_status_range; [exact H1 | lia]. }
  assert (Hwf' : large_wf (pool_of st' h)).
  { rewrite Hp'. unfold large_wf. cbn [allocs tracking nextFreeIndex].
    split; [exact Hk |]. split; [rewrite Hlen2; exact Hn |]. split; [exact Hw2 |].
    unfold large_sorted. cbn [allocs tracking nextFreeIndex].
    apply strictly_increasing_intro. intros a Ha.
    rewrite length_map, length_take in Ha.
    rewrite !nth_boundary_take by lia. rewrite !Hbnd.
    pose proof (strictly_increasing_adjacent _ Hs a) as Hadj.
    rewrite length_map, length_take in Hadj.
    rewrite !nth_boundary_take in Hadj by (fold arr; lia).
    apply Hadj. fold arr. lia. }
  assert (Hnone : ∀ j, 0 ≤ j < nextFreeIndex p → zget arr2 j ≠ ptr).
  { intros j Hj Heq. destruct (Z.eq_dec j i) as [-> | Hne].
    - apply live_word in Hptr7 as [_ Hp0]. rewrite Heq, Hp0 in Hbit. discriminate.
    - pose proof (Hbnd j) as Hb. rewrite Heq, <- Hentry in Hb.
      destruct (Z.lt_trichotomy j i) as [Hlt | [-> | Hgt]]; [| contradiction |].
      + pose proof (proj1 (large_sorted_raw p Hs Hw Hn j i ltac:(lia) ltac:(lia))).
        fold arr in H. lia.
      + pose proof (proj1 (large_sorted_raw p Hs Hw Hn i j ltac:(lia) ltac:(lia))).
        fold arr in H. lia. }
  split; [exact Hwf' |]. split; [| split].
  - intros q c Hq [_ (j & Hj & Hqlb & Hc & Hcz)]. fold p arr in Hj, Hqlb, Hc.
    split; [exact Hwf' |]. rewrite Hp'. cbn [allocs tracking nextFreeIndex].
    pose proof Hqlb as Hqlb'. apply live_boundary_true in Hqlb' as [Hqe Hq7].
    assert (Hji : j ≠ i) by congruence.
    exists j. split; [exact Hj |].
    rewrite (Hstay j Hji ltac:(rewrite Hqe; exact Hq7)).
    split; [exact Hqlb |]. split; [| exact Hcz].
    rewrite Hc. f_equal. f_equal. symmetry. apply Hbnd.
  - intros c [_ (j & Hj & Hlb & _)]. rewrite Hp' in Hj, Hlb.
    cbn [allocs tracking nextFreeIndex] in Hj, Hlb.
    apply live_boundary_true in Hlb as [Heq _]. exact (Hnone j Hj Heq).
  - intros Hfind'.
    assert (Hmiss : find_large_ptr ptr h st' = Ok (0, 0) st').
    { apply find_large_ptr_miss; rewrite Hp'; cbn [allocs tracking nextFreeIndex].
      - apply kind_large, Z.ltb_lt in Hk. unfold SIZE_MAX in Hk. lia.
      - exact Hnone. }
    assert (Hk2 : (nextFreeIndex (pool_of st' h) <? SIZE_MAX - 1) = true).
    { rewrite Hp'. cbn [nextFreeIndex]. apply kind_large, Hk. }
    split.
    + unfold ffmalloc_usable_size. destruct (Z.eqb_spec ptr 0); [contradiction |].
      munfold. rewrite Hfind', Hk2, Hmiss. reflexivity.
    + unfold fffree. destruct (Z.eqb_spec ptr 0); [contradiction |].
      munfold. rewrite Hfind', Hk2, Hmiss. reflexivity.
Qed.

(** 5000 bytes from the initial state, freed twice. *)
Lemma large_free_marks_entry_witness :
  let r := ffmalloc false 5000 st_init in
  let st' := state_of (fffree (value_of 0 r) (state_of r)) in
  fffree (value_of 0 r) st' = Aborted "free bad large ptr: %p".
Proof.
  cbv zeta.
  destruct (large_free_marks_entry (state_of (ffmalloc false 5000 st_init))
              (state_of (fffree (value_of 0 (ffmalloc false 5000 st_init))
                                (state_of (ffmalloc false 5000 st_init))))
              2 (value_of 0 (ffmalloc false 5000 st_init)) 5008)
    as (_ & _ & _ & H).
  - vm_compute. discriminate.
  - vm_compute. reflexivity.
  - split; [repeat split; vm_compute; congruence |].
    exists 0. repeat split; vm_compute; congruence.
  - vm_compute. reflexivity.
  - apply H. vm_compute. reflexivity.
Defined.

(** * The aligned entry points *)

(** ** Usable sizes on the large path *)








(** ** Trimming a large pool *)





















(** The condition on the next free byte is needed.  In the 16-byte
    build [ffaligned_alloc(8, 2056)] leaves the next free byte of the
    first large pool at 8 modulo 16, and the state no longer satisfies
    [large_path_ready] for an alignment of 16: [ffaligned_alloc(16, 4096)]
    returns the aligned address 8 bytes further on, which the boundary
    array does not record, and the usable size of the block reads 0. *)
Lemma unaligned_next_byte_example :
  let r1 := ffaligned_alloc false 8 2056 st_init in
  let r2 := ffaligned_alloc false 16 4096 (state_of r1) in
  large_scan (state_of r1) 4096 16 (cpu_large_list (state_of r1)) 0 = (Some 2, 0) ∧
  nextFreePage (pool_of (state_of r1) 2) mod 16 = 8 ∧
  value_of 0 r2 = value_of 0 r1 + 2064 ∧
  value_of 0 r2 mod 16 = 0 ∧
  ffmalloc_usable_size (value_of 0 r2) (state_of r2) = Ok 0 (state_of r2).
Proof. vm_compute. repeat split; congruence. Qed.

(** ** Room in the blocks of [ffmalloc] *)


